(** * count_reads_bridging_ends.py: a shallow embedding and its properties

    The script reads a headless, name-sorted SAM file, groups the alignment
    lines per read and asks, for pairs of alignments of one read, whether
    they support the two ends of a contig being joined.

    Python values are modelled as follows.
    - [str] is [string]: a sequence of code points below 256.
    - [int] is [Z] (unbounded, as in Python); [&] is [Z.land].  The
      conversion [int(s)] of a text is bounded: see [Py.int].
    - [None] is the [None] of an [option].
    - a raised exception is the [Raise] of the result type [res]. *)

From Stdlib Require Import ZArith List String Ascii Bool Arith Lia.
Import ListNotations.

Local Open Scope string_scope.
Local Open Scope list_scope.
Local Open Scope Z_scope.

(** ** Python builtins used by the script *)

Module Py.

Inductive exn : Type :=
| ValueError
| AssertionError
| TypeError
| AttributeError
| IndexError
| StopIteration.

Inductive res (A : Type) : Type :=
| Ok (a : A)
| Raise (e : exn).
Arguments Ok {A} a.
Arguments Raise {A} e.

Definition bind {A B : Type} (m : res A) (k : A -> res B) : res B :=
  match m with
  | Ok a => k a
  | Raise e => Raise e
  end.

(** [xs[i]] for a non-negative literal index. *)
Definition getitem {A : Type} (xs : list A) (i : nat) : res A :=
  match nth_error xs i with
  | Some x => Ok x
  | None => Raise IndexError
  end.

(** Using a value that may be [None] where an [int] is required. *)
Definition as_int (v : option Z) : res Z :=
  match v with
  | Some z => Ok z
  | None => Raise TypeError
  end.

Definition tab : ascii := "009"%char.
Definition newline : ascii := "010"%char.

(** [s.startswith(c)] for a one-character [c]. *)
Definition startswith (c : ascii) (s : string) : bool :=
  match s with
  | String d _ => Ascii.eqb d c
  | EmptyString => false
  end.

Fixpoint lstrip (p : ascii -> bool) (s : string) : string :=
  match s with
  | String c r => if p c then lstrip p r else s
  | EmptyString => EmptyString
  end.

Fixpoint rstrip (p : ascii -> bool) (s : string) : string :=
  match s with
  | String c r =>
      match rstrip p r with
      | EmptyString => if p c then EmptyString else String c EmptyString
      | r' => String c r'
      end
  | EmptyString => EmptyString
  end.

(** [s.rstrip('\n')] *)
Definition rstrip_nl (s : string) : string :=
  rstrip (fun c => Ascii.eqb c newline) s.

(** [s.split('\t')]: never the empty list. *)
Fixpoint split_tab (s : string) : list string :=
  match s with
  | EmptyString => [EmptyString]
  | String c r =>
      if Ascii.eqb c tab then EmptyString :: split_tab r
      else match split_tab r with
           | f :: fs => String c f :: fs
           | [] => [String c EmptyString]
           end
  end.

(** The white space that [int] skips around a number, on code points
    below 256: tab to carriage return, space, U+0085 and U+00A0. *)
Definition is_space (c : ascii) : bool :=
  let n := nat_of_ascii c in
  ((9 <=? n) && (n <=? 13) || (n =? 32) || (n =? 133) || (n =? 160))%nat.

(** [\d] / a decimal digit, on code points below 256. *)
Definition digit_val (c : ascii) : option Z :=
  let n := nat_of_ascii c in
  if ((48 <=? n) && (n <=? 57))%nat then Some (Z.of_nat n - 48) else None.

Definition is_digit (c : ascii) : bool :=
  match digit_val c with
  | Some _ => true
  | None => false
  end.

(** The digits of a decimal literal; a single underscore is allowed
    between two digits. *)
Fixpoint digits_from (s : string) (acc : Z) (after_digit : bool)
  : option Z :=
  match s with
  | EmptyString => if after_digit then Some acc else None
  | String c r =>
      match digit_val c with
      | Some d => digits_from r (10 * acc + d) true
      | None =>
          if Ascii.eqb c "_"%char && after_digit
          then digits_from r acc false
          else None
      end
  end.

(** The number of digits in a text. *)
Fixpoint count_digits (s : string) : Z :=
  match s with
  | EmptyString => 0
  | String c r => (if is_digit c then 1 else 0) + count_digits r
  end.

(** [sys.get_int_max_str_digits()]: the interpreter converts no text of
    more digits to an [int].  4300 is the default, which the script does
    not change. *)
Definition max_str_digits : Z := 4300.

(** [int(s)] in base ten: surrounding white space, an optional sign,
    digits.  Anything else is a [ValueError], and so is a literal of more
    than [max_str_digits] digits, leading zeros included. *)
Definition int (s : string) : res Z :=
  let t := rstrip is_space (lstrip is_space s) in
  let '(neg, body) :=
    match t with
    | String "+"%char r => (false, r)
    | String "-"%char r => (true, r)
    | _ => (false, t)
    end in
  match digits_from body 0 false with
  | Some v =>
      if max_str_digits <? count_digits body then Raise ValueError
      else Ok (if neg then - v else v)
  | None => Raise ValueError
  end.

(** [range(n)] *)
Definition range (n : Z) : list Z :=
  map Z.of_nat (seq 0 (Z.to_nat n)).

(** [xs.pop(i)]: the list without its element of index [i]; a negative
    index counts from the end. *)
Fixpoint remove_nth {A : Type} (i : nat) (xs : list A) {struct xs}
  : list A :=
  match xs with
  | [] => []
  | x :: r =>
      match i with
      | O => r
      | S j => x :: remove_nth j r
      end
  end.

Definition pop {A : Type} (xs : list A) (i : Z) : res (list A) :=
  let n := Z.of_nat (List.length xs) in
  let j := if i <? 0 then i + n else i in
  if (j <? 0) || (n <=? j) then Raise IndexError
  else Ok (remove_nth (Z.to_nat j) xs).

(** [min(xs)] and [max(xs)] of a non-empty list. *)
Definition list_min (x : Z) (xs : list Z) : Z := fold_left Z.min xs x.
Definition list_max (x : Z) (xs : list Z) : Z := fold_left Z.max xs x.

End Py.

Import Py.

Declare Scope py_scope.
Notation "x <- m ;; k" := (bind m (fun x => k))
  (at level 61, m at next level, right associativity) : py_scope.
Local Open Scope py_scope.

(** ** Regular expressions of the script *)

Module Re.

(** The longest prefix of digits, and what follows it. *)
Fixpoint span_digits (s : string) : string * string :=
  match s with
  | String c r =>
      if is_digit c
      then let '(ds, t) := span_digits r in (String c ds, t)
      else (EmptyString, s)
  | EmptyString => (EmptyString, EmptyString)
  end.

(** [[MINDSHPX=]] *)
Definition is_op (c : ascii) : bool :=
  existsb (Ascii.eqb c)
    ["M"; "I"; "N"; "D"; "S"; "H"; "P"; "X"; "="]%char.

(** [\d+[MINDSHPX=]] matched at the start of [s]: the matched text and the
    rest.  [\d+] takes the whole run of digits: after fewer digits the next
    character is a digit, not an operation letter. *)
Definition match_token (s : string) : option (string * string) :=
  match span_digits s with
  | (String d ds, String c r) =>
      if is_op c then Some (String d ds ++ String c EmptyString, r)%string
      else None
  | _ => None
  end.

(** [re.findall(r'\d+[MINDSHPX=]', s)]: the matches from left to right,
    each search starting where the previous match ended. *)
Fixpoint findall_from (fuel : nat) (s : string) : list string :=
  match fuel with
  | O => []
  | S f =>
      match match_token s with
      | Some (tok, r) => tok :: findall_from f r
      | None =>
          match s with
          | String _ r => findall_from f r
          | EmptyString => []
          end
      end
  end.

Definition findall_token (s : string) : list string :=
  findall_from (S (String.length s)) s.

(** [s] without the prefix [p], when it starts with it. *)
Fixpoint strip_prefix (p s : string) : option string :=
  match p with
  | EmptyString => Some s
  | String c p' =>
      match s with
      | String d s' => if Ascii.eqb c d then strip_prefix p' s' else None
      | EmptyString => None
      end
  end.

(** [_length_(\d+)_] matched at the start of [s]: group 1.  As for the
    tokens, [\d+] takes the whole run of digits. *)
Definition match_length (s : string) : option string :=
  match strip_prefix "_length_" s with
  | Some r =>
      match span_digits r with
      | (String d ds, String c _) =>
          if Ascii.eqb c "_" then Some (String d ds) else None
      | _ => None
      end
  | None => None
  end.

(** [re.search(r'_length_(\d+)_', s)]: group 1 of the leftmost match. *)
Fixpoint search_length (s : string) : option string :=
  match match_length s with
  | Some g => Some g
  | None =>
      match s with
      | String _ r => search_length r
      | EmptyString => None
      end
  end.

End Re.

(** ** class sam_entry *)

Module sam_entry.

Record t : Type := mk {
  qname : string;
  flag : Z;
  rname : string;
  pos : Z;
  mapq : Z;
  cigar : string;
  rnext : string;
  pnext : Z;
  tlen : Z;
  seq : string;
  qual : string
}.

(** [sam_entry.__init__]: the five numeric columns are converted in the
    order 1, 3, 4, 7, 8. *)
Definition init (line : string) : res t :=
  if startswith "@" line then Raise ValueError
  else
    let line := rstrip_nl line in
    let cols := split_tab line in
    if (List.length cols <? 11)%nat then Raise AssertionError
    else
      c1 <- bind (getitem cols 1) int ;;
      c3 <- bind (getitem cols 3) int ;;
      c4 <- bind (getitem cols 4) int ;;
      c7 <- bind (getitem cols 7) int ;;
      c8 <- bind (getitem cols 8) int ;;
      c0 <- getitem cols 0 ;;
      c2 <- getitem cols 2 ;;
      c5 <- getitem cols 5 ;;
      c6 <- getitem cols 6 ;;
      c9 <- getitem cols 9 ;;
      c10 <- getitem cols 10 ;;
      Ok (mk c0 c1 c2 c3 c4 c5 c6 c7 c8 c9 c10).

End sam_entry.

(** ** class cigar *)

Module cigar.

Record t : Type := mk {
  cigarString : string;
  subCigarStrings : option (list string);
  parts : option (list (string * Z));
  readLength : option Z;
  alnLength : option Z
}.

(** [a[-1:]] and [a[:-1]] *)
Fixpoint last1 (a : string) : string :=
  match a with
  | EmptyString => EmptyString
  | String c EmptyString => a
  | String _ r => last1 r
  end.

Fixpoint butlast (a : string) : string :=
  match a with
  | EmptyString => EmptyString
  | String _ EmptyString => EmptyString
  | String c r => String c (butlast r)
  end.

(** [[[a[-1:], int(a[:-1])] for a in subCigarStrings]] *)
Fixpoint parts_of (subs : list string) : res (list (string * Z)) :=
  match subs with
  | [] => Ok []
  | a :: r =>
      n <- int (butlast a) ;;
      ps <- parts_of r ;;
      Ok ((last1 a, n) :: ps)
  end.

(** [x in ops] for strings *)
Definition mem_str (x : string) (ops : list string) : bool :=
  existsb (String.eqb x) ops.

(** The loop shared by [__readLength] and [__alnLength]. *)
Definition sum_parts (ops : list string) (ps : list (string * Z)) : Z :=
  fold_left
    (fun l part => if mem_str (fst part) ops then l + snd part else l)
    ps 0.

Definition cigar__readLength (ps : list (string * Z)) : Z :=
  sum_parts ["M"; "I"; "S"; "X"; "="] ps.

Definition cigar__alnLength (ps : list (string * Z)) : Z :=
  sum_parts ["M"; "D"; "N"; "="; "X"] ps.

(** [cigar.__init__] *)
Definition init (cigarString : string) : res t :=
  if negb (cigarString =? "*")%string then
    let subs := Re.findall_token cigarString in
    ps <- parts_of subs ;;
    Ok (mk cigarString (Some subs) (Some ps)
          (Some (cigar__readLength ps)) (Some (cigar__alnLength ps)))
  else Ok (mk cigarString None None None None).

(** One step of [for part in self.parts] in [readMatchStartStop], on the
    pair of the cursor [i] and the list [subs]. *)
Definition walk (st : Z * list Z) (part : string * Z) : Z * list Z :=
  let st1 :=
    if (fst part =? "S")%string
    then Nat.iter (Z.to_nat (snd part))
           (fun s => (fst s + 1, snd s ++ [fst s])) st
    else st in
  if mem_str (fst part) ["M"; "I"; "X"; "="]
  then Nat.iter (Z.to_nat (snd part)) (fun s => (fst s + 1, snd s)) st1
  else st1.

(** [for i in subs: _ = poss.pop(i)] *)
Fixpoint pop_all (poss subs : list Z) : res (list Z) :=
  match subs with
  | [] => Ok poss
  | i :: r => p <- pop poss i ;; pop_all p r
  end.

(** [cigar.readMatchStartStop]; iterating over [self.parts] when it is
    [None] is a [TypeError]. *)
Definition readMatchStartStop (self : t) : res (option (Z * Z)) :=
  match readLength self with
  | None => Ok None
  | Some rl =>
      let poss := map (fun i => i + 1) (range rl) in
      match parts self with
      | None => Raise TypeError
      | Some ps =>
          let subs := rev (snd (fold_left walk ps (0, []))) in
          poss <- pop_all poss subs ;;
          match poss with
          | [] => Ok None
          | x :: xs => Ok (Some (list_min x xs, list_max x xs))
          end
      end
  end.

End cigar.

(** ** class sam_per_read *)

Module sam_per_read.

(** The text of the open file, the position of the file handle and the
    attribute [cursor_pos]. *)
Record t : Type := mk {
  content : string;
  fileh : nat;
  cursor_pos : nat
}.

Fixpoint str_drop (n : nat) (s : string) : string :=
  match n, s with
  | S m, String _ r => str_drop m r
  | _, _ => s
  end.

(** A line up to and including its newline, or up to the end. *)
Fixpoint take_line (s : string) : string :=
  match s with
  | String c r =>
      if Ascii.eqb c newline then String c EmptyString
      else String c (take_line r)
  | EmptyString => EmptyString
  end.

(** [sam_per_read.__init__] on the text of the file *)
Definition init (text : string) : t := mk text 0 0.

Definition readline (self : t) : string * t :=
  let l := take_line (str_drop (fileh self) (content self)) in
  (l, mk (content self) (fileh self + String.length l) (cursor_pos self)).

Definition tell (self : t) : nat := fileh self.

Definition seek (self : t) (p : nat) : t :=
  mk (content self) p (cursor_pos self).

Definition set_cursor_pos (self : t) (p : nat) : t :=
  mk (content self) (fileh self) p.

(** [readline().rstrip('\n').split('\t')] *)
Definition read_fields (self : t) : list string * t :=
  let '(l, self) := readline self in (split_tab (rstrip_nl l), self).

(** [xs[0]] of a list of strings; [split] never returns the empty list. *)
Definition first_field (xs : list string) : string := hd EmptyString xs.
Definition first_line (xss : list (list string)) : list string := hd [] xss.

(** The [while] loop of [next]; [None] when the fuel runs out. *)
Fixpoint next_loop (fuel : nat) (currlines : list (list string)) (self : t)
  : option (list (list string) * t) :=
  match fuel with
  | O => None
  | S f =>
      let '(fields, self1) := read_fields self in
      if (first_field fields =? first_field (first_line currlines))%string
      then
        let self2 := seek self1 (cursor_pos self1) in
        let '(fields2, self3) := read_fields self2 in
        let self4 := set_cursor_pos self3 (tell self3) in
        next_loop f (currlines ++ [fields2]) self4
      else Some (currlines, seek self1 (cursor_pos self1))
  end.

Definition fields_eqb (xs ys : list string) : bool :=
  if list_eq_dec string_dec xs ys then true else false.

(** [sam_per_read.next] *)
Definition next (fuel : nat) (self : t)
  : option (res (list (list string)) * t) :=
  let '(fields, self1) := read_fields self in
  let self2 := set_cursor_pos self1 (tell self1) in
  if fields_eqb fields [EmptyString] then Some (Raise StopIteration, self2)
  else
    match next_loop fuel [fields] self2 with
    | Some (currlines, self3) => Some (Ok currlines, self3)
    | None => None
    end.

(** The groups that the driver's loop
    [while samh: try: readaln = samh.next() ... except StopIteration: break]
    receives.  Only [StopIteration] ends the loop; [None] when the fuel
    runs out. *)
Fixpoint read_groups (fuel : nat) (self : t)
  : option (res (list (list (list string)))) :=
  match fuel with
  | O => None
  | S f =>
      match next f self with
      | None => None
      | Some (Raise StopIteration, _) => Some (Ok [])
      | Some (Raise e, _) => Some (Raise e)
      | Some (Ok g, self') =>
          match read_groups f self' with
          | Some (Ok gs) => Some (Ok (g :: gs))
          | other => other
          end
      end
  end.

End sam_per_read.

(** ** The functions of the main block *)

Import sam_entry.

Definition lenFromContigName (contigNameStr : string) : res (option Z) :=
  match Re.search_length contigNameStr with
  | None => Ok None
  | Some g => n <- int g ;; Ok (Some n)
  end.

Definition isR1 (sam_entry_obj : sam_entry.t) : bool :=
  (Z.land (flag sam_entry_obj) 0x4 =? 0)
  && (Z.land (flag sam_entry_obj) 0x10 =? 0).

Definition isR2 (sam_entry_obj : sam_entry.t) : bool :=
  (Z.land (flag sam_entry_obj) 0x4 =? 0)
  && (Z.land (flag sam_entry_obj) 0x10 =? 1).

Definition sameReadForward (a b : sam_entry.t) : bool :=
  (Z.land (flag a) 0x4 =? 0) && (Z.land (flag b) 0x4 =? 0)
  && (Z.land (flag a) 0x40 =? Z.land (flag b) 0x40)
  && (Z.land (flag a) 0x10 =? 0) && (Z.land (flag b) 0x10 =? 0).

Definition sameReadReverse (a b : sam_entry.t) : bool :=
  (Z.land (flag a) 0x4 =? 0) && (Z.land (flag b) 0x4 =? 0)
  && (Z.land (flag a) 0x40 =? Z.land (flag b) 0x40)
  && negb (Z.land (flag a) 0x10 =? 0) && (Z.land (flag b) 0x10 =? 1).

(** What [pairedReads] returns: [False], ['R1R2'] or ['R2R1']. *)
Inductive pair_label : Type :=
| NotPaired
| R1R2
| R2R1.

(** [b.flat]: a [sam_entry] has no such attribute. *)
Definition getattr_flat (b : sam_entry.t) : res Z := Raise AttributeError.

(** [pairedReads]; [and] evaluates its right operand only when the left
    one is true. *)
Definition pairedReads (a b : sam_entry.t) : res pair_label :=
  c <- (if negb (Z.land (flag a) 0x1 =? 0)
           && negb (Z.land (flag b) 0x1 =? 0)
           && negb (Z.land (flag a) 0x4 =? 0)
        then f <- getattr_flat b ;; Ok (negb (Z.land f 0x4 =? 0))
        else Ok false) ;;
  if c : bool then
    if (Z.land (flag a) 0x40 =? 0) && (Z.land (flag b) 0x80 =? 0)
    then Ok R1R2
    else if (Z.land (flag a) 0x80 =? 0) && (Z.land (flag b) 0x40 =? 0)
    then Ok R2R1
    else Ok NotPaired
  else Ok NotPaired.

Inductive strand_t : Type :=
| forward
| reverse.

Definition strand_eqb (x y : strand_t) : bool :=
  match x, y with
  | forward, forward | reverse, reverse => true
  | _, _ => false
  end.

(** One block
    [if order and geometry and strand == s: if span <= limit: return True]
    of [singleReadSegmentBridges]; the value is whether the block returns
    [True].  [geometry] and [span_ok] are evaluated only when reached. *)
Definition bridge_case (order : bool) (geometry : res bool)
  (strand_ok : bool) (span_ok : res bool) : res bool :=
  if order then
    g <- geometry ;;
    if g && strand_ok then span_ok else Ok false
  else Ok false.

(** [x > y + n], where [n] may be [None] *)
Definition gt_plus (x y : Z) (n : option Z) : res bool :=
  n <- as_int n ;; Ok (x >? y + n).

(** [T - x + y + n <= limit], where [T], [n] and [limit] may be [None] *)
Definition span_within (T : option Z) (x y : Z) (n limit : option Z)
  : res bool :=
  T <- as_int T ;;
  n <- as_int n ;;
  limit <- as_int limit ;;
  Ok (T - x + y + n <=? limit).

Definition singleReadSegmentBridges (a b : sam_entry.t) : res bool :=
  match
    (if sameReadForward a b then Some forward
     else if sameReadReverse a b then Some reverse
     else None)
  with
  | None => Ok false
  | Some strand =>
    if negb (rname a =? rname b)%string then Ok false
    else
      template_length <- lenFromContigName (rname a) ;;
      aCigar <- cigar.init (cigar a) ;;
      bCigar <- cigar.init (cigar b) ;;
      let read_length := cigar.readLength aCigar in
      ra <- cigar.readMatchStartStop aCigar ;;
      match ra with
      | None => Ok false
      | Some (a0, a1) =>
        rb <- cigar.readMatchStartStop bCigar ;;
        match rb with
        | None => Ok false
        | Some (b0, b1) =>
          r1 <- bridge_case (a1 <? b0)
                  (gt_plus (pos a) (pos b) (cigar.alnLength bCigar))
                  (strand_eqb strand forward)
                  (span_within template_length (pos a) (pos b)
                     (cigar.alnLength bCigar) read_length) ;;
          if r1 : bool then Ok true else
          r2 <- bridge_case (b1 <? a0)
                  (gt_plus (pos b) (pos a) (cigar.alnLength aCigar))
                  (strand_eqb strand forward)
                  (span_within template_length (pos b) (pos a)
                     (cigar.alnLength aCigar) read_length) ;;
          if r2 : bool then Ok true else
          r3 <- bridge_case (a1 <? b0)
                  (n <- as_int (cigar.alnLength aCigar) ;;
                   Ok (pos a + n <? pos b))
                  (strand_eqb strand reverse)
                  (span_within template_length (pos b) (pos a)
                     (cigar.alnLength aCigar) read_length) ;;
          if r3 : bool then Ok true else
          r4 <- bridge_case (b1 <? a0)
                  (n <- as_int (cigar.alnLength bCigar) ;;
                   Ok (pos b + n <? pos a))
                  (strand_eqb strand reverse)
                  (span_within template_length (pos a) (pos b)
                     (cigar.alnLength bCigar) read_length) ;;
          if r4 : bool then Ok true else Ok false
        end
      end
  end.

(** [c.readMatchStartStop()[1] - c.readMatchStartStop()[0] + 1];
    subscripting [None] is a [TypeError].  The method computes its result
    from the object alone, so one call stands for the two. *)
Definition match_span (c : cigar.t) : res Z :=
  r <- cigar.readMatchStartStop c ;;
  match r with
  | None => Raise TypeError
  | Some (lo, hi) => Ok (hi - lo + 1)
  end.

(** One condition [strands and x > y + n and T - x + y + n <= m] of
    [pairedReadBridge]. *)
Definition paired_case (strands : bool) (T : option Z) (x y n m : Z)
  : res bool :=
  if strands && (x >? y + n) then
    T <- as_int T ;; Ok (T - x + y + n <=? m)
  else Ok false.

(** [pairedReadBridge]: [Some true], [Some false], or [None] when the
    function ends without a [return].  The [elif] calls [pairedReads] a
    second time, with the same answer.  In
    [x & 0x10 == 0 & y & 0x10 != 0] the operator [&] binds first, and the
    comparison chain is [x & 0x10 == (0 & y & 0x10)] and
    [(0 & y & 0x10) != 0]. *)
Definition pairedReadBridge (a b : sam_entry.t) (maxInsertSize : Z)
  : res (option bool) :=
  if negb (rname a =? rname b)%string then Ok (Some false)
  else
    template_length <- lenFromContigName (rname a) ;;
    aCigar <- cigar.init (cigar a) ;;
    bCigar <- cigar.init (cigar b) ;;
    aAlnLen <- match_span aCigar ;;
    bAlnLen <- match_span bCigar ;;
    p <- pairedReads a b ;;
    match p with
    | R1R2 =>
        c1 <- paired_case
                (negb (Z.land (flag a) 0x10 =? 0)
                 && (Z.land (flag b) 0x10 =? 0))
                template_length (pos a) (pos b) bAlnLen maxInsertSize ;;
        if c1 : bool then Ok (Some true) else
        c2 <- paired_case
                ((Z.land (flag a) 0x10 =? Z.land (Z.land 0 (flag b)) 0x10)
                 && negb (Z.land (Z.land 0 (flag b)) 0x10 =? 0))
                template_length (pos b) (pos a) aAlnLen maxInsertSize ;;
        if c2 : bool then Ok (Some true) else Ok None
    | R2R1 =>
        c1 <- paired_case
                (negb (Z.land (flag b) 0x10 =? 0)
                 && (Z.land (flag a) 0x10 =? 0))
                template_length (pos b) (pos a) aAlnLen maxInsertSize ;;
        if c1 : bool then Ok (Some true) else
        c2 <- paired_case
                ((Z.land (flag b) 0x10 =? Z.land (Z.land 0 (flag a)) 0x10)
                 && negb (Z.land (Z.land 0 (flag a)) 0x10 =? 0))
                template_length (pos a) (pos b) bAlnLen maxInsertSize ;;
        if c2 : bool then Ok (Some true) else Ok None
    | NotPaired => Ok (Some false)
    end.

(** The index pairs [(i, j)] on which the driver calls the two bridge
    functions for a group of [n] alignments:
    [for i in range(n - 1): for j in range(i, n)]. *)
Definition driver_pairs (n : nat) : list (nat * nat) :=
  flat_map (fun i => map (fun j => (i, j)) (List.seq i (n - i)))
    (List.seq 0 (n - 1)).

(** ** Predicates used in the statements and proofs *)

Fixpoint all_digits (s : string) : bool :=
  match s with
  | EmptyString => true
  | String c r => is_digit c && all_digits r
  end.

(** A run of at least one digit followed by one more character. *)
Definition token_shape (tok : string) : Prop :=
  exists d ds c,
    tok = (String d ds ++ String c EmptyString)%string
    /\ all_digits (String d ds) = true.

(** A strictly decreasing list of indices, all in [0, b). *)
Fixpoint desc_below (b : Z) (l : list Z) : Prop :=
  match l with
  | [] => True
  | x :: r => 0 <= x < b /\ desc_below x r
  end.

(** What [cigar.__init__] establishes. *)
Definition well_built (c : cigar.t) : Prop :=
  match cigar.parts c with
  | None => cigar.readLength c = None /\ cigar.alnLength c = None
  | Some ps =>
      Forall (fun p => 0 <= snd p) ps
      /\ cigar.readLength c = Some (cigar.cigar__readLength ps)
      /\ cigar.alnLength c = Some (cigar.cigar__alnLength ps)
  end.

(** Lines and blocks of a name-sorted file.  A line has no newline of
    its own; its name is its first tab-separated field. *)
Fixpoint no_newline (l : string) : bool :=
  match l with
  | EmptyString => true
  | String c r => negb (Ascii.eqb c newline) && no_newline r
  end.

Definition line_named (nm l : string) : bool :=
  no_newline l && (sam_per_read.first_field (split_tab l) =? nm)%string.

(** A block: a non-empty name and one line or more with that name. *)
Definition block_ok (b : string * list string) : bool :=
  negb (fst b =? "")%string
  && match snd b with [] => false | _ :: _ => true end
  && forallb (line_named (fst b)) (snd b).

Fixpoint adjacent_distinct (names : list string) : bool :=
  match names with
  | a :: r =>
      match r with
      | b :: _ => negb (a =? b)%string && adjacent_distinct r
      | [] => true
      end
  | [] => true
  end.

(** The text of a file with the given lines.  A line is followed by a
    newline; the last line is when [last_nl] is set. *)
Fixpoint text_of (last_nl : bool) (lines : list string) : string :=
  match lines with
  | [] => EmptyString
  | l :: r =>
      match r with
      | [] =>
          if last_nl then (l ++ String newline EmptyString)%string else l
      | _ :: _ => (l ++ String newline (text_of last_nl r))%string
      end
  end.

(** The group expected for a block: the fields of each of its lines. *)
Definition group_of (b : string * list string) : list (list string) :=
  map split_tab (snd b).

(** What follows a block of lines named [nm]: a line with another name,
    ended by a newline or by the end of the file.  At the end of the file
    this line is empty, and so is its name. *)
Definition rest_differs (nm rest : string) : Prop :=
  exists l e,
    rest = (l ++ e)%string
    /\ (e = EmptyString \/ exists r, e = String newline r)
    /\ no_newline l = true
    /\ sam_per_read.first_field (split_tab l) <> nm.

(** ** Concrete records *)

Module Examples.

Definition contig : string := "NODE_1_length_1000_cov_5".

(** Two forward alignments of one read across the origin. *)
Definition fwd_a : sam_entry.t :=
  sam_entry.mk "read1" 0 contig 950 60 "60M40S" "*" 0 0 "*" "*".
Definition fwd_b : sam_entry.t :=
  sam_entry.mk "read1" 2048 contig 10 60 "60S40M" "*" 0 0 "*" "*".

(** The same two alignments on a contig whose name has no length. *)
Definition nolen_a : sam_entry.t :=
  sam_entry.mk "read1" 0 "contig_7" 950 60 "60M40S" "*" 0 0 "*" "*".
Definition nolen_b : sam_entry.t :=
  sam_entry.mk "read1" 2048 "contig_7" 10 60 "60S40M" "*" 0 0 "*" "*".

(** Two reverse alignments of one read across the origin. *)
Definition rev_a : sam_entry.t :=
  sam_entry.mk "read2" 16 contig 1 60 "50M50S" "*" 0 0 "*" "*".
Definition rev_b : sam_entry.t :=
  sam_entry.mk "read2" 2064 contig 990 60 "50S50M" "*" 0 0 "*" "*".

(** A properly mapped pair: flags 99 and 147. *)
Definition mate1 : sam_entry.t :=
  sam_entry.mk "read3" 99 contig 970 60 "30M" "=" 5 0 "*" "*".
Definition mate2 : sam_entry.t :=
  sam_entry.mk "read3" 147 contig 5 60 "30M" "=" 970 0 "*" "*".

(** A mapped read (flag 73) and its unmapped mate (flag 133), which SAM
    places at the mapped read's position with no CIGAR. *)
Definition half1 : sam_entry.t :=
  sam_entry.mk "read4" 73 contig 100 60 "50M" "=" 100 0 "*" "*".
Definition half2 : sam_entry.t :=
  sam_entry.mk "read4" 133 contig 100 0 "*" "=" 100 0 "*" "*".

(** An unpaired read: flag 0 and flag 16. *)
Definition solo1 : sam_entry.t :=
  sam_entry.mk "read5" 16 contig 970 60 "30M" "*" 0 0 "*" "*".
Definition solo2 : sam_entry.t :=
  sam_entry.mk "read5" 0 contig 5 60 "30M" "*" 0 0 "*" "*".

Definition tb : string := String tab EmptyString.

(** The SAM line of [fwd_a] *)
Definition fwd_a_line : string :=
  ("read1" ++ tb ++ "0" ++ tb ++ contig ++ tb ++ "950" ++ tb ++ "60" ++ tb
   ++ "60M40S" ++ tb ++ "*" ++ tb ++ "0" ++ tb ++ "0" ++ tb ++ "*" ++ tb
   ++ "*" ++ String newline EmptyString)%string.

(** A line with nine fields, and one whose position is not a number. *)
Definition short_line : string :=
  ("read1" ++ tb ++ "0" ++ tb ++ contig ++ tb ++ "950" ++ tb ++ "60" ++ tb
   ++ "60M40S" ++ tb ++ "*" ++ tb ++ "0" ++ tb ++ "0")%string.
Definition bad_pos_line : string :=
  ("read1" ++ tb ++ "0" ++ tb ++ contig ++ tb ++ "95x" ++ tb ++ "60" ++ tb
   ++ "60M40S" ++ tb ++ "*" ++ tb ++ "0" ++ tb ++ "0" ++ tb ++ "*" ++ tb
   ++ "*")%string.

(** Three blocks of a name-sorted file. *)
Definition blocks : list (string * list string) :=
  [("r1", [("r1" ++ tb ++ "0")%string; ("r1" ++ tb ++ "2048")%string]);
   ("r2", ["r2"]);
   ("r3", [("r3" ++ tb ++ "16")%string; ("r3" ++ tb ++ "0")%string;
           ("r3" ++ tb ++ "256")%string])].

End Examples.

(** ** Further predicates and functions *)

(** Whether the read position of 0-based index [k >= 0] lies in a soft
    clip, when the parts are laid along the read in their order: M, I, X,
    = and S take as many positions as their length, the other operations
    take none. *)
Fixpoint clipped (ps : list (string * Z)) (k : Z) : bool :=
  match ps with
  | [] => false
  | part :: r =>
      if (fst part =? "S")%string
      then (k <? snd part) || clipped r (k - snd part)
      else if cigar.mem_str (fst part) ["M"; "I"; "X"; "="]
      then (snd part <=? k) && clipped r (k - snd part)
      else clipped r k
  end.

(** [str(n)] of an [int]: its decimal digits, behind a minus sign when it
    is negative.  The digits are produced from the last one; a number has
    no more decimal digits than binary ones, which bounds the loop.
    The interpreter writes no number of more than [max_str_digits]
    digits; the numbers that the script writes stay below: the columns
    that [int] has returned, and counters of the lines read. *)
Definition digit_char (d : Z) : ascii := ascii_of_nat (48 + Z.to_nat d).

Fixpoint digits_of (fuel : nat) (n : Z) (acc : string) : string :=
  match fuel with
  | O => acc
  | S f =>
      let acc' := String (digit_char (n mod 10)) acc in
      if n <? 10 then acc' else digits_of f (n / 10) acc'
  end.

Definition str_int (z : Z) : string :=
  let n := Z.abs z in
  let ds := digits_of (S (Z.to_nat (Z.log2 n))) n EmptyString in
  if z <? 0 then String "-" ds else ds.

(** No run of digits in [s] is longer than the limit of [int]: at every
    position, the digits that follow are [max_str_digits] at most. *)
Fixpoint digit_runs_ok (s : string) : bool :=
  match s with
  | EmptyString => true
  | String _ r =>
      (Z.of_nat (String.length (fst (Re.span_digits s))) <=? max_str_digits)
      && digit_runs_ok r
  end.

(** No character of [s] is [c]. *)
Fixpoint no_char (c : ascii) (s : string) : bool :=
  match s with
  | EmptyString => true
  | String d r => negb (Ascii.eqb d c) && no_char c r
  end.

(** The maximal runs of neighbouring lines with one name, each with its
    name. *)
Fixpoint group_lines (lines : list string) : list (string * list string) :=
  match lines with
  | [] => []
  | l :: r =>
      let nm := sam_per_read.first_field (split_tab l) in
      match group_lines r with
      | (nm', ls) :: bs =>
          if (nm =? nm')%string then (nm, l :: ls) :: bs
          else (nm, [l]) :: (nm', ls) :: bs
      | [] => [(nm, [l])]
      end
  end.

(** A line of a file: no newline of its own, and a name that is not
    empty. *)
Definition line_ok (l : string) : bool :=
  no_newline l
  && negb (sam_per_read.first_field (split_tab l) =? "")%string.

(** All fields of a group start with the same field. *)
Definition one_name (g : list (list string)) : bool :=
  match g with
  | [] => false
  | x :: r =>
      forallb
        (fun y => (sam_per_read.first_field y
                   =? sam_per_read.first_field x)%string) r
  end.

(** Neighbouring groups differ in the name of their first line. *)
Fixpoint groups_differ (gs : list (list (list string))) : bool :=
  match gs with
  | g :: r =>
      match r with
      | h :: _ =>
          negb (sam_per_read.first_field (sam_per_read.first_line g)
                =? sam_per_read.first_field (sam_per_read.first_line h))%string
          && groups_differ r
      | [] => true
      end
  | [] => true
  end.

(** Where [next] raises [StopIteration]: at the end of the file, and in
    front of an empty line. *)
Definition stops_here (rest : string) : Prop :=
  rest = EmptyString \/ exists r, rest = String newline r.

(** ** [sam_entry.__cols] and [sam_entry.__str__] *)

(** A column of [self.__cols]: the text of the field, or the [int] it
    was converted to. *)
Inductive col : Type :=
| CStr (s : string)
| CInt (z : Z).

(** [int(c)] and [str(c)] for a column *)
Definition col_int (c : col) : res Z :=
  match c with
  | CStr s => int s
  | CInt z => Ok z
  end.

Definition col_str (c : col) : string :=
  match c with
  | CStr s => s
  | CInt z => str_int z
  end.

(** [xs[i] = v] *)
Fixpoint setitem {A : Type} (xs : list A) (i : nat) (v : A)
  : res (list A) :=
  match xs with
  | [] => Raise IndexError
  | x :: r =>
      match i with
      | O => Ok (v :: r)
      | S j => r' <- setitem r j v ;; Ok (x :: r')
      end
  end.

(** [for i in idx: cols[i] = int(cols[i])] *)
Fixpoint convert_cols (idx : list nat) (cols : list col)
  : res (list col) :=
  match idx with
  | [] => Ok cols
  | i :: r =>
      c <- getitem cols i ;;
      z <- col_int c ;;
      cols' <- setitem cols i (CInt z) ;;
      convert_cols r cols'
  end.

(** [self.__cols] at the end of [sam_entry.__init__] *)
Definition sam_entry_cols (line : string) : res (list col) :=
  if startswith "@" line then Raise ValueError
  else
    let line := rstrip_nl line in
    let cols := map CStr (split_tab line) in
    if (List.length cols <? 11)%nat then Raise AssertionError
    else convert_cols [1; 3; 4; 7; 8]%nat cols.

(** ['\t'.join(xs)] *)
Fixpoint join_tab (xs : list string) : string :=
  match xs with
  | [] => EmptyString
  | x :: r =>
      match r with
      | [] => x
      | _ :: _ => (x ++ String tab (join_tab r))%string
      end
  end.

(** [sam_entry.__str__] *)
Definition sam_entry_str (cols : list col) : string :=
  join_tab (map col_str cols).

(** The columns of an entry, given its fields behind the eleventh. *)
Definition cols_of (e : sam_entry.t) (more : list string) : list col :=
  [CStr (qname e); CInt (flag e); CStr (rname e); CInt (pos e);
   CInt (mapq e); CStr (sam_entry.cigar e); CStr (rnext e);
   CInt (pnext e); CInt (tlen e); CStr (sam_entry.seq e); CStr (qual e)]
  ++ map CStr more.

(** ** The driver *)

(** An alignment object of the driver: its attributes and its columns. *)
Definition aln : Type := (sam_entry.t * list col)%type.

(** [sam_entry(line)] as an object *)
Definition sam_entry_new (line : string) : res aln :=
  e <- sam_entry.init line ;;
  cols <- sam_entry_cols line ;;
  Ok (e, cols).

(** [[sam_entry('\t'.join(line)) for line in readaln]] *)
Fixpoint parse_group (readaln : list (list string)) : res (list aln) :=
  match readaln with
  | [] => Ok []
  | line :: r =>
      a <- sam_entry_new (join_tab line) ;;
      alns <- parse_group r ;;
      Ok (a :: alns)
  end.

(** A [dict] from names to counts, in the order in which the keys were
    added. *)
Definition dict : Type := list (string * Z).

(** [d.get(k, default)] *)
Fixpoint dict_get (d : dict) (k : string) (default : Z) : Z :=
  match d with
  | [] => default
  | (k', v) :: r => if (k =? k')%string then v else dict_get r k default
  end.

(** [d[k] = v] *)
Fixpoint dict_set (d : dict) (k : string) (v : Z) : dict :=
  match d with
  | [] => [(k, v)]
  | (k', v') :: r =>
      if (k =? k')%string then (k', v) :: r else (k', v') :: dict_set r k v
  end.

(** The variables of the driver, and the strings given to [print]. *)
Record tally : Type := mk_tally {
  total : Z;
  singleReadHits : Z;
  pairedReadHits : Z;
  supportedBySingleRead : dict;
  supportedByPairedRead : dict;
  printed : list string
}.

Definition tally0 : tally := mk_tally 0 0 0 [] [] [].

Definition maxInsertSize : Z := 500.

(** The three [print] calls of a hit *)
Definition evidence (ai aj : aln) : list string :=
  [sam_entry_str (snd ai); sam_entry_str (snd aj);
   String newline EmptyString].

(** The body of the inner loop for [alns[i]] and [alns[j]].  The key of
    [supportedByPairedRead.get(alns[i], 0)] is the alignment object, which
    equals no key of the dictionary: the default 0 is returned. *)
Definition eval_pair (ai aj : aln) (st : tally) : res unit * tally :=
  match singleReadSegmentBridges (fst ai) (fst aj) with
  | Raise e => (Raise e, st)
  | Ok s =>
      let st1 :=
        if s then
          mk_tally (total st) (singleReadHits st + 1) (pairedReadHits st)
            (dict_set (supportedBySingleRead st) (rname (fst ai))
               (dict_get (supportedBySingleRead st) (rname (fst ai)) 0 + 1))
            (supportedByPairedRead st)
            (printed st ++ evidence ai aj)
        else st in
      match pairedReadBridge (fst ai) (fst aj) maxInsertSize with
      | Raise e => (Raise e, st1)
      | Ok p =>
          let st2 :=
            match p with
            | Some true =>
                mk_tally (total st1) (singleReadHits st1)
                  (pairedReadHits st1 + 1)
                  (supportedBySingleRead st1)
                  (dict_set (supportedByPairedRead st1) (rname (fst ai))
                     (0 + 1))
                  (printed st1 ++ evidence ai aj)
            | _ => st1
            end in
          (Ok tt, st2)
      end
  end.

(** The two [for] loops, over the index pairs in their order. *)
Fixpoint eval_pairs (alns : list aln) (pairs : list (nat * nat))
  (st : tally) : res unit * tally :=
  match pairs with
  | [] => (Ok tt, st)
  | (i, j) :: r =>
      match getitem alns i with
      | Raise e => (Raise e, st)
      | Ok ai =>
          match getitem alns j with
          | Raise e => (Raise e, st)
          | Ok aj =>
              match eval_pair ai aj st with
              | (Ok _, st') => eval_pairs alns r st'
              | (Raise e, st') => (Raise e, st')
              end
          end
      end
  end.

Definition add_total (st : tally) : tally :=
  mk_tally (total st + 1) (singleReadHits st) (pairedReadHits st)
    (supportedBySingleRead st) (supportedByPairedRead st) (printed st).

(** The body of the [try] behind [samh.next()], for one group. *)
Definition eval_group (readaln : list (list string)) (st : tally)
  : res unit * tally :=
  let st := add_total st in
  match parse_group readaln with
  | Raise e => (Raise e, st)
  | Ok alns => eval_pairs alns (driver_pairs (List.length alns)) st
  end.

(** The [while] loop of the driver.  [StopIteration] leaves the loop;
    any other exception ends the program.  [None] when the fuel runs
    out. *)
Fixpoint main_loop (fuel : nat) (samh : sam_per_read.t) (st : tally)
  : option (res unit * tally) :=
  match fuel with
  | O => None
  | S f =>
      match sam_per_read.next f samh with
      | None => None
      | Some (Raise StopIteration, _) => Some (Ok tt, st)
      | Some (Raise e, _) => Some (Raise e, st)
      | Some (Ok readaln, samh') =>
          match eval_group readaln st with
          | (Ok _, st') => main_loop f samh' st'
          | (Raise StopIteration, st') => Some (Ok tt, st')
          | (Raise e, st') => Some (Raise e, st')
          end
      end
  end.

(** [print(k, v)] for the items of a dictionary *)
Definition print_items (d : dict) : list string :=
  map (fun kv => (fst kv ++ " " ++ str_int (snd kv))%string) d.

(** The [print] calls behind the loop *)
Definition report (st : tally) : list string :=
  ["Supported by single reads"]
  ++ print_items (supportedBySingleRead st)
  ++ [String newline "Supported by paired reads"]
  ++ print_items (supportedByPairedRead st)
  ++ [String newline EmptyString;
      ("Total: " ++ str_int (total st)
       ++ String newline ("SingleHits: " ++ str_int (singleReadHits st)
       ++ String newline ("PairedHits: " ++ str_int (pairedReadHits st))))%string].

(** The driver on the text of the file: the loop, then the report. *)
Definition main (fuel : nat) (text : string) : option (res unit * tally) :=
  match main_loop fuel (sam_per_read.init text) tally0 with
  | Some (Ok _, st) =>
      Some (Ok tt,
            mk_tally (total st) (singleReadHits st) (pairedReadHits st)
              (supportedBySingleRead st) (supportedByPairedRead st)
              (printed st ++ report st))
  | other => other
  end.

(** The sum of the counts of a dictionary *)
Definition dict_sum (d : dict) : Z :=
  fold_right (fun kv s => snd kv + s) 0 d.

(** What the driver keeps true of its variables: no paired hit, as many
    single hits as the dictionary counts, three printed strings per hit,
    and a dictionary with one entry per name and no count below 1. *)
Definition tally_ok (st : tally) : Prop :=
  pairedReadHits st = 0
  /\ supportedByPairedRead st = []
  /\ singleReadHits st = dict_sum (supportedBySingleRead st)
  /\ Z.of_nat (List.length (printed st)) = 3 * singleReadHits st
  /\ NoDup (map fst (supportedBySingleRead st))
  /\ Forall (fun kv => 1 <= snd kv) (supportedBySingleRead st).

(** The exceptions of the two bridge functions. *)
Definition bridge_exn (e : exn) : Prop :=
  e = TypeError \/ e = AttributeError \/ e = ValueError.

(** The exceptions that end the driver. *)
Definition fatal (e : exn) : Prop :=
  e = ValueError \/ e = AssertionError \/ e = TypeError
  \/ e = AttributeError.

(** Whether [__init__] accepts a line. *)
Definition parses (l : string) : bool :=
  match sam_entry.init l with
  | Ok _ => true
  | Raise _ => false
  end.

(** The name of a line: its first field. *)
Definition name_of (l : string) : string :=
  sam_per_read.first_field (split_tab l).

(** An alignment whose CIGAR gives no matched range: it is [*], or the
    read is clipped entirely. *)
Definition no_range (a : aln) : Prop :=
  exists c, cigar.init (sam_entry.cigar (fst a)) = Ok c
            /\ cigar.readMatchStartStop c = Ok None.

(** [total += 1], [n] times *)
Fixpoint add_totals (n : nat) (st : tally) : tally :=
  match n with
  | O => st
  | S m => add_totals m (add_total st)
  end.

(** ** Concrete files *)

Module Files.

(** A reference name whose length has 4301 digits, and a forward
    alignment on it. *)
Fixpoint nines (n : nat) : string :=
  match n with
  | O => EmptyString
  | S m => String "9" (nines m)
  end.

Definition long_contig : string :=
  ("NODE_1_length_" ++ nines 4301 ++ "_cov_5")%string.

Definition long_a : sam_entry.t :=
  sam_entry.mk "read1" 0 long_contig 950 60 "60M40S" "*" 0 0 "*" "*".

(** A SAM line with the given name, flag, reference, position and
    CIGAR. *)
Definition sam_line (q f r p c : string) : string :=
  (q ++ Examples.tb ++ f ++ Examples.tb ++ r ++ Examples.tb ++ p
   ++ Examples.tb ++ "60" ++ Examples.tb ++ c ++ Examples.tb ++ "*"
   ++ Examples.tb ++ "0" ++ Examples.tb ++ "0" ++ Examples.tb ++ "*"
   ++ Examples.tb ++ "*")%string.

(** A read with two forward alignments across the origin, and an
    unmapped read. *)
Definition bridged : list string :=
  [sam_line "read1" "0" Examples.contig "950" "60M40S";
   sam_line "read1" "2048" Examples.contig "10" "60S40M";
   sam_line "read2" "4" "*" "0" "*"].

(** Three reads with one line each; the second has no CIGAR. *)
Definition singles : list string :=
  [sam_line "read1" "0" Examples.contig "950" "60M40S";
   sam_line "read2" "4" "*" "0" "*";
   sam_line "read3" "16" Examples.contig "10" "100M"].

(** A mapped read and its unmapped mate, as the fields of one group. *)
Definition half_mapped : list (list string) :=
  [split_tab (sam_line "read4" "73" Examples.contig "100" "50M");
   split_tab (sam_line "read4" "133" Examples.contig "100" "*")].

End Files.

(** ** Facts about the builtins *)

Section Builtins.

Lemma bind_ok_inv {A B : Type} (m : res A) (k : A -> res B) (b : B) :
  bind m k = Ok b -> exists a, m = Ok a /\ k a = Ok b.
Proof.
  destruct m as [a|e]; simpl; intros H; [eauto | discriminate].
Qed.

Lemma digit_val_range (c : ascii) (d : Z) :
  digit_val c = Some d -> 0 <= d <= 9.
Proof.
  unfold digit_val.
  destruct ((48 <=? nat_of_ascii c)%nat && (nat_of_ascii c <=? 57)%nat)
    eqn:E; [|discriminate].
  apply andb_prop in E. destruct E as [E1 E2].
  apply Nat.leb_le in E1. apply Nat.leb_le in E2.
  intros H. injection H as <-. lia.
Qed.

Lemma digit_not_space (c : ascii) : is_digit c = true -> is_space c = false.
Proof.
  destruct c as [[] [] [] [] [] [] [] []]; vm_compute; intros H;
    (reflexivity || discriminate H).
Qed.

Lemma digit_not_sign (c : ascii) :
  is_digit c = true -> c <> "+"%char /\ c <> "-"%char.
Proof.
  intros H. split; intros ->; vm_compute in H; discriminate.
Qed.

Lemma lstrip_keeps (p : ascii -> bool) (c : ascii) (s : string) :
  p c = false -> lstrip p (String c s) = String c s.
Proof. intros H. simpl. now rewrite H. Qed.

Lemma rstrip_digits (s : string) :
  all_digits s = true -> rstrip is_space s = s.
Proof.
  induction s as [|c r IH]; simpl; [reflexivity|].
  intros H. apply andb_prop in H. destruct H as [Hc Hr].
  rewrite (IH Hr). destruct r; [|reflexivity].
  now rewrite (digit_not_space c Hc).
Qed.

Lemma digits_from_digits (s : string) :
  all_digits s = true ->
  forall acc, 0 <= acc ->
    exists v, digits_from s acc true = Some v /\ 0 <= v.
Proof.
  induction s as [|c r IH]; cbn [digits_from all_digits];
    intros H acc Hacc.
  - eauto.
  - apply andb_prop in H. destruct H as [Hc Hr].
    unfold is_digit in Hc. destruct (digit_val c) as [d|] eqn:E;
      [|discriminate].
    apply digit_val_range in E. apply IH; [assumption | lia].
Qed.

Lemma length_append (s t : string) :
  String.length (s ++ t) = (String.length s + String.length t)%nat.
Proof. induction s as [|c s IH]; simpl; [reflexivity | now rewrite IH]. Qed.

Lemma count_digits_all (s : string) :
  all_digits s = true -> count_digits s = Z.of_nat (String.length s).
Proof.
  induction s as [|c r IH]; cbn [count_digits all_digits String.length];
    intros H; [reflexivity|].
  apply andb_prop in H. destruct H as [Hc Hr]. rewrite Hc, (IH Hr). lia.
Qed.

(** [int] of a non-empty run of digits: a natural number, unless the run
    is longer than the limit. *)
Lemma int_digits_cases (d : ascii) (ds : string) :
  all_digits (String d ds) = true ->
  exists v,
    0 <= v
    /\ int (String d ds)
       = if max_str_digits <? Z.of_nat (String.length (String d ds))
         then Raise ValueError else Ok v.
Proof.
  intros H. unfold int.
  pose proof H as H'. simpl in H'. apply andb_prop in H'.
  destruct H' as [Hd Hds].
  rewrite (lstrip_keeps _ _ _ (digit_not_space d Hd)).
  rewrite (rstrip_digits _ H).
  destruct (digit_not_sign d Hd) as [Hp Hm].
  assert (E : match String d ds with
              | String "+"%char r => (false, r)
              | String "-"%char r => (true, r)
              | _ => (false, String d ds)
              end = (false, String d ds)).
  { destruct d as [[] [] [] [] [] [] [] []]; try reflexivity;
      congruence. }
  rewrite E, (count_digits_all _ H).
  assert (Hv : exists v, digits_from (String d ds) 0 false = Some v
                         /\ 0 <= v).
  { cbn [digits_from]. unfold is_digit in Hd.
    destruct (digit_val d) as [x|] eqn:Ex; [|discriminate].
    apply digit_val_range in Ex.
    apply (digits_from_digits ds Hds (10 * 0 + x)). lia. }
  destruct Hv as [v [-> Hv0]]. exists v. split; [exact Hv0 | reflexivity].
Qed.

Lemma int_digits (d : ascii) (ds : string) :
  all_digits (String d ds) = true ->
  Z.of_nat (String.length (String d ds)) <= max_str_digits ->
  exists v, int (String d ds) = Ok v /\ 0 <= v.
Proof.
  intros H Hlen. destruct (int_digits_cases d ds H) as [v [Hv E]].
  apply Z.ltb_ge in Hlen. rewrite Hlen in E. eauto.
Qed.

Lemma int_digits_long (d : ascii) (ds : string) :
  all_digits (String d ds) = true ->
  max_str_digits < Z.of_nat (String.length (String d ds)) ->
  int (String d ds) = Raise ValueError.
Proof.
  intros H Hlen. destruct (int_digits_cases d ds H) as [v [Hv E]].
  apply Z.ltb_lt in Hlen. rewrite Hlen in E. exact E.
Qed.

Lemma int_digits_ok (d : ascii) (ds : string) (v : Z) :
  all_digits (String d ds) = true ->
  int (String d ds) = Ok v ->
  0 <= v /\ Z.of_nat (String.length (String d ds)) <= max_str_digits.
Proof.
  intros H Hv. destruct (int_digits_cases d ds H) as [w [Hw E]].
  rewrite Hv in E.
  destruct (max_str_digits <? Z.of_nat (String.length (String d ds)))
    eqn:El; [discriminate|].
  apply Z.ltb_ge in El. injection E as ->. now split.
Qed.

Lemma int_raises (s : string) (e : exn) : int s = Raise e -> e = ValueError.
Proof.
  unfold int.
  destruct (match rstrip is_space (lstrip is_space s) with
            | String "+"%char r => (false, r)
            | String "-"%char r => (true, r)
            | _ => (false, rstrip is_space (lstrip is_space s))
            end) as [neg body].
  destruct (digits_from body 0 false); [|congruence].
  destruct (max_str_digits <? count_digits body); congruence.
Qed.

Lemma remove_nth_incl {A : Type} (i : nat) (xs : list A) :
  incl (remove_nth i xs) xs.
Proof.
  revert i. induction xs as [|x r IH]; intros i; simpl.
  - apply incl_refl.
  - destruct i as [|j].
    + apply incl_tl, incl_refl.
    + apply incl_cons; [now left|]. apply incl_tl, IH.
Qed.

Lemma remove_nth_length {A : Type} (i : nat) (xs : list A) :
  (i < List.length xs)%nat ->
  List.length (remove_nth i xs) = pred (List.length xs).
Proof.
  revert i. induction xs as [|x r IH]; intros i; simpl; [lia|].
  destruct i as [|j]; [reflexivity|].
  intros H. simpl. rewrite IH; lia.
Qed.

Lemma pop_in_range {A : Type} (xs : list A) (i : Z) :
  0 <= i < Z.of_nat (List.length xs) ->
  pop xs i = Ok (remove_nth (Z.to_nat i) xs).
Proof.
  intros H. unfold pop.
  assert (E : (i <? 0) = false) by (apply Z.ltb_ge; lia).
  assert (E2 : (Z.of_nat (List.length xs) <=? i) = false)
    by (apply Z.leb_gt; lia).
  now rewrite E, E, E2.
Qed.

Lemma list_min_le (xs : list Z) (x : Z) : list_min x xs <= x.
Proof.
  unfold list_min. revert x.
  induction xs as [|y r IH]; intros x; simpl; [lia|].
  specialize (IH (Z.min x y)). lia.
Qed.

Lemma list_max_ge (xs : list Z) (x : Z) : x <= list_max x xs.
Proof.
  unfold list_max. revert x.
  induction xs as [|y r IH]; intros x; simpl; [lia|].
  specialize (IH (Z.max x y)). lia.
Qed.

Lemma list_min_in (xs : list Z) (x : Z) : In (list_min x xs) (x :: xs).
Proof.
  unfold list_min. revert x.
  induction xs as [|y r IH]; intros x; simpl; [now left|].
  destruct (IH (Z.min x y)) as [H|H].
  - rewrite <- H.
    destruct (Z.min_spec x y) as [[_ E]|[_ E]]; rewrite E; auto.
  - right. now right.
Qed.

Lemma list_max_in (xs : list Z) (x : Z) : In (list_max x xs) (x :: xs).
Proof.
  unfold list_max. revert x.
  induction xs as [|y r IH]; intros x; simpl; [now left|].
  destruct (IH (Z.max x y)) as [H|H].
  - rewrite <- H.
    destruct (Z.max_spec x y) as [[_ E]|[_ E]]; rewrite E; auto.
  - right. now right.
Qed.

Lemma range_length (n : Z) : List.length (range n) = Z.to_nat n.
Proof. unfold range. now rewrite length_map, length_seq. Qed.

Lemma in_range (n x : Z) : In x (range n) -> 0 <= x < n.
Proof.
  unfold range. intros H. apply in_map_iff in H.
  destruct H as [k [<- Hk]]. apply in_seq in Hk. lia.
Qed.

End Builtins.

(** ** Facts about the regular expressions and the CIGAR parser *)

Section Cigar.

Lemma span_digits_digits (s : string) :
  all_digits (fst (Re.span_digits s)) = true.
Proof.
  induction s as [|c r IH]; simpl; [reflexivity|].
  destruct (is_digit c) eqn:E; [|reflexivity].
  destruct (Re.span_digits r) as [ds t]. simpl in *. now rewrite E.
Qed.

Lemma span_digits_length (s : string) :
  String.length s
  = (String.length (fst (Re.span_digits s))
     + String.length (snd (Re.span_digits s)))%nat.
Proof.
  induction s as [|c r IH]; simpl; [reflexivity|].
  destruct (is_digit c); [|reflexivity].
  destruct (Re.span_digits r) as [ds t]. simpl in *. now rewrite IH.
Qed.

Lemma match_token_shape (s tok r : string) :
  Re.match_token s = Some (tok, r) -> token_shape tok.
Proof.
  unfold Re.match_token. pose proof (span_digits_digits s) as H.
  destruct (Re.span_digits s) as [ds t]. simpl in H.
  destruct ds as [|d ds]; [discriminate|].
  destruct t as [|c t]; [discriminate|].
  destruct (Re.is_op c); [|discriminate].
  intros E. injection E as <- <-. exists d, ds, c. now split.
Qed.

Lemma match_token_shorter (s tok r : string) :
  Re.match_token s = Some (tok, r) ->
  (String.length r < String.length s)%nat.
Proof.
  unfold Re.match_token. pose proof (span_digits_length s) as H.
  destruct (Re.span_digits s) as [ds t]. simpl in H.
  destruct ds as [|d ds]; [discriminate|].
  destruct t as [|c t]; [discriminate|].
  destruct (Re.is_op c); [|discriminate].
  intros E. injection E as _ <-. simpl in H. lia.
Qed.

(** The scan never needs more fuel than [findall_token] gives it. *)
Lemma findall_from_fuel (f1 f2 : nat) (s : string) :
  (String.length s < f1)%nat -> (String.length s < f2)%nat ->
  Re.findall_from f1 s = Re.findall_from f2 s.
Proof.
  revert f2 s. induction f1 as [|f1 IH]; intros f2 s H1 H2; [lia|].
  destruct f2 as [|f2]; [lia|]. simpl.
  destruct (Re.match_token s) as [[tok r]|] eqn:E.
  - apply match_token_shorter in E. f_equal. apply IH; lia.
  - destruct s as [|c r]; [reflexivity|]. simpl in H1, H2.
    apply IH; lia.
Qed.

Lemma findall_shape (fuel : nat) (s : string) :
  Forall token_shape (Re.findall_from fuel s).
Proof.
  revert s. induction fuel as [|f IH]; intros s; simpl; [constructor|].
  destruct (Re.match_token s) as [[tok r]|] eqn:E.
  - constructor; [exact (match_token_shape _ _ _ E) | apply IH].
  - destruct s; [constructor | apply IH].
Qed.

Lemma butlast_app (s : string) (c : ascii) :
  cigar.butlast (s ++ String c EmptyString)%string = s.
Proof.
  induction s as [|d r IH]; [reflexivity|].
  cbn [append cigar.butlast]. rewrite IH.
  destruct r; reflexivity.
Qed.

Lemma last1_app (s : string) (c : ascii) :
  cigar.last1 (s ++ String c EmptyString)%string = String c EmptyString.
Proof.
  induction s as [|d r IH]; [reflexivity|].
  cbn [append cigar.last1]. rewrite IH.
  destruct r; reflexivity.
Qed.

(** The tokens whose run of digits [int] accepts. *)
Lemma parts_of_cases (subs : list string) :
  Forall token_shape subs ->
  match cigar.parts_of subs with
  | Ok ps =>
      Forall (fun p => 0 <= snd p) ps
      /\ Forall (fun tok => Z.of_nat (String.length tok) - 1
                            <= max_str_digits) subs
  | Raise e =>
      e = ValueError
      /\ Exists (fun tok => max_str_digits
                            < Z.of_nat (String.length tok) - 1) subs
  end.
Proof.
  induction 1 as [|a r Ha Hr IH]; cbn [cigar.parts_of].
  - split; constructor.
  - destruct Ha as [d [ds [c [-> Hd]]]].
    rewrite butlast_app, last1_app.
    assert (El : Z.of_nat (String.length (String d ds ++ String c ""))
                 - 1 = Z.of_nat (String.length (String d ds))).
    { rewrite length_append. cbn [String.length]. lia. }
    destruct (int (String d ds)) as [v|e] eqn:Ev; cbn [bind].
    + destruct (int_digits_ok d ds v Hd Ev) as [Hv Hlen].
      destruct (cigar.parts_of r) as [ps|e]; cbn [bind].
      * destruct IH as [IH1 IH2]. split; constructor; try assumption.
        rewrite El. exact Hlen.
      * destruct IH as [IH1 IH2]. split; [exact IH1|].
        apply Exists_cons_tl. exact IH2.
    + split; [exact (int_raises _ _ Ev)|]. apply Exists_cons_hd.
      rewrite El.
      destruct (Z_lt_le_dec max_str_digits
                  (Z.of_nat (String.length (String d ds)))) as [Hl|Hl];
        [exact Hl|].
      destruct (int_digits d ds Hd Hl) as [v [Ev' _]]. congruence.
Qed.

(** [cigar.__init__] builds a consistent object, when it raises
    nothing. *)
Lemma cigar_init_ok (s : string) (c : cigar.t) :
  cigar.init s = Ok c ->
  well_built c /\ (s = "*" -> cigar.readLength c = None).
Proof.
  unfold cigar.init. destruct (s =? "*")%string eqn:E; cbn [negb].
  - intros H. injection H as <-. split; [|reflexivity].
    unfold well_built. simpl. now split.
  - pose proof (parts_of_cases (Re.findall_token s)
                  (findall_shape _ s)) as Hp.
    destruct (cigar.parts_of (Re.findall_token s)) as [ps|e];
      cbn [bind]; [|discriminate].
    intros H. injection H as <-. destruct Hp as [Hps _]. split.
    + unfold well_built. simpl. now repeat split.
    + intros ->. discriminate.
Qed.

(** [cigar.__init__] raises a [ValueError] or nothing. *)
Lemma cigar_init_raises (s : string) (e : exn) :
  cigar.init s = Raise e -> e = ValueError.
Proof.
  unfold cigar.init. destruct (s =? "*")%string; cbn [negb];
    [discriminate|].
  pose proof (parts_of_cases (Re.findall_token s)
                (findall_shape _ s)) as Hp.
  destruct (cigar.parts_of (Re.findall_token s)) as [ps|e'];
    cbn [bind]; [discriminate|].
  intros H. injection H as <-. exact (proj1 Hp).
Qed.

Lemma digit_runs_tail (c : ascii) (r : string) :
  digit_runs_ok (String c r) = true -> digit_runs_ok r = true.
Proof.
  cbn [digit_runs_ok]. intros H. apply andb_prop in H. tauto.
Qed.

Lemma digit_runs_head (s : string) :
  digit_runs_ok s = true ->
  Z.of_nat (String.length (fst (Re.span_digits s))) <= max_str_digits.
Proof.
  destruct s as [|c r].
  - intros _. unfold max_str_digits. simpl. lia.
  - cbn [digit_runs_ok]. intros H. apply andb_prop in H.
    apply Z.leb_le. tauto.
Qed.

Lemma digit_runs_span (s : string) :
  digit_runs_ok s = true -> digit_runs_ok (snd (Re.span_digits s)) = true.
Proof.
  induction s as [|c r IH]; [reflexivity|]. intros H.
  cbn [Re.span_digits]. destruct (is_digit c); [|exact H].
  specialize (IH (digit_runs_tail _ _ H)).
  destruct (Re.span_digits r) as [ds t]. exact IH.
Qed.

Lemma match_token_runs (s tok r : string) :
  Re.match_token s = Some (tok, r) ->
  digit_runs_ok s = true ->
  Z.of_nat (String.length tok) - 1 <= max_str_digits
  /\ digit_runs_ok r = true.
Proof.
  unfold Re.match_token. intros E H.
  pose proof (digit_runs_head s H) as H1.
  pose proof (digit_runs_span s H) as H2.
  destruct (Re.span_digits s) as [ds t]. cbn [fst snd] in H1, H2.
  destruct ds as [|d ds]; [discriminate|].
  destruct t as [|c t]; [discriminate|].
  destruct (Re.is_op c); [|discriminate].
  injection E as <- <-. split; [|exact (digit_runs_tail _ _ H2)].
  cbn [append String.length] in *. rewrite length_append.
  cbn [String.length]. lia.
Qed.

Lemma findall_runs (fuel : nat) (s : string) :
  digit_runs_ok s = true ->
  Forall (fun tok => Z.of_nat (String.length tok) - 1 <= max_str_digits)
    (Re.findall_from fuel s).
Proof.
  revert s. induction fuel as [|f IH]; intros s H; cbn [Re.findall_from];
    [constructor|].
  destruct (Re.match_token s) as [[tok r]|] eqn:E.
  - destruct (match_token_runs _ _ _ E H) as [H1 H2].
    constructor; [exact H1 | exact (IH r H2)].
  - destruct s as [|c r]; [constructor|].
    exact (IH r (digit_runs_tail _ _ H)).
Qed.

(** [cigar.__init__] raises nothing for a string without a run of digits
    beyond the limit. *)
Lemma cigar_init_short (s : string) :
  digit_runs_ok s = true -> exists c, cigar.init s = Ok c.
Proof.
  intros H. unfold cigar.init.
  destruct (s =? "*")%string; cbn [negb]; [eauto|].
  pose proof (parts_of_cases (Re.findall_token s) (findall_shape _ s))
    as Hp.
  destruct (cigar.parts_of (Re.findall_token s)) as [ps|e];
    cbn [bind]; [eauto|].
  exfalso. destruct Hp as [_ Hp]. apply Exists_exists in Hp.
  destruct Hp as [tok [Hin Hlong]].
  pose proof (proj1 (Forall_forall _ _) (findall_runs _ s H) tok Hin)
    as Hshort.
  cbv beta in Hshort. lia.
Qed.

Lemma sum_parts_shift (ops : list string) (ps : list (string * Z))
  (acc : Z) :
  fold_left
    (fun l part =>
       if cigar.mem_str (fst part) ops then l + snd part else l) ps acc
  = acc + cigar.sum_parts ops ps.
Proof.
  unfold cigar.sum_parts. revert acc.
  induction ps as [|p r IH]; intros acc; simpl; [lia|].
  destruct (cigar.mem_str (fst p) ops).
  - rewrite (IH (acc + snd p)), (IH (snd p)). lia.
  - rewrite (IH acc), (IH 0). lia.
Qed.

Lemma sum_parts_cons (ops : list string) (p : string * Z)
  (ps : list (string * Z)) :
  cigar.sum_parts ops (p :: ps)
  = (if cigar.mem_str (fst p) ops then snd p else 0)
    + cigar.sum_parts ops ps.
Proof.
  unfold cigar.sum_parts at 1. simpl. rewrite sum_parts_shift.
  destruct (cigar.mem_str (fst p) ops); lia.
Qed.

Lemma sum_parts_nonneg (ops : list string) (ps : list (string * Z)) :
  Forall (fun p => 0 <= snd p) ps -> 0 <= cigar.sum_parts ops ps.
Proof.
  induction 1 as [|p r Hp Hr IH]; [unfold cigar.sum_parts; simpl; lia|].
  rewrite sum_parts_cons. destruct (cigar.mem_str (fst p) ops); lia.
Qed.

Lemma desc_below_mono (b b' : Z) (l : list Z) :
  desc_below b l -> b <= b' -> desc_below b' l.
Proof. destruct l; simpl; intuition lia. Qed.

Lemma iter_skip (k : nat) (st : Z * list Z) :
  Nat.iter k (fun s => (fst s + 1, snd s)) st
  = (fst st + Z.of_nat k, snd st).
Proof.
  induction k as [|k IH].
  - simpl. destruct st. simpl. f_equal. lia.
  - rewrite Nat.iter_succ, IH. simpl. f_equal. lia.
Qed.

Lemma iter_clip (k : nat) (st : Z * list Z) :
  0 <= fst st -> desc_below (fst st) (rev (snd st)) ->
  let st' := Nat.iter k (fun s => (fst s + 1, snd s ++ [fst s])) st in
  fst st' = fst st + Z.of_nat k /\ desc_below (fst st') (rev (snd st')).
Proof.
  intros H0 Hd. induction k as [|k [IH1 IH2]].
  - simpl. split; [lia | exact Hd].
  - cbv zeta. rewrite Nat.iter_succ. cbv zeta in IH1, IH2. simpl.
    split; [lia|]. rewrite rev_app_distr. simpl.
    split; [lia | exact IH2].
Qed.

(** One step of the walk over the parts: the cursor advances by the
    length of a part that is counted in the read length, and the clipped
    indices stay below the cursor, in increasing order. *)
Lemma walk_step (st : Z * list Z) (part : string * Z) :
  0 <= snd part -> 0 <= fst st ->
  desc_below (fst st) (rev (snd st)) ->
  fst (cigar.walk st part)
  = fst st
    + (if cigar.mem_str (fst part) ["M"; "I"; "S"; "X"; "="]
       then snd part else 0)
  /\ desc_below (fst (cigar.walk st part)) (rev (snd (cigar.walk st part))).
Proof.
  intros Hn Hi Hd. unfold cigar.walk.
  destruct (fst part =? "S")%string eqn:ES.
  - apply String.eqb_eq in ES. rewrite ES.
    change (cigar.mem_str "S" ["M"; "I"; "X"; "="]) with false.
    change (cigar.mem_str "S" ["M"; "I"; "S"; "X"; "="]) with true.
    cbv iota. destruct (iter_clip (Z.to_nat (snd part)) st Hi Hd)
      as [H1 H2].
    split; [rewrite H1; lia | exact H2].
  - assert (E : cigar.mem_str (fst part) ["M"; "I"; "S"; "X"; "="]
                = cigar.mem_str (fst part) ["M"; "I"; "X"; "="]).
    { unfold cigar.mem_str. simpl. now rewrite ES. }
    rewrite E.
    destruct (cigar.mem_str (fst part) ["M"; "I"; "X"; "="]).
    + rewrite iter_skip. simpl. split; [lia|].
      apply desc_below_mono with (b := fst st); [exact Hd | lia].
    + split; [lia | exact Hd].
Qed.

Lemma walk_fold (ps : list (string * Z)) :
  Forall (fun p => 0 <= snd p) ps ->
  forall st, 0 <= fst st -> desc_below (fst st) (rev (snd st)) ->
  fst (fold_left cigar.walk ps st)
  = fst st + cigar.cigar__readLength ps
  /\ desc_below (fst (fold_left cigar.walk ps st))
       (rev (snd (fold_left cigar.walk ps st))).
Proof.
  unfold cigar.cigar__readLength.
  induction 1 as [|p r Hp Hr IH]; intros st Hi Hd.
  - simpl. unfold cigar.sum_parts. simpl. split; [lia | exact Hd].
  - simpl. destruct (walk_step st p Hp Hi Hd) as [H1 H2].
    assert (H0 : 0 <= fst (cigar.walk st p)).
    { rewrite H1.
      destruct (cigar.mem_str (fst p) ["M"; "I"; "S"; "X"; "="]); lia. }
    destruct (IH _ H0 H2) as [H3 H4].
    split; [|exact H4].
    rewrite H3, H1, sum_parts_cons. lia.
Qed.

Lemma pop_all_ok (subs poss : list Z) :
  desc_below (Z.of_nat (List.length poss)) subs ->
  exists p, cigar.pop_all poss subs = Ok p /\ incl p poss.
Proof.
  revert poss. induction subs as [|i r IH]; intros poss H; simpl.
  - exists poss. split; [reflexivity | apply incl_refl].
  - simpl in H. destruct H as [Hi Hr].
    rewrite (pop_in_range poss i Hi). simpl.
    destruct (IH (remove_nth (Z.to_nat i) poss)) as [p [E Hp]].
    + apply desc_below_mono with (b := i); [exact Hr|].
      rewrite remove_nth_length; lia.
    + exists p. split; [exact E|].
      eapply incl_tran; [exact Hp | apply remove_nth_incl].
Qed.

(** [readMatchStartStop] on an object built by [__init__] raises nothing;
    a range it returns lies within the read. *)
Lemma readMatchStartStop_spec (c : cigar.t) :
  well_built c ->
  exists r, cigar.readMatchStartStop c = Ok r
    /\ match r with
       | None => True
       | Some (lo, hi) =>
           exists L, cigar.readLength c = Some L
                     /\ 1 <= lo /\ lo <= hi /\ hi <= L
       end.
Proof.
  unfold well_built, cigar.readMatchStartStop.
  destruct (cigar.parts c) as [ps|].
  - intros [Hps [-> _]].
    destruct (walk_fold ps Hps (0, [])) as [H1 H2];
      [simpl; lia | exact I |].
    simpl in H1.
    set (L := cigar.cigar__readLength ps) in *.
    assert (HL : 0 <= L) by (apply sum_parts_nonneg; exact Hps).
    destruct (pop_all_ok
                (rev (snd (fold_left cigar.walk ps (0, []))))
                (map (fun i => i + 1) (range L))) as [p [E Hp]].
    { rewrite length_map, range_length, Z2Nat.id by exact HL.
      rewrite <- H1. exact H2. }
    rewrite E. simpl. destruct p as [|x xs].
    + exists None. now split.
    + exists (Some (list_min x xs, list_max x xs)).
      split; [reflexivity|]. exists L. split; [reflexivity|].
      assert (B : forall y, In y (x :: xs) -> 1 <= y <= L).
      { intros y Hy. apply Hp in Hy. apply in_map_iff in Hy.
        destruct Hy as [k [<- Hk]]. apply in_range in Hk. lia. }
      pose proof (B _ (list_min_in xs x)).
      pose proof (B _ (list_max_in xs x)).
      pose proof (list_min_le xs x). pose proof (list_max_ge xs x).
      lia.
  - intros [-> _]. exists None. now split.
Qed.

End Cigar.

(** ** The bridge evaluator *)

Section Bridges.

Lemma land_16_ne_1 (x : Z) : (Z.land x 0x10 =? 1) = false.
Proof.
  apply Z.eqb_neq. intros H.
  assert (E : Z.testbit (Z.land x 0x10) 0 = Z.testbit 1 0)
    by now rewrite H.
  rewrite Z.land_spec in E.
  change (Z.testbit 0x10 0) with false in E.
  change (Z.testbit 1 0) with true in E.
  rewrite andb_false_r in E. discriminate.
Qed.

(** [sameReadReverse] compares a masked flag, 0 or 16, with 1. *)
Lemma sameReadReverse_never (a b : sam_entry.t) :
  sameReadReverse a b = false.
Proof.
  unfold sameReadReverse. rewrite land_16_ne_1. apply andb_false_r.
Qed.

Lemma match_length_shape (s g : string) :
  Re.match_length s = Some g ->
  exists d ds, g = String d ds /\ all_digits g = true.
Proof.
  unfold Re.match_length.
  destruct (Re.strip_prefix "_length_" s) as [r|]; [|discriminate].
  pose proof (span_digits_digits r) as H.
  destruct (Re.span_digits r) as [ds t]. simpl in H.
  destruct ds as [|d ds]; [discriminate|].
  destruct t as [|c t]; [discriminate|].
  destruct (Ascii.eqb c "_"); [|discriminate].
  intros E. injection E as <-. eauto.
Qed.

Lemma search_length_shape (s g : string) :
  Re.search_length s = Some g ->
  exists d ds, g = String d ds /\ all_digits g = true.
Proof.
  induction s as [|c r IH]; cbn [Re.search_length].
  - destruct (Re.match_length "") eqn:E; [|discriminate].
    intros H. injection H as <-. exact (match_length_shape _ _ E).
  - destruct (Re.match_length (String c r)) eqn:E; [|exact IH].
    intros H. injection H as <-. exact (match_length_shape _ _ E).
Qed.

(** [lenFromContigName] raises a [ValueError] or nothing. *)
Lemma lenFromContigName_raises (s : string) (e : exn) :
  lenFromContigName s = Raise e -> e = ValueError.
Proof.
  unfold lenFromContigName.
  destruct (Re.search_length s) as [g|]; [|discriminate].
  destruct (int g) as [n|e'] eqn:E; cbn [bind]; [discriminate|].
  intros H. injection H as <-. exact (int_raises _ _ E).
Qed.

Lemma strip_prefix_runs (p s r : string) :
  Re.strip_prefix p s = Some r ->
  digit_runs_ok s = true -> digit_runs_ok r = true.
Proof.
  revert s. induction p as [|c p IH]; intros s; cbn [Re.strip_prefix].
  - intros E. injection E as <-. tauto.
  - destruct s as [|d s']; [discriminate|].
    destruct (Ascii.eqb c d); [|discriminate].
    intros E H. exact (IH s' E (digit_runs_tail _ _ H)).
Qed.

Lemma match_length_runs (s g : string) :
  Re.match_length s = Some g ->
  digit_runs_ok s = true ->
  Z.of_nat (String.length g) <= max_str_digits.
Proof.
  unfold Re.match_length.
  destruct (Re.strip_prefix "_length_" s) as [r|] eqn:Ep; [|discriminate].
  intros E H.
  pose proof (digit_runs_head r (strip_prefix_runs _ _ _ Ep H)) as H1.
  destruct (Re.span_digits r) as [ds t]. cbn [fst] in H1.
  destruct ds as [|d ds]; [discriminate|].
  destruct t as [|c t]; [discriminate|].
  destruct (Ascii.eqb c "_"); [|discriminate].
  injection E as <-. exact H1.
Qed.

Lemma search_length_runs (s g : string) :
  Re.search_length s = Some g ->
  digit_runs_ok s = true ->
  Z.of_nat (String.length g) <= max_str_digits.
Proof.
  induction s as [|c r IH]; cbn [Re.search_length].
  - destruct (Re.match_length "") eqn:E; [|discriminate].
    intros H. injection H as <-. exact (match_length_runs _ _ E).
  - destruct (Re.match_length (String c r)) eqn:E.
    + intros H. injection H as <-. exact (match_length_runs _ _ E).
    + intros H Hr. exact (IH H (digit_runs_tail _ _ Hr)).
Qed.

(** [lenFromContigName] raises nothing for a name without a run of
    digits beyond the limit. *)
Lemma lenFromContigName_short (s : string) :
  digit_runs_ok s = true -> exists T, lenFromContigName s = Ok T.
Proof.
  intros H. unfold lenFromContigName.
  destruct (Re.search_length s) as [g|] eqn:E; [|eauto].
  destruct (search_length_shape _ _ E) as [d [ds [-> Hd]]].
  destruct (int_digits d ds Hd (search_length_runs _ _ E H))
    as [v [-> _]].
  cbn [bind]. eauto.
Qed.

(** A mapped first operand is enough for [pairedReads] to answer
    [False]: its test of the unmapped bit asks for the bit to be set. *)
Lemma pairedReads_mapped (a b : sam_entry.t) :
  Z.land (flag a) 0x4 = 0 -> pairedReads a b = Ok NotPaired.
Proof.
  intros H. unfold pairedReads. rewrite H.
  change (negb (0 =? 0)) with false. rewrite andb_false_r. reflexivity.
Qed.

(** [pairedReads] never answers with a label. *)
Lemma pairedReads_no_label (a b : sam_entry.t) :
  pairedReads a b = Ok NotPaired \/ pairedReads a b = Raise AttributeError.
Proof.
  unfold pairedReads.
  destruct (negb (Z.land (flag a) 1 =? 0) && negb (Z.land (flag b) 1 =? 0)
            && negb (Z.land (flag a) 4 =? 0)); [right | left]; reflexivity.
Qed.

(** A CIGAR of [*], or one whose read is clipped entirely, makes
    [singleReadSegmentBridges] answer [False]. *)
Lemma single_no_range (a b : sam_entry.t) (T : option Z)
  (ca cb : cigar.t) :
  lenFromContigName (rname a) = Ok T ->
  cigar.init (cigar a) = Ok ca ->
  cigar.init (cigar b) = Ok cb ->
  cigar.readMatchStartStop ca = Ok None
  \/ cigar.readMatchStartStop cb = Ok None ->
  singleReadSegmentBridges a b = Ok false.
Proof.
  intros HT Ea Eb H. unfold singleReadSegmentBridges.
  rewrite sameReadReverse_never.
  destruct (sameReadForward a b); [|reflexivity].
  destruct (negb (rname a =? rname b)%string); [reflexivity|].
  rewrite HT, Ea, Eb. cbn [bind].
  destruct (readMatchStartStop_spec ca (proj1 (cigar_init_ok _ _ Ea)))
    as [ra [Era _]].
  destruct (readMatchStartStop_spec cb (proj1 (cigar_init_ok _ _ Eb)))
    as [rb [Erb _]].
  rewrite Era. cbn [bind].
  destruct ra as [[a0 a1]|]; [|reflexivity].
  rewrite Erb. cbn [bind].
  destruct rb as [[b0 b1]|]; [|reflexivity].
  destruct H as [Hc|Hc]; congruence.
Qed.

(** [pairedReadBridge] returns [True] for no pair at all. *)
Lemma pairedReadBridge_never_true (a b : sam_entry.t) (maxInsertSize : Z) :
  pairedReadBridge a b maxInsertSize <> Ok (Some true).
Proof.
  unfold pairedReadBridge.
  destruct (negb (rname a =? rname b)%string); [discriminate|].
  destruct (lenFromContigName (rname a)); [|discriminate].
  destruct (cigar.init (cigar a)); [|discriminate].
  destruct (cigar.init (cigar b)); [|discriminate].
  cbn [bind].
  destruct (match_span _); [|discriminate].
  destruct (match_span _); [|discriminate].
  cbn [bind].
  destruct (pairedReads_no_label a b) as [-> | ->]; discriminate.
Qed.

(** C1, at two pairs the script can receive.  A mapped read and its
    unmapped mate, which has no CIGAR: [pairedReadBridge] subscripts the
    [None] of [readMatchStartStop] and raises [TypeError], where
    [singleReadSegmentBridges] tests for [None] first and answers [False].
    Two forward alignments across the origin of a contig whose name has
    no length: [singleReadSegmentBridges] subtracts from [None] and raises
    [TypeError].  The claim asks for a verdict of no bridge and no
    exception in both. *)
Theorem C1_missing_data_raises :
  sam_entry.cigar Examples.half2 = "*"
  /\ pairedReadBridge Examples.half1 Examples.half2 500 = Raise TypeError
  /\ singleReadSegmentBridges Examples.half1 Examples.half2 = Ok false
  /\ lenFromContigName (rname Examples.nolen_a) = Ok None
  /\ singleReadSegmentBridges Examples.nolen_a Examples.nolen_b
     = Raise TypeError.
Proof. repeat split; vm_compute; reflexivity. Qed.

(** C2, at a properly mapped pair (flags 99 and 147): both records are
    mapped and paired, the first is first-in-pair and the second is
    second-in-pair, and [pairedReads] answers [False], not ['R1R2']. *)
Theorem C2_mapped_pair_unlabelled :
  Z.land (flag Examples.mate1) 0x4 = 0
  /\ Z.land (flag Examples.mate2) 0x4 = 0
  /\ Z.land (flag Examples.mate1) 0x1 <> 0
  /\ Z.land (flag Examples.mate2) 0x1 <> 0
  /\ Z.land (flag Examples.mate1) 0x40 <> 0
  /\ Z.land (flag Examples.mate2) 0x80 <> 0
  /\ pairedReads Examples.mate1 Examples.mate2 = Ok NotPaired
  /\ pairedReadBridge Examples.mate1 Examples.mate2 500 = Ok (Some false).
Proof. repeat split; vm_compute; congruence. Qed.

(** C3, at two reverse-strand alignments of one read across the origin:
    every premise of the claim holds (the matched ranges are (1, 50) and
    (51, 100), 1 + 50 < 990, and 1000 - 990 + 1 + 50 = 61 <= 100), and
    [singleReadSegmentBridges] answers [False]. *)
Theorem C3_reverse_pair_rejected :
  let a := Examples.rev_a in
  let b := Examples.rev_b in
  Z.land (flag a) 0x4 = 0 /\ Z.land (flag b) 0x4 = 0
  /\ rname a = rname b
  /\ Z.land (flag a) 0x40 = Z.land (flag b) 0x40
  /\ Z.land (flag a) 0x10 <> 0 /\ Z.land (flag b) 0x10 <> 0
  /\ lenFromContigName (rname a) = Ok (Some 1000)
  /\ (exists ca cb,
        cigar.init (cigar a) = Ok ca /\ cigar.init (cigar b) = Ok cb
        /\ cigar.readMatchStartStop ca = Ok (Some (1, 50))
        /\ cigar.readMatchStartStop cb = Ok (Some (51, 100))
        /\ cigar.alnLength ca = Some 50
        /\ cigar.readLength ca = Some 100
        /\ pos a + 50 < pos b
        /\ 1000 - pos b + pos a + 50 <= 100)
  /\ singleReadSegmentBridges a b = Ok false.
Proof.
  cbv zeta. repeat split; try (vm_compute; congruence).
  eexists. eexists.
  split; [vm_compute; reflexivity|].
  split; [vm_compute; reflexivity|].
  repeat split; vm_compute; congruence.
Qed.

(** C4: two forward-strand mapped records on a contig of length 1000,
    at positions 950 and 10, the second with alignment length 40, with
    matched read ranges (1, 60) and (61, 100) and read length 100, for
    which [singleReadSegmentBridges] answers [True]. *)
Theorem C4_forward_wrap_example :
  exists a b ca cb,
    Z.land (flag a) 0x4 = 0 /\ Z.land (flag b) 0x4 = 0
    /\ Z.land (flag a) 0x10 = 0 /\ Z.land (flag b) 0x10 = 0
    /\ rname a = rname b
    /\ lenFromContigName (rname a) = Ok (Some 1000)
    /\ pos a = 950 /\ pos b = 10
    /\ cigar.init (cigar a) = Ok ca /\ cigar.init (cigar b) = Ok cb
    /\ cigar.alnLength cb = Some 40
    /\ cigar.readLength ca = Some 100
    /\ cigar.readMatchStartStop ca = Ok (Some (1, 60))
    /\ cigar.readMatchStartStop cb = Ok (Some (61, 100))
    /\ 1000 - 950 + 10 + 40 <= 100
    /\ sam_entry.init Examples.fwd_a_line = Ok a
    /\ singleReadSegmentBridges a b = Ok true.
Proof.
  exists Examples.fwd_a, Examples.fwd_b. eexists. eexists.
  repeat split; try (vm_compute; congruence).
Qed.

(** C5: for the CIGAR [*] the read length, the alignment length and the
    result of [readMatchStartStop] are all [None]. *)
Theorem C5_star_is_absent :
  exists c,
    cigar.init "*" = Ok c
    /\ cigar.readLength c = None
    /\ cigar.alnLength c = None
    /\ cigar.readMatchStartStop c = Ok None.
Proof. eexists. repeat split. Qed.

(** C7: a line that is not a header and has fewer than 11 tab-separated
    fields, or whose flag, position, mapping quality, mate position or
    template length is not an integer, makes [sam_entry.__init__] raise:
    the assertion fails in the first case, [int] raises [ValueError] in
    the second.  No record is built. *)
Theorem C7_malformed_line_raises (line : string) :
  startswith "@" line = false ->
  (List.length (split_tab (rstrip_nl line)) < 11)%nat
  \/ (exists i field,
        In i [1; 3; 4; 7; 8]%nat
        /\ nth_error (split_tab (rstrip_nl line)) i = Some field
        /\ int field = Raise ValueError) ->
  sam_entry.init line
  = Raise (if (List.length (split_tab (rstrip_nl line)) <? 11)%nat
           then AssertionError else ValueError).
Proof.
  intros Hh Hbad. unfold sam_entry.init. rewrite Hh.
  destruct (List.length (split_tab (rstrip_nl line)) <? 11)%nat eqn:E;
    [reflexivity|].
  apply Nat.ltb_ge in E.
  destruct Hbad as [Hlt | [i [f [Hi [Hn Hf]]]]]; [lia|].
  destruct (split_tab (rstrip_nl line))
    as [|c0 [|c1 [|c2 [|c3 [|c4 [|c5 [|c6 [|c7 [|c8 [|c9 [|c10 rest]]]]]]]]]]];
    simpl in E; try lia.
  unfold getitem. cbn [nth_error bind].
  assert (Hc : int c1 = Raise ValueError \/ int c3 = Raise ValueError
               \/ int c4 = Raise ValueError \/ int c7 = Raise ValueError
               \/ int c8 = Raise ValueError).
  { simpl in Hi.
    destruct Hi as [<-|[<-|[<-|[<-|[<-|[]]]]]]; simpl in Hn;
      injection Hn as ->; tauto. }
  destruct (int c1) as [z1|e1] eqn:E1;
    [|apply int_raises in E1; now subst].
  destruct (int c3) as [z3|e3] eqn:E3;
    [|apply int_raises in E3; now subst].
  destruct (int c4) as [z4|e4] eqn:E4;
    [|apply int_raises in E4; now subst].
  destruct (int c7) as [z7|e7] eqn:E7;
    [|apply int_raises in E7; now subst].
  destruct (int c8) as [z8|e8] eqn:E8;
    [|apply int_raises in E8; now subst].
  destruct Hc as [H|[H|[H|[H|H]]]]; discriminate H.
Qed.

(** A line with eleven fields whose position is [95x]: [int] raises. *)
Lemma bad_pos_line_raises :
  sam_entry.init Examples.bad_pos_line = Raise ValueError.
Proof. vm_compute. reflexivity. Qed.

(** A line with nine fields: the assertion fails. *)
Lemma C7_witness_short :
  sam_entry.init Examples.short_line = Raise AssertionError.
Proof.
  apply (C7_malformed_line_raises Examples.short_line).
  - reflexivity.
  - left. vm_compute. lia.
Defined.

(** C8: whenever [readMatchStartStop] returns a range for the object
    parsed from a CIGAR string, the read length is at least the span
    [max - min + 1] of that range.  The string need not consist of valid
    tokens only: what is not a token is skipped by the scan. *)
Theorem C8_read_length_covers_range (s : string) (c : cigar.t)
  (lo hi : Z) :
  cigar.init s = Ok c ->
  cigar.readMatchStartStop c = Ok (Some (lo, hi)) ->
  exists L, cigar.readLength c = Some L /\ L >= hi - lo + 1.
Proof.
  intros Hc Hr.
  destruct (readMatchStartStop_spec c (proj1 (cigar_init_ok s c Hc)))
    as [r [Er H]].
  rewrite Hr in Er. injection Er as <-.
  destruct H as [L [HL [H1 [H2 H3]]]].
  exists L. split; [exact HL | lia].
Qed.

Lemma C8_witness :
  exists c L,
    cigar.init "3S4M2D5I1S7H" = Ok c
    /\ cigar.readMatchStartStop c = Ok (Some (4, 12))
    /\ cigar.readLength c = Some L /\ L >= 12 - 4 + 1.
Proof.
  eexists.
  destruct (C8_read_length_covers_range "3S4M2D5I1S7H" _ 4 12
              eq_refl eq_refl) as [L HL].
  exists L. split; [reflexivity|]. split; [reflexivity | exact HL].
Defined.

(** C9: when the first record's paired bit 0x1 is unset,
    [pairedReadBridge] does not return [True], whatever the positions,
    CIGARs, strands and reference names. *)
Theorem C9_unpaired_never_bridges (a b : sam_entry.t) (maxInsertSize : Z) :
  Z.land (flag a) 0x1 = 0 ->
  pairedReadBridge a b maxInsertSize <> Ok (Some true).
Proof.
  intros H. assert (E : pairedReads a b = Ok NotPaired).
  { unfold pairedReads. rewrite H. reflexivity. }
  unfold pairedReadBridge.
  destruct (negb (rname a =? rname b)%string); [discriminate|].
  destruct (lenFromContigName (rname a)); [|discriminate].
  destruct (cigar.init (cigar a)); [|discriminate].
  destruct (cigar.init (cigar b)); [|discriminate].
  cbn [bind].
  destruct (match_span _); [|discriminate].
  destruct (match_span _); [|discriminate].
  cbn [bind]. rewrite E. discriminate.
Qed.

Lemma C9_witness :
  Z.land (flag Examples.solo1) 0x1 = 0
  /\ pairedReadBridge Examples.solo1 Examples.solo2 500 <> Ok (Some true).
Proof.
  split; [reflexivity|].
  apply (C9_unpaired_never_bridges Examples.solo1 Examples.solo2 500).
  reflexivity.
Defined.

(** The driver evaluates the diagonal pair [(i, i)] of every member of a
    group but the last. *)
Lemma driver_pairs_diagonal (n i : nat) :
  In (i, i) (driver_pairs n) <-> (i + 1 < n)%nat.
Proof.
  unfold driver_pairs. rewrite in_flat_map. split.
  - intros [k [Hk Hi]]. apply in_seq in Hk. apply in_map_iff in Hi.
    destruct Hi as [j [E Hj]]. injection E as -> ->. lia.
  - intros H. exists i. split; [apply in_seq; lia|].
    apply in_map_iff. exists i. split; [reflexivity|].
    apply in_seq. lia.
Qed.

(** A record paired with itself: [False], or the [ValueError] of a
    number that [int] refuses. *)
Lemma single_self (a : sam_entry.t) :
  singleReadSegmentBridges a a = Ok false
  \/ (singleReadSegmentBridges a a = Raise ValueError
      /\ (lenFromContigName (rname a) = Raise ValueError
          \/ cigar.init (cigar a) = Raise ValueError)).
Proof.
  unfold singleReadSegmentBridges. rewrite sameReadReverse_never.
  destruct (sameReadForward a a); [|now left].
  rewrite String.eqb_refl. cbn [negb].
  destruct (lenFromContigName (rname a)) as [t|e] eqn:Et; cbn [bind].
  2:{ right. rewrite (lenFromContigName_raises _ _ Et). auto. }
  destruct (cigar.init (cigar a)) as [c|e] eqn:Ec; cbn [bind].
  2:{ right. rewrite (cigar_init_raises _ _ Ec). auto. }
  left.
  destruct (readMatchStartStop_spec c (proj1 (cigar_init_ok _ _ Ec)))
    as [r [Er Hr]].
  rewrite Er. cbn [bind].
  destruct r as [[lo hi]|]; [|reflexivity].
  destruct Hr as [L [_ [_ [Hle _]]]].
  assert (E : (hi <? lo) = false) by (apply Z.ltb_ge; exact Hle).
  unfold bridge_case. rewrite E. reflexivity.
Qed.

(** C10, as the code has it.  [singleReadSegmentBridges a a] never
    returns [True]: it returns [False], or raises the [ValueError] of
    [int] when the length in the reference name or a length in the CIGAR
    has more digits than the interpreter converts.  For a record whose
    reference name and CIGAR hold no such run of digits it returns
    [False]: the matched range of a record never ends before it starts.
    The driver evaluates the diagonal pair [(i, i)] for every member of a
    group but the last. *)
Theorem C10_self_pair_no_bridge (a : sam_entry.t) :
  (singleReadSegmentBridges a a = Ok false
   \/ singleReadSegmentBridges a a = Raise ValueError)
  /\ (digit_runs_ok (rname a) = true ->
      digit_runs_ok (cigar a) = true ->
      singleReadSegmentBridges a a = Ok false)
  /\ (forall n i : nat, In (i, i) (driver_pairs n) <-> (i + 1 < n)%nat).
Proof.
  split; [|split].
  - destruct (single_self a) as [H|[H _]]; auto.
  - intros Hr Hc.
    destruct (lenFromContigName_short _ Hr) as [T HT].
    destruct (cigar_init_short _ Hc) as [c Ec].
    destruct (single_self a) as [H|[_ [H|H]]]; [exact H | |];
      congruence.
  - exact driver_pairs_diagonal.
Qed.

Lemma C10_witness :
  singleReadSegmentBridges Examples.fwd_a Examples.fwd_a = Ok false.
Proof.
  apply (proj1 (proj2 (C10_self_pair_no_bridge Examples.fwd_a)));
    reflexivity.
Defined.

(** C10 as it was claimed fails twice.  A forward alignment on a
    reference whose name holds a length of 4301 digits: paired with
    itself it raises [ValueError], it does not return [False].  And the
    driver does not evaluate the diagonal pair of the last member of a
    group: not [(1, 1)] in a group of two, and nothing in a group of
    one. *)
Lemma C10_counterexample :
  singleReadSegmentBridges Files.long_a Files.long_a = Raise ValueError
  /\ ~ In (1, 1)%nat (driver_pairs 2)
  /\ driver_pairs 1 = [].
Proof.
  split; [vm_compute; reflexivity|]. split; [|reflexivity].
  intros H. apply driver_pairs_diagonal in H. lia.
Qed.

End Bridges.

(** ** The read-group stream *)

Section Stream.

Import sam_per_read.

Lemma str_drop_empty (n : nat) : str_drop n EmptyString = EmptyString.
Proof. destruct n; reflexivity. Qed.

Lemma str_drop_add (n m : nat) (s : string) :
  str_drop (n + m) s = str_drop m (str_drop n s).
Proof.
  revert s. induction n as [|n IH]; intros s; [reflexivity|].
  destruct s as [|c r]; simpl; [now rewrite str_drop_empty | apply IH].
Qed.

Lemma str_drop_app (x r : string) :
  str_drop (String.length x) (x ++ r)%string = r.
Proof. induction x as [|c x IH]; simpl; [reflexivity | exact IH]. Qed.

Lemma str_drop_all (x : string) :
  str_drop (String.length x) x = EmptyString.
Proof. induction x as [|c x IH]; simpl; [reflexivity | exact IH]. Qed.

Lemma append_empty (x : string) : (x ++ EmptyString)%string = x.
Proof. induction x as [|c x IH]; simpl; [reflexivity | now rewrite IH]. Qed.

Lemma append_snoc (l r : string) (c : ascii) :
  ((l ++ String c EmptyString) ++ r)%string = (l ++ String c r)%string.
Proof. induction l as [|d l IH]; simpl; [reflexivity | now rewrite IH]. Qed.

Lemma append_assoc (x y z : string) :
  ((x ++ y) ++ z)%string = (x ++ (y ++ z))%string.
Proof. induction x as [|c x IH]; simpl; [reflexivity | now rewrite IH]. Qed.

Lemma take_line_line (l r : string) :
  no_newline l = true ->
  take_line (l ++ String newline r)
  = (l ++ String newline EmptyString)%string.
Proof.
  induction l as [|c l IH]; simpl; intros H.
  - reflexivity.
  - apply andb_prop in H. destruct H as [Hc Hl].
    apply negb_true_iff in Hc. rewrite Hc. now rewrite (IH Hl).
Qed.

Lemma take_line_last (l : string) : no_newline l = true -> take_line l = l.
Proof.
  induction l as [|c l IH]; simpl; intros H.
  - reflexivity.
  - apply andb_prop in H. destruct H as [Hc Hl].
    apply negb_true_iff in Hc. rewrite Hc. now rewrite (IH Hl).
Qed.

Lemma rstrip_nl_line (l : string) :
  no_newline l = true ->
  rstrip_nl (l ++ String newline EmptyString) = l.
Proof.
  unfold rstrip_nl. induction l as [|c l IH]; simpl; intros H.
  - reflexivity.
  - apply andb_prop in H. destruct H as [Hc Hl].
    apply negb_true_iff in Hc. rewrite (IH Hl), Hc.
    destruct l; reflexivity.
Qed.

Lemma rstrip_nl_last (l : string) : no_newline l = true -> rstrip_nl l = l.
Proof.
  unfold rstrip_nl. induction l as [|c l IH]; simpl; intros H.
  - reflexivity.
  - apply andb_prop in H. destruct H as [Hc Hl].
    apply negb_true_iff in Hc. rewrite (IH Hl), Hc.
    destruct l; reflexivity.
Qed.

(** Reading a line that ends with a newline: the fields of the line, and
    the handle behind the newline. *)
Lemma read_fields_line (txt l r : string) (p c : nat) :
  str_drop p txt = (l ++ String newline r)%string ->
  no_newline l = true ->
  exists q, read_fields (mk txt p c) = (split_tab l, mk txt q c)
            /\ str_drop q txt = r.
Proof.
  intros H Hl. unfold read_fields, readline. cbn [content fileh cursor_pos].
  rewrite H, (take_line_line l r Hl), (rstrip_nl_line l Hl).
  eexists. split; [reflexivity|].
  rewrite str_drop_add, H, <- (append_snoc l r newline).
  apply str_drop_app.
Qed.

(** Reading what is left of the file when it holds no newline: the
    fields of this text, and the handle at the end of the file. *)
Lemma read_fields_last (txt l : string) (p c : nat) :
  str_drop p txt = l ->
  no_newline l = true ->
  exists q, read_fields (mk txt p c) = (split_tab l, mk txt q c)
            /\ str_drop q txt = EmptyString.
Proof.
  intros H Hl. unfold read_fields, readline. cbn [content fileh cursor_pos].
  rewrite H, (take_line_last l Hl), (rstrip_nl_last l Hl).
  eexists. split; [reflexivity|].
  rewrite str_drop_add, H. apply str_drop_all.
Qed.

(** Reading at the end of the file: one empty field, the handle stays. *)
Lemma read_fields_eof (txt : string) (p c : nat) :
  str_drop p txt = EmptyString ->
  read_fields (mk txt p c) = ([EmptyString], mk txt p c).
Proof.
  intros H. unfold read_fields, readline. cbn [content fileh cursor_pos].
  rewrite H. simpl. now rewrite Nat.add_0_r.
Qed.

(** Reading the line in front of what differs from [nm]. *)
Lemma read_fields_differs (nm txt rest : string) (p c : nat) :
  rest_differs nm rest ->
  str_drop p txt = rest ->
  exists fields q,
    read_fields (mk txt p c) = (fields, mk txt q c)
    /\ first_field fields <> nm.
Proof.
  intros [l [e [-> [He [Hl Hd]]]]] Hp.
  destruct He as [->|[r ->]].
  - rewrite append_empty in Hp.
    destruct (read_fields_last txt l p c Hp Hl) as [q [E _]]. eauto.
  - destruct (read_fields_line txt l r p c Hp Hl) as [q [E _]]. eauto.
Qed.

(** Reading the first of the lines of a text. *)
Lemma read_first_line (txt rest l : string) (ls : list string)
  (last_nl : bool) (p c : nat) :
  (last_nl = false -> rest = EmptyString) ->
  no_newline l = true ->
  str_drop p txt = (text_of last_nl (l :: ls) ++ rest)%string ->
  exists q, read_fields (mk txt p c) = (split_tab l, mk txt q c)
            /\ str_drop q txt = (text_of last_nl ls ++ rest)%string.
Proof.
  intros Hnl Hl Hp. cbn [text_of] in Hp. destruct ls as [|l2 ls].
  - destruct last_nl.
    + rewrite append_snoc in Hp.
      exact (read_fields_line txt l rest p c Hp Hl).
    + rewrite (Hnl eq_refl), append_empty in Hp. rewrite (Hnl eq_refl).
      exact (read_fields_last txt l p c Hp Hl).
  - rewrite <- (append_snoc l _ newline), append_assoc in Hp.
    rewrite append_snoc in Hp.
    exact (read_fields_line txt l _ p c Hp Hl).
Qed.

Lemma first_line_app (cur : list (list string)) (x : list string) :
  cur <> [] -> first_line (cur ++ [x]) = first_line cur.
Proof. destruct cur; [congruence | reflexivity]. Qed.

(** The loop of [next] takes the lines of the current name and stops in
    front of what follows them. *)
Lemma next_loop_spec (nm txt rest : string) (ls : list string)
  (last_nl : bool) :
  forallb (line_named nm) ls = true ->
  rest_differs nm rest ->
  (last_nl = false -> rest = EmptyString) ->
  forall (fuel : nat) (cur : list (list string)) (p : nat),
    cur <> [] -> first_field (first_line cur) = nm ->
    str_drop p txt = (text_of last_nl ls ++ rest)%string ->
    (List.length ls < fuel)%nat ->
    exists q, next_loop fuel cur (mk txt p p)
              = Some (cur ++ map split_tab ls, mk txt q q)
              /\ str_drop q txt = rest.
Proof.
  intros Hls Hrest Hnl. induction ls as [|l ls IH];
    intros fuel cur p Hcur Hnm Hp Hfuel;
    (destruct fuel as [|f]; [simpl in Hfuel; lia|]); cbn [next_loop].
  - simpl in Hp. rewrite app_nil_r.
    destruct (read_fields_differs nm txt rest p p Hrest Hp)
      as [fields [q [-> Hd]]].
    rewrite Hnm.
    assert (E : (first_field fields =? nm)%string = false)
      by now apply String.eqb_neq.
    rewrite E. exists p. now split.
  - cbn [forallb] in Hls. apply andb_prop in Hls.
    destruct Hls as [Hl Hls]. unfold line_named in Hl.
    apply andb_prop in Hl. destruct Hl as [Hno Hname].
    destruct (read_first_line txt rest l ls last_nl p p Hnl Hno Hp)
      as [q [E Hq]].
    rewrite E, Hnm, Hname. unfold seek. cbn [content fileh cursor_pos].
    rewrite E.
    unfold set_cursor_pos, tell. cbn [content fileh cursor_pos].
    destruct (IH Hls f (cur ++ [split_tab l]) q) as [q2 [E2 Hq2]].
    + destruct cur; discriminate.
    + now rewrite first_line_app.
    + exact Hq.
    + simpl in Hfuel. lia.
    + rewrite E2. exists q2. split; [|exact Hq2].
      now rewrite <- app_assoc.
Qed.

Lemma fields_eqb_named (fields : list string) (nm : string) :
  first_field fields = nm -> nm <> EmptyString ->
  fields_eqb fields [EmptyString] = false.
Proof.
  intros H Hne. unfold fields_eqb.
  destruct (list_eq_dec string_dec fields [EmptyString]) as [->|];
    [|reflexivity].
  simpl in H. congruence.
Qed.

(** [next] in front of a block returns the block as one group. *)
Lemma next_block (nm txt rest l : string) (ls : list string)
  (last_nl : bool) (p fuel : nat) :
  nm <> EmptyString ->
  forallb (line_named nm) (l :: ls) = true ->
  rest_differs nm rest ->
  (last_nl = false -> rest = EmptyString) ->
  str_drop p txt = (text_of last_nl (l :: ls) ++ rest)%string ->
  (List.length ls < fuel)%nat ->
  exists q, next fuel (mk txt p p)
            = Some (Ok (map split_tab (l :: ls)), mk txt q q)
            /\ str_drop q txt = rest.
Proof.
  intros Hne Hall Hrest Hnl Hp Hfuel.
  cbn [forallb] in Hall. apply andb_prop in Hall.
  destruct Hall as [Hl Hls]. unfold line_named in Hl.
  apply andb_prop in Hl. destruct Hl as [Hno Hname].
  apply String.eqb_eq in Hname.
  unfold next.
  destruct (read_first_line txt rest l ls last_nl p p Hnl Hno Hp)
    as [q [-> Hq]].
  rewrite (fields_eqb_named _ nm Hname Hne).
  unfold set_cursor_pos, tell. cbn [content fileh cursor_pos].
  destruct (next_loop_spec nm txt rest ls last_nl Hls Hrest Hnl fuel
              [split_tab l] q) as [q2 [E2 Hq2]];
    [discriminate | exact Hname | exact Hq | exact Hfuel |].
  rewrite E2. exists q2. now split.
Qed.

(** [next] at the end of the file raises [StopIteration]. *)
Lemma next_eof (txt : string) (p fuel : nat) :
  str_drop p txt = EmptyString ->
  exists st, next fuel (mk txt p p) = Some (Raise StopIteration, st).
Proof.
  intros H. unfold next. rewrite (read_fields_eof txt p p H).
  simpl. eauto.
Qed.

(** A group whose name is the empty string is never completed when it
    ends the file: the empty field read at the end of the file equals
    the name, and the loop goes on. *)
Lemma next_loop_empty_name (txt : string) (p : nat) :
  str_drop p txt = EmptyString ->
  forall (fuel : nat) (cur : list (list string)),
    cur <> [] -> first_field (first_line cur) = EmptyString ->
    next_loop fuel cur (mk txt p p) = None.
Proof.
  intros H. induction fuel as [|f IH]; intros cur Hcur Hnm;
    [reflexivity|].
  cbn [next_loop]. rewrite (read_fields_eof txt p p H), Hnm.
  simpl String.eqb. cbv iota. unfold seek.
  cbn [content fileh cursor_pos].
  rewrite (read_fields_eof txt p p H).
  unfold set_cursor_pos, tell. cbn [content fileh cursor_pos].
  apply IH; [destruct cur; discriminate|].
  now rewrite first_line_app.
Qed.

Lemma block_ok_inv (nm : string) (ls : list string) :
  block_ok (nm, ls) = true ->
  nm <> EmptyString
  /\ exists l ls', ls = l :: ls'
                   /\ forallb (line_named nm) (l :: ls') = true.
Proof.
  unfold block_ok. cbn [fst snd]. intros H.
  apply andb_prop in H. destruct H as [H H3].
  apply andb_prop in H. destruct H as [H1 H2].
  split.
  - intros ->. discriminate.
  - destruct ls as [|l ls']; [discriminate|]. eauto.
Qed.

Lemma text_of_app (last_nl : bool) (xs ys : list string) :
  ys <> [] ->
  text_of last_nl (xs ++ ys)
  = (text_of true xs ++ text_of last_nl ys)%string.
Proof.
  intros Hys. induction xs as [|l xs IH]; [reflexivity|].
  cbn [app text_of]. destruct xs as [|l2 xs].
  - cbn [app]. destruct ys as [|y ys]; [congruence|].
    now rewrite append_snoc.
  - cbn [app] in *. rewrite IH, append_assoc. reflexivity.
Qed.

(** The lines of the blocks that follow a block named [nm] start with
    another name, or there are none. *)
Lemma blocks_rest_differs (nm : string) (last_nl : bool)
  (bs : list (string * list string)) :
  nm <> EmptyString ->
  forallb block_ok bs = true ->
  adjacent_distinct (nm :: map fst bs) = true ->
  rest_differs nm (text_of last_nl (List.concat (map snd bs))).
Proof.
  intros Hne Hbs Hadj. destruct bs as [|[nm' ls2] bs'].
  - exists EmptyString, EmptyString.
    split; [reflexivity|]. split; [now left|].
    split; [reflexivity|]. simpl. congruence.
  - cbn [forallb] in Hbs. apply andb_prop in Hbs.
    destruct Hbs as [Hb _].
    destruct (block_ok_inv _ _ Hb) as [_ [l2 [ls2' [-> Hall]]]].
    cbn [forallb] in Hall. apply andb_prop in Hall.
    destruct Hall as [Hl _]. unfold line_named in Hl.
    apply andb_prop in Hl. destruct Hl as [Hno Hname].
    apply String.eqb_eq in Hname.
    cbn [map fst adjacent_distinct] in Hadj.
    apply andb_prop in Hadj. destruct Hadj as [Hd _].
    apply negb_true_iff in Hd. apply String.eqb_neq in Hd.
    cbn [map snd List.concat app text_of].
    destruct (ls2' ++ List.concat (map snd bs')) as [|l3 tl].
    + destruct last_nl.
      * exists l2. eexists. split; [reflexivity|].
        split; [right; eauto|]. split; [exact Hno | congruence].
      * exists l2, EmptyString. rewrite append_empty.
        split; [reflexivity|].
        split; [now left|]. split; [exact Hno | congruence].
    + exists l2. eexists. split; [reflexivity|].
      split; [right; eauto|]. split; [exact Hno | congruence].
Qed.

Lemma adjacent_distinct_tail (nm : string) (names : list string) :
  adjacent_distinct (nm :: names) = true ->
  adjacent_distinct names = true.
Proof.
  cbn [adjacent_distinct]. destruct names; [reflexivity|].
  intros H. apply andb_prop in H. tauto.
Qed.

Lemma blocks_lines_nonempty (b : string * list string)
  (bs : list (string * list string)) :
  block_ok b = true -> List.concat (map snd (b :: bs)) <> [].
Proof.
  destruct b as [nm ls]. intros Hb.
  destruct (block_ok_inv _ _ Hb) as [_ [l [ls' [-> _]]]]. discriminate.
Qed.

(** The driver's loop over a file made of blocks receives one group per
    block, in the order of the blocks, and then stops. *)
Lemma read_groups_blocks (txt : string) (last_nl : bool)
  (blocks : list (string * list string)) :
  forallb block_ok blocks = true ->
  adjacent_distinct (map fst blocks) = true ->
  forall (p fuel : nat),
    str_drop p txt = text_of last_nl (List.concat (map snd blocks)) ->
    (List.length (List.concat (map snd blocks)) + List.length blocks
     < fuel)%nat ->
    read_groups fuel (mk txt p p) = Some (Ok (map group_of blocks)).
Proof.
  induction blocks as [|[nm ls] bs IH]; intros Hok Hadj p fuel Hp Hfuel;
    (destruct fuel as [|f]; [lia|]); cbn [read_groups].
  - destruct (next_eof txt p f Hp) as [st ->]. reflexivity.
  - cbn [forallb] in Hok. apply andb_prop in Hok.
    destruct Hok as [Hb Hbs].
    destruct (block_ok_inv _ _ Hb) as [Hne [l [ls' [-> Hall]]]].
    pose proof (blocks_rest_differs nm last_nl bs Hne Hbs Hadj) as Hrest.
    cbn [map snd List.concat] in Hp, Hfuel.
    rewrite length_app in Hfuel. cbn [List.length] in Hfuel.
    assert (Hnext : exists q,
               next f (mk txt p p)
               = Some (Ok (map split_tab (l :: ls')), mk txt q q)
               /\ str_drop q txt
                  = text_of last_nl (List.concat (map snd bs))).
    { destruct bs as [|b bs'].
      - cbn [map List.concat] in *. rewrite app_nil_r in Hp.
        apply (next_block nm txt EmptyString l ls' last_nl p f);
          [exact Hne | exact Hall | exact Hrest | reflexivity | | lia].
        now rewrite append_empty.
      - cbn [forallb] in Hbs. apply andb_prop in Hbs.
        destruct Hbs as [Hb' _].
        rewrite text_of_app in Hp
          by exact (blocks_lines_nonempty b bs' Hb').
        apply (next_block nm txt _ l ls' true p f);
          [exact Hne | exact Hall | exact Hrest | discriminate
          | exact Hp | lia]. }
    destruct Hnext as [q [-> Hq]].
    rewrite (IH Hbs (adjacent_distinct_tail _ _ Hadj) q f Hq);
      [reflexivity | lia].
Qed.

(** C6, for names that are not empty.  With enough fuel for the loops,
    the driver receives: no group from the empty file; from [n >= 1]
    lines that share a non-empty name, one group with the fields of the
    [n] lines; from consecutive blocks of lines with non-empty names,
    where neighbouring blocks have different names, one group per block
    in the order of the blocks.  A line has no newline of its own and is
    followed by one; the last line of the file may lack it. *)
Theorem C6_read_group_stream :
  (exists n, forall fuel, (n <= fuel)%nat ->
     read_groups fuel (init EmptyString) = Some (Ok []))
  /\ (forall (nm : string) (ls : list string) (last_nl : bool),
        block_ok (nm, ls) = true ->
        exists n, forall fuel, (n <= fuel)%nat ->
          exists g, read_groups fuel (init (text_of last_nl ls))
                    = Some (Ok [g])
                    /\ g = map split_tab ls
                    /\ List.length g = List.length ls)
  /\ (forall (blocks : list (string * list string)) (last_nl : bool),
        forallb block_ok blocks = true ->
        adjacent_distinct (map fst blocks) = true ->
        exists n, forall fuel, (n <= fuel)%nat ->
          read_groups fuel
            (init (text_of last_nl (List.concat (map snd blocks))))
          = Some (Ok (map group_of blocks))).
Proof.
  assert (G : forall (blocks : list (string * list string))
                (last_nl : bool),
            forallb block_ok blocks = true ->
            adjacent_distinct (map fst blocks) = true ->
            exists n, forall fuel, (n <= fuel)%nat ->
              read_groups fuel
                (init (text_of last_nl (List.concat (map snd blocks))))
              = Some (Ok (map group_of blocks))).
  { intros blocks last_nl Hok Hadj.
    exists (S (List.length (List.concat (map snd blocks))
               + List.length blocks)).
    intros fuel Hfuel. unfold init.
    apply (read_groups_blocks _ last_nl);
      [exact Hok | exact Hadj | reflexivity | lia]. }
  split; [|split].
  - destruct (G [] true eq_refl eq_refl) as [n Hn]. exists n. exact Hn.
  - intros nm ls last_nl Hb.
    destruct (G [(nm, ls)] last_nl) as [n Hn].
    + cbn [forallb]. now rewrite Hb.
    + reflexivity.
    + exists n. intros fuel Hfuel. exists (map split_tab ls).
      specialize (Hn fuel Hfuel).
      cbn [map snd List.concat] in Hn. rewrite app_nil_r in Hn.
      split; [exact Hn|]. split; [reflexivity | apply length_map].
  - exact G.
Qed.

Lemma C6_witness :
  exists n, forall fuel, (n <= fuel)%nat ->
    read_groups fuel
      (init (text_of true (List.concat (map snd Examples.blocks))))
    = Some (Ok (map group_of Examples.blocks)).
Proof.
  destruct C6_read_group_stream as [_ [_ H]].
  apply (H Examples.blocks true); reflexivity.
Defined.

End Stream.

(** ** The matched read range, exactly *)

Section CigarRange.

Lemma desc_below_all (b : Z) (l : list Z) :
  desc_below b l -> forall x, In x l -> 0 <= x < b.
Proof.
  revert b. induction l as [|y r IH]; intros b H x Hx; [destruct Hx|].
  simpl in H. destruct H as [Hy Hr]. destruct Hx as [<-|Hx]; [exact Hy|].
  specialize (IH y Hr x Hx). lia.
Qed.

Lemma iter_clip_in (m : nat) (st : Z * list Z) (k : Z) :
  In k (snd (Nat.iter m (fun s => (fst s + 1, snd s ++ [fst s])) st))
  <-> In k (snd st) \/ fst st <= k < fst st + Z.of_nat m.
Proof.
  induction m as [|m IH].
  - simpl. split; [auto | intros [H|H]; [exact H | lia]].
  - rewrite Nat.iter_succ. cbn [fst snd]. rewrite in_app_iff, IH.
    assert (E : fst (Nat.iter m
                       (fun s : Z * list Z => (fst s + 1, snd s ++ [fst s]))
                       st) = fst st + Z.of_nat m).
    { clear. induction m as [|m IHm]; [simpl; lia|].
      rewrite Nat.iter_succ. cbn [fst]. rewrite IHm. lia. }
    rewrite E. simpl. split.
    + intros [[H|H]|[H|[]]]; [now left | right; lia | right; lia].
    + intros [H|H]; [now left; left|].
      destruct (Z.eq_dec k (fst st + Z.of_nat m)) as [->|Hne].
      * right. now left.
      * left. right. lia.
Qed.

Lemma iter_clip_fst (m : nat) (st : Z * list Z) :
  fst (Nat.iter m (fun s => (fst s + 1, snd s ++ [fst s])) st)
  = fst st + Z.of_nat m.
Proof.
  induction m as [|m IH]; [simpl; lia|].
  rewrite Nat.iter_succ. cbn [fst]. rewrite IH. lia.
Qed.

Lemma mem_str_S_match : cigar.mem_str "S" ["M"; "I"; "X"; "="] = false.
Proof. reflexivity. Qed.

(** One step of the walk: the cursor and the clipped indices after it. *)
Lemma walk_in (st : Z * list Z) (part : string * Z) (k : Z) :
  0 <= snd part ->
  fst (cigar.walk st part)
  = fst st
    + (if (fst part =? "S")%string
          || cigar.mem_str (fst part) ["M"; "I"; "X"; "="]
       then snd part else 0)
  /\ (In k (snd (cigar.walk st part))
      <-> In k (snd st)
          \/ ((fst part =? "S")%string = true
              /\ fst st <= k < fst st + snd part)).
Proof.
  intros Hn. unfold cigar.walk.
  destruct (fst part =? "S")%string eqn:ES.
  - apply String.eqb_eq in ES. rewrite ES, mem_str_S_match. cbn [orb].
    cbv iota. rewrite iter_clip_fst, iter_clip_in, Z2Nat.id by exact Hn.
    split; [reflexivity|]. tauto.
  - cbn [orb].
    destruct (cigar.mem_str (fst part) ["M"; "I"; "X"; "="]).
    + rewrite iter_skip. cbn [fst snd]. rewrite Z2Nat.id by exact Hn.
      split; [reflexivity|]. split; [auto|].
      intros [H|[H _]]; [exact H | discriminate].
    + split; [lia|]. split; [auto|].
      intros [H|[H _]]; [exact H | discriminate].
Qed.

(** The list [subs] after the loop over the parts holds the indices that
    lie in a soft clip. *)
Lemma walk_fold_in (ps : list (string * Z)) :
  Forall (fun p => 0 <= snd p) ps ->
  forall (st : Z * list Z) (k : Z),
    In k (snd (fold_left cigar.walk ps st))
    <-> In k (snd st) \/ (fst st <= k /\ clipped ps (k - fst st) = true).
Proof.
  induction 1 as [|p r Hp Hr IH]; intros st k.
  - simpl. split; [auto | intros [H|[_ H]]; [exact H | discriminate]].
  - cbn [fold_left clipped]. rewrite IH.
    destruct (walk_in st p k Hp) as [Hf Hin]. rewrite Hf, Hin.
    destruct (fst p =? "S")%string eqn:ES; cbn [orb].
    + replace (k - (fst st + snd p)) with (k - fst st - snd p) by lia.
      destruct (clipped r (k - fst st - snd p)).
      * rewrite orb_true_r. split.
        -- intros [[H|[_ H]]|[H _]]; [now left | right; split; [lia|auto]
                                       | right; split; [lia|auto]].
        -- intros [H|[H _]]; [now left; left|].
           destruct (Z_lt_le_dec k (fst st + snd p)).
           ++ left. right. split; [reflexivity | lia].
           ++ right. split; [lia | reflexivity].
      * rewrite orb_false_r. split.
        -- intros [[H|[_ H]]|[_ H]]; [now left | | discriminate].
           right. split; [lia|]. apply Z.ltb_lt. lia.
        -- intros [H|[H1 H2]]; [now left; left|].
           apply Z.ltb_lt in H2. left. right. split; [reflexivity | lia].
    + destruct (cigar.mem_str (fst p) ["M"; "I"; "X"; "="]).
      * replace (k - (fst st + snd p)) with (k - fst st - snd p) by lia.
        split.
        -- intros [[H|[H _]]|[H1 H2]]; [now left | discriminate |].
           right. split; [lia|]. rewrite H2, andb_true_r.
           apply Z.leb_le. lia.
        -- intros [H|[H1 H2]]; [now left; left|].
           apply andb_prop in H2. destruct H2 as [H2 H3].
           apply Z.leb_le in H2. right. split; [lia | exact H3].
      * rewrite Z.add_0_r. split.
        -- intros [[H|[H _]]|H]; [now left | discriminate | now right].
        -- intros [H|H]; [now left; left | now right].
Qed.

Lemma remove_nth_nth_lt {A : Type} (d : A) (i j : nat) (xs : list A) :
  (j < i)%nat -> nth j (remove_nth i xs) d = nth j xs d.
Proof.
  revert i j. induction xs as [|x r IH]; intros i j H; [reflexivity|].
  destruct i as [|i]; [lia|]. destruct j as [|j]; [reflexivity|].
  simpl. apply IH. lia.
Qed.

Lemma remove_nth_in {A : Type} (d : A) (i : nat) (xs : list A) (v : A) :
  NoDup xs -> (i < List.length xs)%nat ->
  In v (remove_nth i xs) <-> In v xs /\ nth i xs d <> v.
Proof.
  revert i. induction xs as [|x r IH]; intros i Hnd Hi; [simpl in Hi; lia|].
  inversion Hnd as [|? ? Hx Hr]; subst.
  destruct i as [|i]; simpl.
  - split.
    + intros H. split; [now right|]. intros ->. contradiction.
    + intros [[H|H] Hne]; [contradiction | exact H].
  - simpl in Hi. rewrite (IH i Hr) by lia. split.
    + intros [H|[H Hne]]; [|now split; [right|]].
      subst v. split; [now left|]. intros E. apply Hx. rewrite <- E.
      apply nth_In. lia.
    + intros [[H|H] Hne]; [now left | right; now split].
Qed.

Lemma remove_nth_NoDup {A : Type} (i : nat) (xs : list A) :
  NoDup xs -> NoDup (remove_nth i xs).
Proof.
  revert i. induction xs as [|x r IH]; intros i H; [exact H|].
  inversion H as [|? ? Hx Hr]; subst.
  destruct i as [|i]; simpl; [exact Hr|].
  constructor; [|apply IH; exact Hr].
  intros Hin. apply Hx. exact (remove_nth_incl i r x Hin).
Qed.

(** Popping a decreasing list of indices removes the elements that stood
    at these indices, and no other. *)
Lemma pop_all_spec (subs poss : list Z) :
  NoDup poss ->
  desc_below (Z.of_nat (List.length poss)) subs ->
  exists p, cigar.pop_all poss subs = Ok p
    /\ forall v, In v p
         <-> In v poss
             /\ forall d, In d subs -> nth (Z.to_nat d) poss 0 <> v.
Proof.
  revert poss. induction subs as [|i r IH]; intros poss Hnd H; simpl.
  - exists poss. split; [reflexivity|]. intros v. split; [|tauto].
    intros Hv. split; [exact Hv | intros d []].
  - simpl in H. destruct H as [Hi Hr].
    rewrite (pop_in_range poss i Hi). cbn [bind].
    destruct (IH (remove_nth (Z.to_nat i) poss)) as [p [E Hp]].
    + apply remove_nth_NoDup. exact Hnd.
    + apply desc_below_mono with (b := i); [exact Hr|].
      rewrite remove_nth_length; lia.
    + exists p. split; [exact E|]. intros v. rewrite Hp.
      rewrite (remove_nth_in 0 (Z.to_nat i) poss v Hnd) by lia.
      split.
      * intros [[Hv Hne] Hall]. split; [exact Hv|].
        intros d [<-|Hd]; [exact Hne|].
        pose proof (desc_below_all i r Hr d Hd) as Hd'.
        rewrite <- (remove_nth_nth_lt 0 (Z.to_nat i)) by lia.
        apply Hall. exact Hd.
      * intros [Hv Hall]. split; [split; [exact Hv | apply Hall; now left]|].
        intros d Hd.
        pose proof (desc_below_all i r Hr d Hd) as Hd'.
        rewrite (remove_nth_nth_lt 0 (Z.to_nat i)) by lia.
        apply Hall. now right.
Qed.

Lemma list_min_lb (xs : list Z) (x y : Z) :
  In y (x :: xs) -> list_min x xs <= y.
Proof.
  unfold list_min. revert x.
  induction xs as [|z r IH]; intros x H; simpl.
  - destruct H as [<-|[]]. lia.
  - destruct H as [<-|[<-|H]].
    + pose proof (list_min_le r (Z.min x z)). unfold list_min in *. lia.
    + pose proof (list_min_le r (Z.min x z)). unfold list_min in *. lia.
    + apply IH. now right.
Qed.

Lemma list_max_ub (xs : list Z) (x y : Z) :
  In y (x :: xs) -> y <= list_max x xs.
Proof.
  unfold list_max. revert x.
  induction xs as [|z r IH]; intros x H; simpl.
  - destruct H as [<-|[]]. lia.
  - destruct H as [<-|[<-|H]].
    + pose proof (list_max_ge r (Z.max x z)). unfold list_max in *. lia.
    + pose proof (list_max_ge r (Z.max x z)). unfold list_max in *. lia.
    + apply IH. now right.
Qed.

Lemma positions_in (L v : Z) :
  In v (map (fun i => i + 1) (range L)) <-> 1 <= v <= L.
Proof.
  rewrite in_map_iff. split.
  - intros [k [<- Hk]]. apply in_range in Hk. lia.
  - intros H. exists (v - 1). split; [lia|].
    unfold range. apply in_map_iff. exists (Z.to_nat (v - 1)).
    split; [lia|]. apply in_seq. lia.
Qed.

Lemma positions_nth (L d : Z) :
  0 <= d < L -> nth (Z.to_nat d) (map (fun i => i + 1) (range L)) 0 = d + 1.
Proof.
  intros H. unfold range. rewrite map_map.
  set (f := fun x : nat => Z.of_nat x + 1).
  transitivity (nth (Z.to_nat d) (map f (List.seq 0 (Z.to_nat L))) (f 0%nat)).
  - apply nth_indep. rewrite length_map, length_seq. lia.
  - rewrite (map_nth f), seq_nth by lia. unfold f. lia.
Qed.

Lemma map_NoDup {A B : Type} (f : A -> B) (l : list A) :
  (forall a b, f a = f b -> a = b) -> NoDup l -> NoDup (map f l).
Proof.
  intros Hf. induction 1 as [|x r Hx Hr IH]; simpl; constructor.
  - rewrite in_map_iff. intros [y [E Hy]]. apply Hf in E. now subst.
  - exact IH.
Qed.

Lemma positions_NoDup (L : Z) : NoDup (map (fun i => i + 1) (range L)).
Proof.
  unfold range. rewrite map_map. apply map_NoDup.
  - intros a b H. lia.
  - apply seq_NoDup.
Qed.

(** [readMatchStartStop] on an object built by [__init__]: the first and
    the last read position outside the soft clips, or [None] when there
    is none. *)
Lemma readMatchStartStop_exact (c : cigar.t) (ps : list (string * Z)) :
  well_built c -> cigar.parts c = Some ps ->
  let L := cigar.cigar__readLength ps in
  exists r, cigar.readMatchStartStop c = Ok r
    /\ match r with
       | None => forall k, 0 <= k < L -> clipped ps k = true
       | Some (lo, hi) =>
           1 <= lo /\ lo <= hi /\ hi <= L
           /\ clipped ps (lo - 1) = false
           /\ clipped ps (hi - 1) = false
           /\ forall k, 0 <= k < L -> clipped ps k = false ->
                lo <= k + 1 <= hi
       end.
Proof.
  intros Hw Hps L. unfold well_built in Hw. rewrite Hps in Hw.
  destruct Hw as [Hnn [HL _]].
  unfold cigar.readMatchStartStop. rewrite HL, Hps. fold L.
  destruct (walk_fold ps Hnn (0, [])) as [H1 H2];
    [simpl; lia | exact I |].
  cbn [fst] in H1. rewrite Z.add_0_l in H1. fold L in H1.
  assert (HL0 : 0 <= L) by (apply sum_parts_nonneg; exact Hnn).
  set (subs := snd (fold_left cigar.walk ps (0, []))) in *.
  assert (Hsubs : forall k, In k (rev subs) <-> (0 <= k /\ clipped ps k = true)).
  { intros k. rewrite <- in_rev. unfold subs.
    rewrite (walk_fold_in ps Hnn (0, []) k). cbn [fst snd].
    rewrite Z.sub_0_r. split; [intros [[]|H]; exact H | now right]. }
  destruct (pop_all_spec (rev subs) (map (fun i => i + 1) (range L)))
    as [p [E Hp]].
  { apply positions_NoDup. }
  { rewrite length_map, range_length, Z2Nat.id by exact HL0.
    rewrite <- H1. exact H2. }
  rewrite E. cbn [bind].
  assert (Hkept : forall v, In v p
                    <-> 1 <= v <= L /\ clipped ps (v - 1) = false).
  { intros v. rewrite Hp, positions_in. split.
    - intros [Hv Hall]. split; [exact Hv|].
      destruct (clipped ps (v - 1)) eqn:Ec; [|reflexivity].
      exfalso. apply (Hall (v - 1)).
      + apply Hsubs. split; [lia | exact Ec].
      + rewrite positions_nth by lia. lia.
    - intros [Hv Hc]. split; [exact Hv|].
      intros d Hd Hn.
      pose proof (desc_below_all _ _ H2 d Hd) as Hdr. rewrite H1 in Hdr.
      apply Hsubs in Hd. destruct Hd as [_ Hdc].
      rewrite positions_nth in Hn by lia.
      replace (v - 1) with d in Hc by lia. congruence. }
  destruct p as [|x xs].
  - exists None. split; [reflexivity|]. intros k Hk.
    destruct (clipped ps k) eqn:Ec; [reflexivity|].
    exfalso. apply (proj2 (Hkept (k + 1))).
    split; [lia|]. now replace (k + 1 - 1) with k by lia.
  - exists (Some (list_min x xs, list_max x xs)).
    split; [reflexivity|].
    pose proof (proj1 (Hkept _) (list_min_in xs x)) as [Hlo Hloc].
    pose proof (proj1 (Hkept _) (list_max_in xs x)) as [Hhi Hhic].
    pose proof (list_min_le xs x). pose proof (list_max_ge xs x).
    repeat split; try lia; try assumption.
    + apply list_min_lb. apply Hkept. split; [lia|].
      now replace (k + 1 - 1) with k by lia.
    + apply list_max_ub. apply Hkept. split; [lia|].
      now replace (k + 1 - 1) with k by lia.
Qed.

Lemma sum_parts_app (ops : list string) (p1 p2 : list (string * Z)) :
  cigar.sum_parts ops (p1 ++ p2)
  = cigar.sum_parts ops p1 + cigar.sum_parts ops p2.
Proof.
  induction p1 as [|p r IH]; [unfold cigar.sum_parts at 2; simpl; lia|].
  cbn [app]. rewrite !sum_parts_cons, IH. lia.
Qed.

(** The read-length letters are S and the letters that match. *)
Lemma read_letters (op : string) :
  cigar.mem_str op ["M"; "I"; "S"; "X"; "="]
  = (op =? "S")%string || cigar.mem_str op ["M"; "I"; "X"; "="].
Proof.
  unfold cigar.mem_str. simpl.
  destruct (op =? "M")%string, (op =? "I")%string, (op =? "S")%string,
    (op =? "X")%string, (op =? "=")%string; reflexivity.
Qed.

Lemma clipped_app (p1 p2 : list (string * Z)) :
  Forall (fun p => 0 <= snd p) p1 ->
  forall k, 0 <= k ->
    clipped (p1 ++ p2) k
    = if k <? cigar.cigar__readLength p1 then clipped p1 k
      else clipped p2 (k - cigar.cigar__readLength p1).
Proof.
  unfold cigar.cigar__readLength.
  induction 1 as [|p r Hp Hr IH]; intros k Hk.
  - unfold cigar.sum_parts. simpl.
    destruct (k <? 0) eqn:E; [apply Z.ltb_lt in E; lia|].
    now rewrite Z.sub_0_r.
  - cbn [app clipped]. rewrite sum_parts_cons, read_letters.
    pose proof (sum_parts_nonneg ["M"; "I"; "S"; "X"; "="] r Hr) as Hr0.
    destruct (fst p =? "S")%string eqn:ES; cbn [orb].
    + destruct (k <? snd p) eqn:E1; cbn [orb].
      * apply Z.ltb_lt in E1.
        destruct (k <? snd p + cigar.sum_parts _ r) eqn:E2;
          [reflexivity | apply Z.ltb_ge in E2; lia].
      * apply Z.ltb_ge in E1. rewrite IH by lia.
        replace (k - (snd p + cigar.sum_parts ["M"; "I"; "S"; "X"; "="] r))
          with (k - snd p - cigar.sum_parts ["M"; "I"; "S"; "X"; "="] r)
          by lia.
        destruct (k - snd p <? cigar.sum_parts _ r) eqn:E2;
          destruct (k <? snd p + cigar.sum_parts _ r) eqn:E3;
          try reflexivity;
          (apply Z.ltb_lt in E2 || apply Z.ltb_ge in E2);
          (apply Z.ltb_lt in E3 || apply Z.ltb_ge in E3); lia.
    + destruct (cigar.mem_str (fst p) ["M"; "I"; "X"; "="]).
      * destruct (snd p <=? k) eqn:E1; cbn [andb].
        -- apply Z.leb_le in E1. rewrite IH by lia.
           replace (k - (snd p
                         + cigar.sum_parts ["M"; "I"; "S"; "X"; "="] r))
             with (k - snd p
                   - cigar.sum_parts ["M"; "I"; "S"; "X"; "="] r) by lia.
           destruct (k - snd p <? cigar.sum_parts _ r) eqn:E2;
             destruct (k <? snd p + cigar.sum_parts _ r) eqn:E3;
             try reflexivity;
             (apply Z.ltb_lt in E2 || apply Z.ltb_ge in E2);
             (apply Z.ltb_lt in E3 || apply Z.ltb_ge in E3); lia.
        -- apply Z.leb_gt in E1.
           destruct (k <? snd p + cigar.sum_parts _ r) eqn:E2;
             [reflexivity | apply Z.ltb_ge in E2; lia].
      * rewrite Z.add_0_l. apply IH. exact Hk.
Qed.

(** Parts without a matching letter: every position they take is
    clipped. *)
Lemma clipped_ends (ps : list (string * Z)) :
  Forall (fun p => 0 <= snd p) ps ->
  forallb (fun p => negb (cigar.mem_str (fst p) ["M"; "I"; "X"; "="])) ps
  = true ->
  forall k, 0 <= k < cigar.cigar__readLength ps -> clipped ps k = true.
Proof.
  unfold cigar.cigar__readLength.
  induction 1 as [|p r Hp Hr IH]; intros Hall k Hk.
  - unfold cigar.sum_parts in Hk. simpl in Hk. lia.
  - cbn [forallb] in Hall. apply andb_prop in Hall.
    destruct Hall as [Hm Hall]. apply negb_true_iff in Hm.
    rewrite sum_parts_cons, read_letters, Hm, orb_false_r in Hk.
    cbn [clipped]. rewrite Hm.
    destruct (fst p =? "S")%string.
    + destruct (k <? snd p) eqn:E; [reflexivity|].
      apply Z.ltb_ge in E. cbn [orb]. apply IH; [exact Hall | lia].
    + apply IH; [exact Hall | lia].
Qed.

(** Parts without S: no position is clipped. *)
Lemma clipped_body (ps : list (string * Z)) (k : Z) :
  forallb (fun p => negb (fst p =? "S")%string) ps = true ->
  clipped ps k = false.
Proof.
  revert k. induction ps as [|p r IH]; intros k Hall; [reflexivity|].
  cbn [forallb] in Hall. apply andb_prop in Hall.
  destruct Hall as [Hs Hall]. apply negb_true_iff in Hs.
  cbn [clipped]. rewrite Hs.
  destruct (cigar.mem_str (fst p) ["M"; "I"; "X"; "="]).
  - rewrite (IH _ Hall). apply andb_false_r.
  - apply IH. exact Hall.
Qed.






(** X2.  For the object built from a CIGAR string other than [*],
    [readMatchStartStop] raises nothing: no [pop] is out of range.  It
    returns the first and the last read position that lie outside the
    soft clips, both between 1 and the read length, or [None] when every
    position of the read lies in a soft clip. *)
Theorem X2_matched_range_exact (s : string) (c : cigar.t)
  (ps : list (string * Z)) :
  cigar.init s = Ok c ->
  cigar.parts c = Some ps ->
  exists r,
    cigar.readMatchStartStop c = Ok r
    /\ match r with
       | None =>
           forall k, 0 <= k < cigar.cigar__readLength ps ->
             clipped ps k = true
       | Some (lo, hi) =>
           1 <= lo /\ lo <= hi /\ hi <= cigar.cigar__readLength ps
           /\ clipped ps (lo - 1) = false
           /\ clipped ps (hi - 1) = false
           /\ forall k, 0 <= k < cigar.cigar__readLength ps ->
                clipped ps k = false -> lo <= k + 1 <= hi
       end.
Proof.
  intros Hc Hps.
  exact (readMatchStartStop_exact c ps (proj1 (cigar_init_ok s c Hc)) Hps).
Qed.

Lemma X2_witness :
  exists c ps r,
    cigar.init "3S4M2D5I1S7H" = Ok c
    /\ cigar.parts c = Some ps
    /\ cigar.readMatchStartStop c = Ok r
    /\ match r with
       | None =>
           forall k, 0 <= k < cigar.cigar__readLength ps ->
             clipped ps k = true
       | Some (lo, hi) =>
           1 <= lo /\ lo <= hi /\ hi <= cigar.cigar__readLength ps
           /\ clipped ps (lo - 1) = false
           /\ clipped ps (hi - 1) = false
           /\ forall k, 0 <= k < cigar.cigar__readLength ps ->
                clipped ps k = false -> lo <= k + 1 <= hi
       end.
Proof.
  eexists. eexists.
  destruct (X2_matched_range_exact "3S4M2D5I1S7H" _ _ eq_refl eq_refl)
    as [r [Er Hr]].
  exists r. split; [reflexivity|]. split; [reflexivity|].
  split; [exact Er | exact Hr].
Defined.

(** X3.  When the parts are some parts without a matching letter, then
    parts without S that take at least one read position, then again
    parts without a matching letter (soft and hard clips at the two ends
    only), the matched range starts behind the leading clips and ends
    where the middle parts end. *)
Theorem X3_range_between_end_clips (s : string) (c : cigar.t)
  (pre body post : list (string * Z)) :
  cigar.init s = Ok c ->
  cigar.parts c = Some (pre ++ body ++ post) ->
  forallb (fun p => negb (cigar.mem_str (fst p) ["M"; "I"; "X"; "="])) pre
  = true ->
  forallb (fun p => negb (fst p =? "S")%string) body = true ->
  forallb (fun p => negb (cigar.mem_str (fst p) ["M"; "I"; "X"; "="])) post
  = true ->
  0 < cigar.cigar__readLength body ->
  cigar.readMatchStartStop c
  = Ok (Some (cigar.cigar__readLength pre + 1,
              cigar.cigar__readLength pre + cigar.cigar__readLength body))
  /\ cigar.readLength c
     = Some (cigar.cigar__readLength pre + cigar.cigar__readLength body
             + cigar.cigar__readLength post).
Proof.
  intros Hc Hps Hpre Hbody Hpost Hpos.
  pose proof (proj1 (cigar_init_ok s c Hc)) as Hw.
  destruct (readMatchStartStop_exact c _ Hw Hps) as [r [Er Hr]].
  unfold well_built in Hw. rewrite Hps in Hw.
  destruct Hw as [Hnn [HL _]].
  apply Forall_app in Hnn. destruct Hnn as [Hnpre Hnn].
  apply Forall_app in Hnn. destruct Hnn as [Hnbody Hnpost].
  set (a := cigar.cigar__readLength pre) in *.
  set (b := cigar.cigar__readLength body) in *.
  set (e := cigar.cigar__readLength post) in *.
  assert (EL : cigar.cigar__readLength (pre ++ body ++ post) = a + b + e).
  { unfold cigar.cigar__readLength, a, b, e.
    rewrite !sum_parts_app. unfold cigar.cigar__readLength. lia. }
  rewrite EL in Hr, HL.
  assert (Ha : 0 <= a) by (apply sum_parts_nonneg; exact Hnpre).
  assert (He : 0 <= e) by (apply sum_parts_nonneg; exact Hnpost).
  assert (Hclip : forall k, 0 <= k < a + b + e ->
            clipped (pre ++ body ++ post) k
            = negb ((a <=? k) && (k <? a + b))).
  { intros k Hk. rewrite (clipped_app pre _ Hnpre) by lia. fold a.
    destruct (k <? a) eqn:E1.
    - apply Z.ltb_lt in E1. rewrite (clipped_ends pre Hnpre Hpre) by (fold a; lia).
      destruct (a <=? k) eqn:E2; [apply Z.leb_le in E2; lia | reflexivity].
    - apply Z.ltb_ge in E1. rewrite (clipped_app body _ Hnbody) by lia.
      fold b. replace (a <=? k) with true by (symmetry; apply Z.leb_le; lia).
      cbn [andb].
      destruct (k - a <? b) eqn:E2.
      + apply Z.ltb_lt in E2. rewrite (clipped_body body _ Hbody).
        replace (k <? a + b) with true by (symmetry; apply Z.ltb_lt; lia).
        reflexivity.
      + apply Z.ltb_ge in E2.
        rewrite (clipped_ends post Hnpost Hpost) by (fold e; lia).
        replace (k <? a + b) with false by (symmetry; apply Z.ltb_ge; lia).
        reflexivity. }
  split; [|exact HL]. rewrite Er. f_equal.
  destruct r as [[lo hi]|].
  - destruct Hr as [H1 [H2 [H3 [H4 [H5 H6]]]]].
    rewrite Hclip in H4, H5 by lia.
    apply negb_false_iff, andb_prop in H4. destruct H4 as [H4a H4b].
    apply negb_false_iff, andb_prop in H5. destruct H5 as [H5a H5b].
    apply Z.leb_le in H4a, H5a. apply Z.ltb_lt in H4b, H5b.
    assert (Hlo : lo <= a + 1 <= hi).
    { apply (H6 a); [lia|]. rewrite Hclip by lia.
      apply negb_false_iff, andb_true_intro.
      split; [apply Z.leb_le | apply Z.ltb_lt]; lia. }
    assert (Hhi : lo <= (a + b - 1) + 1 <= hi).
    { apply (H6 (a + b - 1)); [lia|]. rewrite Hclip by lia.
      apply negb_false_iff, andb_true_intro.
      split; [apply Z.leb_le | apply Z.ltb_lt]; lia. }
    f_equal. f_equal; lia.
  - exfalso. specialize (Hr a). rewrite Hclip in Hr by lia.
    assert (E : (a <=? a) && (a <? a + b) = true).
    { apply andb_true_intro.
      split; [apply Z.leb_le | apply Z.ltb_lt]; lia. }
    rewrite E in Hr. discriminate Hr. lia.
Qed.

Lemma X3_witness :
  exists c,
    cigar.init "7H3S4M2D5I1S" = Ok c
    /\ cigar.readMatchStartStop c = Ok (Some (4, 12))
    /\ cigar.readLength c = Some 13.
Proof.
  eexists. split; [reflexivity|].
  exact (X3_range_between_end_clips "7H3S4M2D5I1S" _
           [("H", 7); ("S", 3)] [("M", 4); ("D", 2); ("I", 5)] [("S", 1)]
           eq_refl eq_refl eq_refl eq_refl eq_refl eq_refl).
Defined.

End CigarRange.

(** ** More on the bridge evaluator *)

Section BridgesMore.

Lemma sameReadForward_sym (a b : sam_entry.t) :
  sameReadForward a b = sameReadForward b a.
Proof.
  unfold sameReadForward.
  rewrite (Z.eqb_sym (Z.land (flag a) 0x40)).
  destruct (Z.land (flag a) 4 =? 0), (Z.land (flag b) 4 =? 0),
    (Z.land (flag b) 64 =? Z.land (flag a) 64),
    (Z.land (flag a) 16 =? 0), (Z.land (flag b) 16 =? 0); reflexivity.
Qed.

Lemma sameReadForward_bits (a b : sam_entry.t) :
  sameReadForward a b = true ->
  Z.land (flag a) 0x4 = 0 /\ Z.land (flag b) 0x4 = 0
  /\ Z.land (flag a) 0x40 = Z.land (flag b) 0x40
  /\ Z.land (flag a) 0x10 = 0 /\ Z.land (flag b) 0x10 = 0.
Proof.
  unfold sameReadForward. intros H.
  repeat (apply andb_prop in H; destruct H as [H ?]).
  repeat split; now apply Z.eqb_eq.
Qed.

(** An object with a matched range has its two lengths. *)
Lemma range_has_lengths (c : cigar.t) (r : Z * Z) :
  well_built c -> cigar.readMatchStartStop c = Ok (Some r) ->
  exists rl la, cigar.readLength c = Some rl /\ cigar.alnLength c = Some la.
Proof.
  unfold well_built, cigar.readMatchStartStop.
  destruct (cigar.parts c) as [ps|].
  - intros [_ [-> ->]] _. eauto.
  - intros [-> _]. discriminate.
Qed.

(** What [singleReadSegmentBridges] computes once both records are known
    to be forward alignments on one reference with matched ranges: the
    two forward blocks, of which at most one passes its test of the read
    order. *)
Lemma single_forward_eval (a b : sam_entry.t) (T : option Z)
  (ca cb : cigar.t) (a0 a1 b0 b1 rl la lb : Z) :
  sameReadForward a b = true ->
  rname a = rname b ->
  lenFromContigName (rname a) = Ok T ->
  cigar.init (cigar a) = Ok ca -> cigar.init (cigar b) = Ok cb ->
  cigar.readMatchStartStop ca = Ok (Some (a0, a1)) ->
  cigar.readMatchStartStop cb = Ok (Some (b0, b1)) ->
  a0 <= a1 -> b0 <= b1 ->
  cigar.readLength ca = Some rl ->
  cigar.alnLength ca = Some la -> cigar.alnLength cb = Some lb ->
  singleReadSegmentBridges a b
  = if (a1 <? b0) && (pos a >? pos b + lb)
    then T' <- as_int T ;; Ok (T' - pos a + pos b + lb <=? rl)
    else if (b1 <? a0) && (pos b >? pos a + la)
    then T' <- as_int T ;; Ok (T' - pos b + pos a + la <=? rl)
    else Ok false.
Proof.
  intros Hf Hr HT Hca Hcb Hra Hrb Ha Hb Hrl Hla Hlb.
  unfold singleReadSegmentBridges.
  rewrite Hf, Hr, String.eqb_refl. cbn [negb].
  rewrite <- Hr, HT, Hca, Hcb. cbn [bind].
  rewrite Hra. cbn [bind]. rewrite Hrb. cbn [bind].
  rewrite Hrl, Hla, Hlb.
  unfold bridge_case, gt_plus, span_within, as_int. cbn [bind strand_eqb].
  destruct (a1 <? b0) eqn:E1; destruct (b1 <? a0) eqn:E2.
  - apply Z.ltb_lt in E1, E2. lia.
  - cbn [andb]. rewrite !andb_false_r, !andb_true_r.
    destruct (pos a >? pos b + lb); [|reflexivity].
    destruct T as [t|]; [|reflexivity]. cbn [bind].
    destruct (t - pos a + pos b + lb <=? rl); reflexivity.
  - cbn [andb]. rewrite !andb_false_r, !andb_true_r.
    destruct (pos b >? pos a + la); [|reflexivity].
    destruct T as [t|]; [|reflexivity]. cbn [bind].
    destruct (t - pos b + pos a + la <=? rl); reflexivity.
  - reflexivity.
Qed.

(** An exception of [lenFromContigName] or of [cigar] leaves
    [singleReadSegmentBridges], for two forward alignments on one
    reference. *)
Lemma single_raises_early (a b : sam_entry.t) (e : exn) :
  sameReadForward a b = true ->
  rname a = rname b ->
  lenFromContigName (rname a) = Raise e
  \/ (exists T, lenFromContigName (rname a) = Ok T
                /\ cigar.init (cigar a) = Raise e)
  \/ (exists T ca, lenFromContigName (rname a) = Ok T
                   /\ cigar.init (cigar a) = Ok ca
                   /\ cigar.init (cigar b) = Raise e) ->
  singleReadSegmentBridges a b = Raise e.
Proof.
  intros Hf Hr H. unfold singleReadSegmentBridges.
  rewrite Hf, Hr, String.eqb_refl. cbn [negb]. rewrite <- Hr.
  destruct H as [->|[[T [-> ->]]|[T [ca [-> [-> ->]]]]]]; reflexivity.
Qed.

(** X4.  When the two CIGARs give the same read length,
    [singleReadSegmentBridges] does not depend on the order of its two
    arguments: the driver, which evaluates a pair in file order only,
    misses nothing.  (The limit of the wrap span is the read length of
    the first argument.) *)
Theorem X4_single_bridge_symmetric (a b : sam_entry.t) (ca cb : cigar.t) :
  cigar.init (cigar a) = Ok ca ->
  cigar.init (cigar b) = Ok cb ->
  cigar.readLength ca = cigar.readLength cb ->
  singleReadSegmentBridges a b = singleReadSegmentBridges b a.
Proof.
  intros Hca Hcb Hrl.
  destruct (sameReadForward a b) eqn:Hf.
  2:{ unfold singleReadSegmentBridges.
      rewrite !sameReadReverse_never, <- (sameReadForward_sym a b), Hf.
      reflexivity. }
  destruct (rname a =? rname b)%string eqn:Hr.
  2:{ unfold singleReadSegmentBridges.
      rewrite !sameReadReverse_never, <- (sameReadForward_sym a b), Hf.
      rewrite (String.eqb_sym (rname b)), Hr. reflexivity. }
  apply String.eqb_eq in Hr.
  assert (Hf' : sameReadForward b a = true)
    by now rewrite <- sameReadForward_sym.
  destruct (lenFromContigName (rname a)) as [T|e] eqn:HT.
  2:{ rewrite (single_raises_early a b e Hf Hr) by now left.
      rewrite (single_raises_early b a e Hf' (eq_sym Hr));
        [reflexivity|]. left. now rewrite <- Hr. }
  assert (HT' : lenFromContigName (rname b) = Ok T) by now rewrite <- Hr.
  pose proof (proj1 (cigar_init_ok _ _ Hca)) as Wa.
  pose proof (proj1 (cigar_init_ok _ _ Hcb)) as Wb.
  destruct (readMatchStartStop_spec ca Wa) as [ra [Era Hra]].
  destruct (readMatchStartStop_spec cb Wb) as [rb [Erb Hrb]].
  destruct ra as [[a0 a1]|]; destruct rb as [[b0 b1]|].
  - destruct Hra as [La [HLa [_ [Ha _]]]].
    destruct Hrb as [Lb [HLb [_ [Hb _]]]].
    destruct (range_has_lengths ca _ Wa Era) as [rl [la [Hrla Hla]]].
    destruct (range_has_lengths cb _ Wb Erb) as [rl' [lb [Hrlb Hlb]]].
    assert (rl' = rl) by congruence. subst rl'.
    rewrite (single_forward_eval a b T ca cb a0 a1 b0 b1 rl la lb)
      by assumption.
    rewrite (single_forward_eval b a T cb ca b0 b1 a0 a1 rl lb la);
      try assumption; [|congruence..].
    destruct (a1 <? b0) eqn:E1; destruct (b1 <? a0) eqn:E2;
      cbn [andb]; try reflexivity.
    apply Z.ltb_lt in E1, E2. lia.
  - rewrite (single_no_range a b T ca cb), (single_no_range b a T cb ca);
      auto.
  - rewrite (single_no_range a b T ca cb), (single_no_range b a T cb ca);
      auto.
  - rewrite (single_no_range a b T ca cb), (single_no_range b a T cb ca);
      auto.
Qed.

Lemma X4_witness :
  singleReadSegmentBridges Examples.fwd_a Examples.fwd_b
  = singleReadSegmentBridges Examples.fwd_b Examples.fwd_a.
Proof.
  exact (X4_single_bridge_symmetric Examples.fwd_a Examples.fwd_b _ _
           eq_refl eq_refl eq_refl).
Defined.

(** X5.  [singleReadSegmentBridges] answers [True] exactly for two mapped
    forward-strand records with the same first-in-pair bit and the same
    reference name, whose name holds the contig length [T], and whose
    matched ranges follow each other on the read while the positions
    wrap: the wrap span [T - x + y + n] is at most the read length of the
    first record; and for all such pairs.  A reverse-strand or unmapped
    record never gives [True]. *)
Theorem X5_single_bridge_true (a b : sam_entry.t) :
  singleReadSegmentBridges a b = Ok true
  <-> Z.land (flag a) 0x4 = 0 /\ Z.land (flag b) 0x4 = 0
      /\ Z.land (flag a) 0x10 = 0 /\ Z.land (flag b) 0x10 = 0
      /\ Z.land (flag a) 0x40 = Z.land (flag b) 0x40
      /\ rname a = rname b
      /\ exists T ca cb a0 a1 b0 b1 rl la lb,
           lenFromContigName (rname a) = Ok (Some T)
           /\ cigar.init (cigar a) = Ok ca
           /\ cigar.init (cigar b) = Ok cb
           /\ cigar.readMatchStartStop ca = Ok (Some (a0, a1))
           /\ cigar.readMatchStartStop cb = Ok (Some (b0, b1))
           /\ cigar.readLength ca = Some rl
           /\ cigar.alnLength ca = Some la
           /\ cigar.alnLength cb = Some lb
           /\ ((a1 < b0 /\ pos a > pos b + lb
                /\ T - pos a + pos b + lb <= rl)
               \/ (b1 < a0 /\ pos b > pos a + la
                   /\ T - pos b + pos a + la <= rl)).
Proof.
  split.
  - intros H.
    destruct (sameReadForward a b) eqn:Hf.
    2:{ unfold singleReadSegmentBridges in H.
        rewrite sameReadReverse_never, Hf in H. discriminate. }
    destruct (rname a =? rname b)%string eqn:Hr.
    2:{ unfold singleReadSegmentBridges in H.
        rewrite Hf, Hr in H. discriminate. }
    apply String.eqb_eq in Hr.
    destruct (sameReadForward_bits a b Hf) as [B1 [B2 [B3 [B4 B5]]]].
    repeat (split; [assumption|]).
    destruct (lenFromContigName (rname a)) as [T|e] eqn:HT.
    2:{ rewrite (single_raises_early a b e Hf Hr) in H by now left.
        discriminate. }
    destruct (cigar.init (cigar a)) as [ca|e] eqn:Ea.
    2:{ rewrite (single_raises_early a b e Hf Hr) in H
          by (right; left; eauto).
        discriminate. }
    destruct (cigar.init (cigar b)) as [cb|e] eqn:Eb.
    2:{ rewrite (single_raises_early a b e Hf Hr) in H
          by (right; right; eauto).
        discriminate. }
    pose proof (proj1 (cigar_init_ok _ _ Ea)) as Wa.
    pose proof (proj1 (cigar_init_ok _ _ Eb)) as Wb.
    destruct (readMatchStartStop_spec ca Wa) as [ra [Era Hra]].
    destruct (readMatchStartStop_spec cb Wb) as [rb [Erb Hrb]].
    destruct ra as [[a0 a1]|];
      [|rewrite (single_no_range a b T ca cb) in H by auto; discriminate].
    destruct rb as [[b0 b1]|];
      [|rewrite (single_no_range a b T ca cb) in H by auto; discriminate].
    destruct Hra as [La [HLa [_ [Ha _]]]].
    destruct Hrb as [Lb [HLb [_ [Hb _]]]].
    destruct (range_has_lengths ca _ Wa Era) as [rl [la [Hrla Hla]]].
    destruct (range_has_lengths cb _ Wb Erb) as [rl' [lb [Hrlb Hlb]]].
    rewrite (single_forward_eval a b T ca cb a0 a1 b0 b1 rl la lb) in H
      by assumption.
    destruct T as [t|].
    2:{ cbn [as_int bind] in H.
        destruct ((a1 <? b0) && (pos a >? pos b + lb)); [discriminate|].
        destruct ((b1 <? a0) && (pos b >? pos a + la)); discriminate. }
    exists t, ca, cb, a0, a1, b0, b1, rl, la, lb.
    repeat (split; [assumption || reflexivity|]).
    cbn [as_int bind] in H.
    destruct ((a1 <? b0) && (pos a >? pos b + lb)) eqn:E1.
    + apply andb_prop in E1. destruct E1 as [E1 E2].
      apply Z.ltb_lt in E1. apply Z.gtb_lt in E2.
      injection H as H. apply Z.leb_le in H. left. lia.
    + destruct ((b1 <? a0) && (pos b >? pos a + la)) eqn:E3;
        [|discriminate].
      apply andb_prop in E3. destruct E3 as [E3 E4].
      apply Z.ltb_lt in E3. apply Z.gtb_lt in E4.
      injection H as H. apply Z.leb_le in H. right. lia.
  - intros [B1 [B2 [B4 [B5 [B3 [Hr H]]]]]].
    destruct H as [T [ca [cb [a0 [a1 [b0 [b1 [rl [la [lb H]]]]]]]]]].
    destruct H as [HT [Ea [Eb [Era [Erb [Hrl [Hla [Hlb Hg]]]]]]]].
    assert (Hf : sameReadForward a b = true).
    { unfold sameReadForward. rewrite B1, B2, B3, B4, B5.
      change (0 =? 0) with true. cbn [andb]. rewrite Z.eqb_refl.
      reflexivity. }
    pose proof (proj1 (cigar_init_ok _ _ Ea)) as Wa.
    pose proof (proj1 (cigar_init_ok _ _ Eb)) as Wb.
    destruct (readMatchStartStop_spec ca Wa) as [ra [Era' Hra]].
    destruct (readMatchStartStop_spec cb Wb) as [rb [Erb' Hrb]].
    rewrite Era in Era'. injection Era' as <-.
    rewrite Erb in Erb'. injection Erb' as <-.
    destruct Hra as [La [_ [_ [Ha _]]]].
    destruct Hrb as [Lb [_ [_ [Hb _]]]].
    rewrite (single_forward_eval a b (Some T) ca cb a0 a1 b0 b1 rl la lb)
      by assumption.
    cbn [as_int bind].
    destruct Hg as [[G1 [G2 G3]]|[G1 [G2 G3]]].
    + assert (E : (a1 <? b0) && (pos a >? pos b + lb) = true).
      { apply andb_true_intro.
        split; [apply Z.ltb_lt | apply Z.gtb_lt]; lia. }
      rewrite E. f_equal. apply Z.leb_le. lia.
    + assert (E1 : (a1 <? b0) = false) by (apply Z.ltb_ge; lia).
      assert (E : (b1 <? a0) && (pos b >? pos a + la) = true).
      { apply andb_true_intro.
        split; [apply Z.ltb_lt | apply Z.gtb_lt]; lia. }
      rewrite E1, E. cbn [andb]. f_equal. apply Z.leb_le. lia.
Qed.

Lemma X5_witness :
  Z.land (flag Examples.fwd_a) 0x10 = 0
  /\ rname Examples.fwd_a = rname Examples.fwd_b.
Proof.
  destruct (proj1 (X5_single_bridge_true Examples.fwd_a Examples.fwd_b)
              eq_refl) as [_ [_ [H3 [_ [_ [H6 _]]]]]].
  split; [exact H3 | exact H6].
Defined.

(** The results of [pairedReadBridge]: [False], or an exception.  A
    [ValueError] is that of [int], met on the way. *)
Lemma paired_values (a b : sam_entry.t) (m : Z) :
  pairedReadBridge a b m = Ok (Some false)
  \/ pairedReadBridge a b m = Raise TypeError
  \/ pairedReadBridge a b m = Raise AttributeError
  \/ (pairedReadBridge a b m = Raise ValueError
      /\ rname a = rname b
      /\ (lenFromContigName (rname a) = Raise ValueError
          \/ cigar.init (cigar a) = Raise ValueError
          \/ cigar.init (cigar b) = Raise ValueError)).
Proof.
  unfold pairedReadBridge.
  destruct (rname a =? rname b)%string eqn:Hr; cbn [negb]; [|now left].
  apply String.eqb_eq in Hr.
  destruct (lenFromContigName (rname a)) as [T|e] eqn:HT; cbn [bind].
  2:{ rewrite (lenFromContigName_raises _ _ HT). auto 10. }
  destruct (cigar.init (cigar a)) as [ca|e] eqn:Ea; cbn [bind].
  2:{ rewrite (cigar_init_raises _ _ Ea). auto 10. }
  destruct (cigar.init (cigar b)) as [cb|e] eqn:Eb; cbn [bind].
  2:{ rewrite (cigar_init_raises _ _ Eb). auto 10. }
  unfold match_span.
  destruct (readMatchStartStop_spec ca (proj1 (cigar_init_ok _ _ Ea)))
    as [ra [-> _]].
  destruct (readMatchStartStop_spec cb (proj1 (cigar_init_ok _ _ Eb)))
    as [rb [-> _]].
  cbn [bind].
  destruct ra as [[a0 a1]|]; [|auto]. cbn [bind].
  destruct rb as [[b0 b1]|]; [|auto]. cbn [bind].
  destruct (pairedReads_no_label a b) as [-> | ->]; cbn [bind]; auto.
Qed.

(** [maxInsertSize] is read only where [pairedReads] has given a label,
    which it never does. *)
Lemma paired_any_size (a b : sam_entry.t) (m m' : Z) :
  pairedReadBridge a b m = pairedReadBridge a b m'.
Proof.
  unfold pairedReadBridge.
  destruct (negb (rname a =? rname b)%string); [reflexivity|].
  destruct (lenFromContigName (rname a)); [|reflexivity].
  destruct (cigar.init (cigar a)); [|reflexivity].
  destruct (cigar.init (cigar b)); [|reflexivity].
  cbn [bind].
  destruct (match_span _); [|reflexivity].
  destruct (match_span _); [|reflexivity].
  cbn [bind].
  destruct (pairedReads_no_label a b) as [-> | ->]; reflexivity.
Qed.

(** X6.  [pairedReadBridge] answers [False] or raises: a [TypeError], an
    [AttributeError], or the [ValueError] of [int] for the length in the
    reference name or a length in a CIGAR that has more digits than the
    interpreter converts.  It never answers [True], and never ends
    without a [return].  Its result does not depend on
    [maxInsertSize]. *)
Theorem X6_paired_bridge_values (a b : sam_entry.t) (m m' : Z) :
  (pairedReadBridge a b m = Ok (Some false)
   \/ pairedReadBridge a b m = Raise TypeError
   \/ pairedReadBridge a b m = Raise AttributeError
   \/ (pairedReadBridge a b m = Raise ValueError
       /\ rname a = rname b
       /\ (lenFromContigName (rname a) = Raise ValueError
           \/ cigar.init (cigar a) = Raise ValueError
           \/ cigar.init (cigar b) = Raise ValueError)))
  /\ pairedReadBridge a b m = pairedReadBridge a b m'.
Proof.
  split; [apply paired_values | apply paired_any_size].
Qed.

End BridgesMore.

(** ** Decimal numbers and contig names *)

Section Decimal.

Lemma digit_val_char (d : Z) :
  0 <= d <= 9 -> digit_val (digit_char d) = Some d.
Proof.
  intros H.
  assert (E : d = 0 \/ d = 1 \/ d = 2 \/ d = 3 \/ d = 4 \/ d = 5 \/ d = 6
              \/ d = 7 \/ d = 8 \/ d = 9) by lia.
  repeat (destruct E as [->|E]; [reflexivity|]). now subst.
Qed.

Lemma is_digit_char (d : Z) : 0 <= d <= 9 -> is_digit (digit_char d) = true.
Proof. intros H. unfold is_digit. now rewrite digit_val_char. Qed.

Lemma all_digits_app (s t : string) :
  all_digits (s ++ t) = all_digits s && all_digits t.
Proof.
  induction s as [|c s IH]; simpl; [reflexivity|].
  rewrite IH. apply andb_assoc.
Qed.

(** The digits that [digits_of] puts in front of [acc] are read back by
    [digits_from] as the number. *)
Lemma digits_of_spec (f : nat) :
  forall (n : Z) (acc : string),
    (0 < f)%nat -> 0 <= n < 2 ^ Z.of_nat f ->
    exists d ds,
      digits_of f n acc = (String d ds ++ acc)%string
      /\ all_digits (String d ds) = true
      /\ forall a b t,
           digits_from (String d ds ++ t) a b
           = digits_from t
               (a * 10 ^ Z.of_nat (String.length (String d ds)) + n) true.
Proof.
  induction f as [|f IH]; intros n acc Hf Hn; [lia|].
  cbn [digits_of]. destruct (n <? 10) eqn:E.
  - apply Z.ltb_lt in E. rewrite Z.mod_small by lia.
    exists (digit_char n), EmptyString.
    split; [reflexivity|]. split.
    + cbn [all_digits]. now rewrite is_digit_char by lia.
    + intros a b t. cbn [append digits_from String.length].
      rewrite digit_val_char by lia. f_equal. lia.
  - apply Z.ltb_ge in E.
    assert (Hm : 0 <= n mod 10 <= 9)
      by (pose proof (Z.mod_pos_bound n 10); lia).
    assert (Hf' : (0 < f)%nat).
    { destruct f; [|lia]. simpl in Hn. lia. }
    assert (Hd : 0 <= n / 10 < 2 ^ Z.of_nat f).
    { split; [apply Z.div_pos; lia|].
      apply Z.div_lt_upper_bound; [lia|].
      rewrite Nat2Z.inj_succ, Z.pow_succ_r in Hn by lia. lia. }
    destruct (IH (n / 10) (String (digit_char (n mod 10)) acc) Hf' Hd)
      as [d [ds [E1 [E2 E3]]]].
    exists d, (ds ++ String (digit_char (n mod 10)) EmptyString)%string.
    split; [|split].
    + rewrite E1. cbn [append]. now rewrite append_snoc.
    + cbn [all_digits] in *. apply andb_prop in E2.
      destruct E2 as [E2 E2']. rewrite E2, all_digits_app, E2'.
      cbn [all_digits andb]. rewrite is_digit_char by lia. reflexivity.
    + intros a b t.
      change (String d (ds ++ String (digit_char (n mod 10)) ""))
        with (String d ds ++ String (digit_char (n mod 10)) "")%string.
      rewrite append_snoc, E3. cbn [digits_from].
      rewrite digit_val_char by lia. f_equal.
      rewrite length_append.
      replace (String.length (String d ds)
               + String.length (String (digit_char (n mod 10)) ""))%nat
        with (S (String.length (String d ds)))
        by (cbn [String.length]; lia).
      rewrite Nat2Z.inj_succ, Z.pow_succ_r by lia.
      rewrite (Z.div_mod n 10) at 3 by lia. ring.
Qed.

Lemma log2_fuel (n : Z) :
  0 <= n -> 0 <= n < 2 ^ Z.of_nat (S (Z.to_nat (Z.log2 n))).
Proof.
  intros H. split; [exact H|].
  rewrite Nat2Z.inj_succ, Z2Nat.id by apply Z.log2_nonneg.
  destruct (Z.eq_dec n 0) as [->|Hne]; [reflexivity|].
  apply Z.log2_spec. lia.
Qed.

(** The digits of a number that is not negative. *)
Lemma str_int_digits (n : Z) :
  0 <= n ->
  exists d ds,
    str_int n = String d ds
    /\ all_digits (String d ds) = true
    /\ digits_from (String d ds) 0 false = Some n.
Proof.
  intros H. unfold str_int.
  assert (E : (n <? 0) = false) by (apply Z.ltb_ge; lia).
  rewrite E, Z.abs_eq by exact H.
  destruct (digits_of_spec _ n EmptyString (Nat.lt_0_succ _) (log2_fuel n H))
    as [d [ds [E1 [E2 E3]]]].
  exists d, ds. rewrite E1, append_empty.
  split; [reflexivity|]. split; [exact E2|].
  specialize (E3 0 false EmptyString). rewrite append_empty in E3.
  rewrite E3. reflexivity.
Qed.

(** The number of digits that [digits_of] writes: one, or as many as
    the number asks for. *)
Lemma digits_of_length (f : nat) :
  forall (n : Z) (acc : string),
    (0 < f)%nat -> 0 <= n < 2 ^ Z.of_nat f ->
    exists k : nat,
      String.length (digits_of f n acc) = (k + String.length acc)%nat
      /\ (1 <= k)%nat
      /\ (k = 1%nat \/ 10 ^ (Z.of_nat k - 1) <= n).
Proof.
  induction f as [|f IH]; intros n acc Hf Hn; [lia|].
  cbn [digits_of]. destruct (n <? 10) eqn:E.
  - exists 1%nat. split; [reflexivity|]. split; [lia | now left].
  - apply Z.ltb_ge in E.
    assert (Hf' : (0 < f)%nat).
    { destruct f; [|lia]. simpl in Hn. lia. }
    assert (Hd : 0 <= n / 10 < 2 ^ Z.of_nat f).
    { split; [apply Z.div_pos; lia|].
      apply Z.div_lt_upper_bound; [lia|].
      rewrite Nat2Z.inj_succ, Z.pow_succ_r in Hn by lia. lia. }
    destruct (IH (n / 10) (String (digit_char (n mod 10)) acc) Hf' Hd)
      as [k [E1 [E2 E3]]].
    exists (S k). split; [|split; [lia|right]].
    + rewrite E1. cbn [String.length]. lia.
    + pose proof (Z.mul_div_le n 10 ltac:(lia)) as Hq.
      replace (Z.of_nat (S k) - 1) with (Z.succ (Z.of_nat k - 1)) by lia.
      rewrite Z.pow_succ_r by lia.
      destruct E3 as [->|E3]; [simpl; lia | lia].
Qed.

(** A number below [10 ^ max_str_digits] is written with
    [max_str_digits] digits at most. *)
Lemma str_int_short (n : Z) :
  0 <= n < 10 ^ max_str_digits ->
  Z.of_nat (String.length (str_int n)) <= max_str_digits.
Proof.
  intros [H0 H1]. unfold str_int.
  assert (E : (n <? 0) = false) by (apply Z.ltb_ge; lia).
  rewrite E, Z.abs_eq by exact H0.
  destruct (digits_of_length _ n EmptyString (Nat.lt_0_succ _)
              (log2_fuel n H0)) as [k [E1 [E2 E3]]].
  rewrite E1. cbn [String.length]. rewrite Nat.add_0_r.
  assert (HM : 1 <= max_str_digits) by (unfold max_str_digits; lia).
  destruct E3 as [->|E3]; [exact HM|].
  assert (Hlt : 10 ^ (Z.of_nat k - 1) < 10 ^ max_str_digits) by lia.
  apply Z.pow_lt_mono_r_iff in Hlt; lia.
Qed.

Lemma count_digits_nonneg (s : string) : 0 <= count_digits s.
Proof.
  induction s as [|c r IH]; cbn [count_digits]; [lia|].
  destruct (is_digit c); lia.
Qed.

(** A literal of [k] digits is a number below [10 ^ k]. *)
Lemma digits_from_bound (s : string) :
  forall (acc : Z) (b : bool) (v : Z),
    0 <= acc -> digits_from s acc b = Some v ->
    0 <= v < (acc + 1) * 10 ^ count_digits s.
Proof.
  induction s as [|c r IH]; intros acc b v Hacc;
    cbn [digits_from count_digits].
  - destruct b; [|discriminate]. intros H. injection H as <-.
    rewrite Z.pow_0_r. lia.
  - unfold is_digit. destruct (digit_val c) as [d|] eqn:Ed.
    + intros H. apply digit_val_range in Ed.
      destruct (IH (10 * acc + d) true v ltac:(lia) H) as [H1 H2].
      split; [exact H1|].
      pose proof (count_digits_nonneg r) as Hc.
      rewrite Z.pow_add_r, Z.pow_1_r by lia.
      pose proof (Z.pow_pos_nonneg 10 (count_digits r) ltac:(lia) Hc)
        as Hp.
      nia.
    + destruct (Ascii.eqb c "_" && b); [|discriminate].
      intros H. rewrite Z.add_0_l. exact (IH acc false v Hacc H).
Qed.

Lemma digits_from_some_digit (s : string) (acc v : Z) :
  digits_from s acc false = Some v -> 1 <= count_digits s.
Proof.
  destruct s as [|c r]; cbn [digits_from count_digits]; [discriminate|].
  unfold is_digit. destruct (digit_val c) as [d|].
  - intros _. pose proof (count_digits_nonneg r). lia.
  - rewrite andb_false_r. discriminate.
Qed.

(** What [int] returns is below [10 ^ max_str_digits] in absolute
    value. *)
Lemma int_ok_bound (s : string) (z : Z) :
  int s = Ok z -> Z.abs z < 10 ^ max_str_digits.
Proof.
  unfold int.
  destruct (match rstrip is_space (lstrip is_space s) with
            | String "+"%char r => (false, r)
            | String "-"%char r => (true, r)
            | _ => (false, rstrip is_space (lstrip is_space s))
            end) as [neg body].
  destruct (digits_from body 0 false) as [v|] eqn:Ev; [|discriminate].
  destruct (max_str_digits <? count_digits body) eqn:El; [discriminate|].
  apply Z.ltb_ge in El. intros H. injection H as <-.
  destruct (digits_from_bound body 0 false v ltac:(lia) Ev) as [H0 H1].
  pose proof (Z.pow_le_mono_r 10 _ _ ltac:(lia) El) as Hp.
  destruct neg; lia.
Qed.

Lemma int_of_digits (d : ascii) (ds : string) :
  all_digits (String d ds) = true ->
  int (String d ds)
  = match digits_from (String d ds) 0 false with
    | Some v =>
        if max_str_digits <? Z.of_nat (String.length (String d ds))
        then Raise ValueError else Ok v
    | None => Raise ValueError
    end.
Proof.
  intros H. unfold int.
  pose proof H as H'. cbn [all_digits] in H'. apply andb_prop in H'.
  destruct H' as [Hd Hds].
  rewrite (lstrip_keeps _ _ _ (digit_not_space d Hd)).
  rewrite (rstrip_digits _ H).
  destruct (digit_not_sign d Hd) as [Hp Hm].
  assert (E : match String d ds with
              | String "+"%char r => (false, r)
              | String "-"%char r => (true, r)
              | _ => (false, String d ds)
              end = (false, String d ds)).
  { destruct d as [[] [] [] [] [] [] [] []]; try reflexivity;
      congruence. }
  rewrite E, (count_digits_all _ H). reflexivity.
Qed.

Lemma rstrip_cons (p : ascii -> bool) (c d : ascii) (r : string) :
  rstrip p (String d r) = String d r ->
  rstrip p (String c (String d r)) = String c (String d r).
Proof.
  intros H.
  change (rstrip p (String c (String d r)))
    with (match rstrip p (String d r) with
          | EmptyString => if p c then EmptyString else String c EmptyString
          | String x y => String c (String x y)
          end).
  now rewrite H.
Qed.

(** [int(str(z))] is [z], for a number that [str] writes with
    [max_str_digits] digits at most. *)
Lemma int_str_int (z : Z) :
  Z.abs z < 10 ^ max_str_digits -> int (str_int z) = Ok z.
Proof.
  intros Hz. destruct (Z_lt_le_dec z 0) as [Hneg|Hpos].
  - destruct (str_int_digits (- z)) as [d [ds [E1 [E2 E3]]]]; [lia|].
    pose proof (str_int_short (- z) ltac:(lia)) as Hlen.
    rewrite E1 in Hlen. apply Z.ltb_ge in Hlen.
    assert (E : str_int z = String "-" (String d ds)).
    { unfold str_int in *.
      assert (En : (z <? 0) = true) by (apply Z.ltb_lt; lia).
      assert (Ep : (- z <? 0) = false) by (apply Z.ltb_ge; lia).
      rewrite Ep in E1. rewrite En.
      rewrite Z.abs_neq by lia. rewrite Z.abs_eq in E1 by lia.
      now rewrite E1. }
    rewrite E. unfold int.
    rewrite lstrip_keeps by reflexivity.
    rewrite (rstrip_cons _ _ _ _ (rstrip_digits _ E2)), E3.
    rewrite (count_digits_all _ E2), Hlen.
    f_equal. lia.
  - destruct (str_int_digits z Hpos) as [d [ds [E1 [E2 E3]]]].
    pose proof (str_int_short z ltac:(lia)) as Hlen.
    rewrite E1 in Hlen. apply Z.ltb_ge in Hlen.
    rewrite E1, (int_of_digits d ds E2), E3, Hlen. reflexivity.
Qed.

Lemma strip_prefix_app (p s : string) :
  Re.strip_prefix p (p ++ s) = Some s.
Proof.
  induction p as [|c p IH]; [reflexivity|].
  cbn [append Re.strip_prefix]. now rewrite Ascii.eqb_refl.
Qed.

Lemma span_digits_app (ds r : string) (c : ascii) :
  all_digits ds = true -> is_digit c = false ->
  Re.span_digits (ds ++ String c r) = (ds, String c r).
Proof.
  intros H Hc. induction ds as [|d ds IH]; cbn [append Re.span_digits].
  - now rewrite Hc.
  - cbn [all_digits] in H. apply andb_prop in H. destruct H as [H1 H2].
    now rewrite H1, (IH H2).
Qed.

Lemma span_digits_all (ds : string) :
  all_digits ds = true -> Re.span_digits ds = (ds, EmptyString).
Proof.
  intros H. induction ds as [|d ds IH]; [reflexivity|].
  cbn [all_digits] in H. apply andb_prop in H. destruct H as [H1 H2].
  cbn [Re.span_digits]. now rewrite H1, (IH H2).
Qed.

(** In front of an underscore, a text without the letter l holds no
    match of the pattern. *)
Lemma search_length_skip (pre r : string) :
  no_char "l" pre = true ->
  Re.search_length (pre ++ String "_" r)
  = Re.search_length (String "_" r).
Proof.
  induction pre as [|c pre IH]; intros H; [reflexivity|].
  cbn [no_char] in H. apply andb_prop in H. destruct H as [Hc Hpre].
  cbn [append Re.search_length].
  assert (E : Re.match_length (String c (pre ++ String "_" r)) = None).
  { unfold Re.match_length. cbn [Re.strip_prefix].
    destruct (Ascii.eqb "_" c); [|reflexivity].
    destruct pre as [|c2 pre]; cbn [append]; [reflexivity|].
    cbn [no_char] in Hpre. apply andb_prop in Hpre.
    destruct Hpre as [Hc2 _]. apply negb_true_iff in Hc2.
    rewrite Ascii.eqb_sym, Hc2. reflexivity. }
  rewrite E. apply IH. exact Hpre.
Qed.

Lemma search_length_digits (ds : string) :
  all_digits ds = true -> Re.search_length ds = None.
Proof.
  induction ds as [|d ds IH]; intros H; [reflexivity|].
  cbn [all_digits] in H. apply andb_prop in H. destruct H as [H1 H2].
  cbn [Re.search_length].
  assert (E : Re.match_length (String d ds) = None).
  { unfold Re.match_length. cbn [Re.strip_prefix].
    destruct (Ascii.eqb "_" d) eqn:Ed; [|reflexivity].
    apply Ascii.eqb_eq in Ed. subst d. discriminate H1. }
  rewrite E. apply IH. exact H2.
Qed.

Lemma search_length_here (s g : string) :
  Re.match_length s = Some g -> Re.search_length s = Some g.
Proof. intros H. destruct s; cbn [Re.search_length]; now rewrite H. Qed.

Lemma match_length_tag (d : ascii) (ds post : string) :
  all_digits (String d ds) = true ->
  Re.match_length ("_length_" ++ String d ds ++ String "_" post)%string
  = Some (String d ds).
Proof.
  intros H. unfold Re.match_length.
  rewrite strip_prefix_app.
  rewrite (span_digits_app (String d ds) post "_" H eq_refl).
  reflexivity.
Qed.

(** X7.  A name in which [_length_], the decimal digits of [n] and an
    underscore follow a text without the letter l (as in
    NODE_1_length_1000_cov_5) gives the length [n], for a number [n] of
    [max_str_digits] (4300) digits at most. *)
Theorem X7_contig_length_found (pre post : string) (n : Z) :
  no_char "l" pre = true ->
  0 <= n < 10 ^ max_str_digits ->
  lenFromContigName
    (pre ++ "_length_" ++ str_int n ++ String "_" post)%string
  = Ok (Some n).
Proof.
  intros Hpre Hn. pose proof (str_int_short n Hn) as Hlen.
  destruct Hn as [Hn _]. unfold lenFromContigName.
  change (pre ++ "_length_" ++ str_int n ++ String "_" post)%string
    with (pre ++ String "_"
                   ("length_" ++ str_int n ++ String "_" post))%string.
  rewrite (search_length_skip pre _ Hpre).
  destruct (str_int_digits n Hn) as [d [ds [E1 [E2 E3]]]].
  rewrite E1.
  change (String "_" ("length_" ++ String d ds ++ String "_" post))%string
    with ("_length_" ++ String d ds ++ String "_" post)%string.
  rewrite (search_length_here _ _ (match_length_tag d ds post E2)).
  rewrite E1 in Hlen. apply Z.ltb_ge in Hlen.
  rewrite (int_of_digits d ds E2), E3, Hlen. reflexivity.
Qed.

Lemma X7_witness :
  lenFromContigName "NODE_1_length_1000_cov_5" = Ok (Some 1000).
Proof.
  apply (X7_contig_length_found "NODE_1" "cov_5" 1000);
    [reflexivity | vm_compute; split; [discriminate | reflexivity]].
Defined.

(** X8.  A name that ends with the digits of its length (as in
    Contig_0318_length_2999) gives [None]: the pattern asks for an
    underscore behind the digits. *)
Theorem X8_contig_length_at_end (pre ds : string) :
  no_char "l" pre = true ->
  all_digits ds = true ->
  lenFromContigName (pre ++ "_length_" ++ ds)%string = Ok None.
Proof.
  intros Hpre Hds. unfold lenFromContigName.
  change (pre ++ "_length_" ++ ds)%string
    with (pre ++ String "_" ("length_" ++ ds))%string.
  rewrite (search_length_skip pre _ Hpre).
  assert (E1 : Re.match_length (String "_" ds) = None).
  { unfold Re.match_length. cbn [Re.strip_prefix].
    change (Ascii.eqb "_" "_") with true. cbv iota.
    destruct ds as [|d ds']; [reflexivity|].
    cbn [all_digits] in Hds. apply andb_prop in Hds.
    destruct Hds as [Hd _].
    destruct (Ascii.eqb "l" d) eqn:Ed; [|reflexivity].
    apply Ascii.eqb_eq in Ed. subst d. discriminate Hd. }
  assert (E0 : Re.match_length ("_length_" ++ ds) = None).
  { unfold Re.match_length.
    rewrite strip_prefix_app, (span_digits_all ds Hds).
    destruct ds; reflexivity. }
  assert (E : Re.search_length (String "_" ("length_" ++ ds)) = None).
  { change (String "_" ("length_" ++ ds))%string
      with ("_length_" ++ ds)%string.
    cbn [Re.search_length append]. cbn [append] in E0. rewrite E0.
    repeat (match goal with
            | |- context [Re.match_length (String ?c (String ?c2 ?r))] =>
                change (Re.match_length (String c (String c2 r)))
                  with (@None string)
            end).
    rewrite E1. apply search_length_digits. exact Hds. }
  rewrite E. reflexivity.
Qed.

Lemma X8_witness :
  lenFromContigName "Contig_0318_length_2999" = Ok None.
Proof.
  exact (X8_contig_length_at_end "Contig_0318" "2999" eq_refl eq_refl).
Defined.

End Decimal.

(** ** More on the read-group stream *)

Section StreamMore.

Import sam_per_read.

Lemma group_lines_concat (lines : list string) :
  List.concat (map snd (group_lines lines)) = lines.
Proof.
  induction lines as [|l r IH]; [reflexivity|].
  cbn [group_lines]. destruct (group_lines r) as [|[nm' ls] bs].
  - simpl in IH. subst r. reflexivity.
  - destruct (first_field (split_tab l) =? nm')%string;
      cbn [map snd List.concat app] in *; now rewrite <- IH.
Qed.

Lemma group_lines_ok (lines : list string) :
  forallb line_ok lines = true ->
  forallb block_ok (group_lines lines) = true
  /\ adjacent_distinct (map fst (group_lines lines)) = true.
Proof.
  induction lines as [|l r IH]; intros H; [now split|].
  cbn [forallb] in H. apply andb_prop in H. destruct H as [Hl Hr].
  destruct (IH Hr) as [IH1 IH2]. clear IH.
  unfold line_ok in Hl. apply andb_prop in Hl. destruct Hl as [Hnl Hne].
  cbn [group_lines]. destruct (group_lines r) as [|[nm' ls] bs].
  - split; [|reflexivity]. cbn [forallb]. unfold block_ok, line_named.
    cbn [fst snd forallb]. now rewrite Hne, Hnl, String.eqb_refl.
  - cbn [forallb] in IH1. apply andb_prop in IH1.
    destruct IH1 as [Hb Hbs].
    destruct (first_field (split_tab l) =? nm')%string eqn:E.
    + apply String.eqb_eq in E. split.
      * cbn [forallb]. rewrite Hbs, andb_true_r.
        unfold block_ok, line_named in *. cbn [fst snd forallb] in *.
        rewrite Hne, Hnl, String.eqb_refl. cbn [andb].
        rewrite E. apply andb_prop in Hb. destruct Hb as [_ Hb].
        exact Hb.
      * cbn [map fst] in *. destruct (map fst bs) as [|nm2 t].
        -- reflexivity.
        -- cbn [adjacent_distinct] in *. now rewrite E.
    + split.
      * cbn [forallb]. rewrite Hb, Hbs, !andb_true_r.
        unfold block_ok, line_named. cbn [fst snd forallb].
        now rewrite Hne, Hnl, String.eqb_refl.
      * cbn [map fst adjacent_distinct] in *. rewrite E. cbn [negb andb].
        exact IH2.
Qed.

Lemma next_stops (txt rest : string) (p fuel : nat) :
  stops_here rest -> str_drop p txt = rest ->
  exists st, next fuel (mk txt p p) = Some (Raise StopIteration, st).
Proof.
  intros [->|[r ->]] Hp; [exact (next_eof txt p fuel Hp)|].
  unfold next.
  destruct (read_fields_line txt EmptyString r p p Hp eq_refl)
    as [q [-> _]].
  simpl. eauto.
Qed.

Lemma stops_differs (nm rest : string) :
  nm <> EmptyString -> stops_here rest -> rest_differs nm rest.
Proof.
  intros Hne H. exists EmptyString, rest.
  split; [reflexivity|]. split; [|split; [reflexivity | simpl; congruence]].
  destruct H as [->|[r ->]]; [now left | right; eauto].
Qed.

Lemma text_of_true_app (xs ys : list string) (rest : string) :
  ys <> [] ->
  (text_of true (xs ++ ys) ++ rest)%string
  = (text_of true xs ++ (text_of true ys ++ rest))%string.
Proof.
  intros H. rewrite text_of_app by exact H. apply append_assoc.
Qed.

Lemma text_of_true_head (l : string) (ls : list string) (rest : string) :
  exists r, (text_of true (l :: ls) ++ rest)%string
            = (l ++ String newline r)%string.
Proof.
  cbn [text_of]. destruct ls as [|l2 ls].
  - exists rest. apply append_snoc.
  - eexists. rewrite <- (append_snoc l _ newline), append_assoc.
    rewrite append_snoc. reflexivity.
Qed.

(** The driver's loop over blocks that are followed by a place where
    [next] stops. *)
Lemma read_groups_blocks_then (txt rest : string)
  (blocks : list (string * list string)) :
  stops_here rest ->
  forallb block_ok blocks = true ->
  adjacent_distinct (map fst blocks) = true ->
  forall (p fuel : nat),
    str_drop p txt
    = (text_of true (List.concat (map snd blocks)) ++ rest)%string ->
    (List.length (List.concat (map snd blocks)) + List.length blocks
     < fuel)%nat ->
    read_groups fuel (mk txt p p) = Some (Ok (map group_of blocks)).
Proof.
  intros Hstop.
  induction blocks as [|[nm ls] bs IH]; intros Hok Hadj p fuel Hp Hfuel;
    (destruct fuel as [|f]; [lia|]); cbn [read_groups].
  - destruct (next_stops txt rest p f Hstop Hp) as [st ->]. reflexivity.
  - cbn [forallb] in Hok. apply andb_prop in Hok.
    destruct Hok as [Hb Hbs].
    destruct (block_ok_inv _ _ Hb) as [Hne [l [ls' [-> Hall]]]].
    cbn [map snd List.concat] in Hp, Hfuel.
    rewrite length_app in Hfuel. cbn [List.length] in Hfuel.
    assert (Hnext : exists q,
               next f (mk txt p p)
               = Some (Ok (map split_tab (l :: ls')), mk txt q q)
               /\ str_drop q txt
                  = (text_of true (List.concat (map snd bs)) ++ rest)%string).
    { destruct bs as [|[nm2 ls2] bs'].
      - cbn [map List.concat] in *. rewrite app_nil_r in Hp.
        apply (next_block nm txt rest l ls' true p f);
          [exact Hne | exact Hall | exact (stops_differs nm rest Hne Hstop)
          | discriminate | exact Hp | lia].
      - cbn [forallb] in Hbs. apply andb_prop in Hbs.
        destruct Hbs as [Hb' _].
        destruct (block_ok_inv _ _ Hb') as [_ [l2 [ls2' [-> Hall2]]]].
        cbn [map snd List.concat] in *.
        rewrite text_of_true_app in Hp by discriminate.
        apply (next_block nm txt _ l ls' true p f);
          [exact Hne | exact Hall | | discriminate | exact Hp | lia].
        destruct (text_of_true_head l2 (ls2' ++ List.concat (map snd bs'))
                    rest) as [r Er].
        change ((l2 :: ls2') ++ List.concat (map snd bs'))
          with (l2 :: (ls2' ++ List.concat (map snd bs'))).
        rewrite Er. exists l2, (String newline r).
        cbn [forallb] in Hall2. apply andb_prop in Hall2.
        destruct Hall2 as [Hl2 _]. unfold line_named in Hl2.
        apply andb_prop in Hl2. destruct Hl2 as [Hno2 Hnm2].
        apply String.eqb_eq in Hnm2.
        cbn [map fst adjacent_distinct] in Hadj.
        apply andb_prop in Hadj. destruct Hadj as [Hd _].
        apply negb_true_iff in Hd. apply String.eqb_neq in Hd.
        split; [reflexivity|]. split; [right; eauto|].
        split; [exact Hno2 | congruence]. }
    destruct Hnext as [q [-> Hq]].
    rewrite (IH Hbs (adjacent_distinct_tail _ _ Hadj) q f Hq);
      [reflexivity | lia].
Qed.

(** X9.  In a file that starts with blocks of lines whose names are not
    empty, neighbouring blocks with different names, and goes on with an
    empty line, the stream ends at the empty line: the groups of the
    blocks in front of it are delivered, and what stands behind it is
    never read. *)
Theorem X9_empty_line_ends_stream (blocks : list (string * list string))
  (behind : string) :
  forallb block_ok blocks = true ->
  adjacent_distinct (map fst blocks) = true ->
  exists n, forall fuel, (n <= fuel)%nat ->
    read_groups fuel
      (init (text_of true (List.concat (map snd blocks))
             ++ String newline behind))
    = Some (Ok (map group_of blocks)).
Proof.
  intros Hok Hadj.
  exists (S (List.length (List.concat (map snd blocks))
             + List.length blocks)).
  intros fuel Hfuel. unfold init.
  apply (read_groups_blocks_then _ (String newline behind));
    [right; eauto | exact Hok | exact Hadj | reflexivity | lia].
Qed.

Lemma X9_witness :
  exists n, forall fuel, (n <= fuel)%nat ->
    read_groups fuel
      (init (text_of true (List.concat (map snd Examples.blocks))
             ++ String newline "r9"))
    = Some (Ok (map group_of Examples.blocks)).
Proof.
  apply (X9_empty_line_ends_stream Examples.blocks "r9"); reflexivity.
Defined.

(** The loop of [next] over lines with the empty name that end the file:
    it takes them one by one and then goes on for ever. *)
Lemma next_loop_empty_block (txt : string) (last_nl : bool)
  (ls : list string) :
  forallb (line_named EmptyString) ls = true ->
  forall (fuel : nat) (cur : list (list string)) (p : nat),
    cur <> [] -> first_field (first_line cur) = EmptyString ->
    str_drop p txt = text_of last_nl ls ->
    next_loop fuel cur (mk txt p p) = None.
Proof.
  induction ls as [|l ls IH]; intros Hls fuel cur p Hcur Hnm Hp.
  - exact (next_loop_empty_name txt p Hp fuel cur Hcur Hnm).
  - destruct fuel as [|f]; [reflexivity|]. cbn [next_loop].
    cbn [forallb] in Hls. apply andb_prop in Hls.
    destruct Hls as [Hl Hls]. unfold line_named in Hl.
    apply andb_prop in Hl. destruct Hl as [Hno Hname].
    rewrite <- (append_empty (text_of last_nl (l :: ls))) in Hp.
    destruct (read_first_line txt EmptyString l ls last_nl p p
                (fun _ => eq_refl) Hno Hp) as [q [E Hq]].
    rewrite append_empty in Hq.
    rewrite E, Hnm, Hname. unfold seek. cbn [content fileh cursor_pos].
    rewrite E. unfold set_cursor_pos, tell.
    cbn [content fileh cursor_pos].
    apply (IH Hls f _ q); [destruct cur; discriminate | | exact Hq].
    now rewrite first_line_app.
Qed.

Lemma split_tab_not_nil (s : string) : split_tab s <> [].
Proof.
  destruct s as [|c s]; cbn [split_tab]; [discriminate|].
  destruct (Ascii.eqb c tab); [discriminate|].
  destruct (split_tab s); discriminate.
Qed.

(** Only the empty string splits into one empty field. *)
Lemma split_tab_empty (s : string) :
  split_tab s = [EmptyString] -> s = EmptyString.
Proof.
  destruct s as [|c s]; [reflexivity|]. cbn [split_tab].
  destruct (Ascii.eqb c tab).
  - intros H. injection H as H. now apply split_tab_not_nil in H.
  - destruct (split_tab s); discriminate.
Qed.

(** X10.  When the lines that end the file have the empty name (they
    start with a tab, or are empty behind the first), [next] does not
    return for them, however long it runs: at the end of the file the
    empty field that is read equals the name of the group. *)
Theorem X10_empty_name_never_returns (txt : string) (last_nl : bool)
  (l : string) (ls : list string) (p : nat) :
  l <> EmptyString ->
  forallb (line_named EmptyString) (l :: ls) = true ->
  str_drop p txt = text_of last_nl (l :: ls) ->
  forall fuel, next fuel (mk txt p p) = None.
Proof.
  intros Hne Hall Hp fuel.
  cbn [forallb] in Hall. apply andb_prop in Hall.
  destruct Hall as [Hl Hls]. unfold line_named in Hl.
  apply andb_prop in Hl. destruct Hl as [Hno Hname].
  apply String.eqb_eq in Hname.
  rewrite <- (append_empty (text_of last_nl (l :: ls))) in Hp.
  destruct (read_first_line txt EmptyString l ls last_nl p p
              (fun _ => eq_refl) Hno Hp) as [q [E Hq]].
  rewrite append_empty in Hq.
  unfold next. rewrite E.
  assert (Ef : fields_eqb (split_tab l) [EmptyString] = false).
  { unfold fields_eqb.
    destruct (list_eq_dec string_dec (split_tab l) [EmptyString])
      as [Heq|]; [|reflexivity].
    exfalso. apply Hne. exact (split_tab_empty l Heq). }
  rewrite Ef. unfold set_cursor_pos, tell. cbn [content fileh cursor_pos].
  rewrite (next_loop_empty_block txt last_nl ls Hls fuel
             [split_tab l] q); [reflexivity | discriminate | exact Hname
                               | exact Hq].
Qed.

Lemma X10_witness :
  next 1000 (mk (String tab "x" ++ String newline "") 0 0) = None.
Proof.
  apply (X10_empty_name_never_returns _ true (String tab "x") [] 0);
    [discriminate | reflexivity | reflexivity].
Defined.

(** C6 as it was claimed fails for lines whose name is empty.  The file
    of the three lines r1, an empty line and r2 has three blocks of one
    line, with the distinct names r1, the empty name and r2, and the
    stream yields one group, that of r1: the empty line ends it.  The
    file of the one line <TAB>x has one line with one name, the empty
    one, and the stream yields no group at all: [next] does not
    return. *)
Lemma C6_counterexample :
  (adjacent_distinct (map name_of ["r1"; ""; "r2"]) = true
   /\ read_groups 20 (init (text_of true ["r1"; ""; "r2"]))
      = Some (Ok [[["r1"]]]))
  /\ (name_of (String tab "x") = ""
      /\ forall fuel,
           read_groups fuel (init (text_of true [String tab "x"])) = None).
Proof.
  split; [split; reflexivity|]. split; [reflexivity|].
  intros [|f]; [reflexivity|]. cbn [read_groups].
  set (txt := text_of true [String tab "x"]).
  change (next f (init txt))
    with (match next_loop f [[""; "x"]] (mk txt 3 3) with
          | Some (currlines, self3) => Some (Ok currlines, self3)
          | None => None
          end).
  rewrite (next_loop_empty_name txt 3 eq_refl f [[""; "x"]]);
    [reflexivity | discriminate | reflexivity].
Qed.

Lemma one_name_block (nm l : string) (ls : list string) :
  forallb (line_named nm) (l :: ls) = true ->
  one_name (map split_tab (l :: ls)) = true
  /\ first_field (first_line (map split_tab (l :: ls))) = nm.
Proof.
  cbn [forallb map one_name first_line hd]. intros H.
  apply andb_prop in H. destruct H as [Hl Hls].
  unfold line_named in Hl. apply andb_prop in Hl.
  destruct Hl as [_ Hname]. apply String.eqb_eq in Hname.
  split; [|exact Hname]. rewrite Hname.
  induction ls as [|x ls IH]; [reflexivity|].
  cbn [forallb map] in *. apply andb_prop in Hls.
  destruct Hls as [Hx Hls]. unfold line_named in Hx.
  apply andb_prop in Hx. destruct Hx as [_ Hx].
  rewrite Hx. cbn [andb]. apply IH. exact Hls.
Qed.

Lemma groups_of_blocks (blocks : list (string * list string)) :
  forallb block_ok blocks = true ->
  adjacent_distinct (map fst blocks) = true ->
  forallb one_name (map group_of blocks) = true
  /\ groups_differ (map group_of blocks) = true
  /\ List.concat (map group_of blocks)
     = map split_tab (List.concat (map snd blocks)).
Proof.
  induction blocks as [|[nm ls] bs IH]; intros Hok Hadj;
    [now repeat split|].
  cbn [forallb] in Hok. apply andb_prop in Hok. destruct Hok as [Hb Hbs].
  destruct (block_ok_inv _ _ Hb) as [Hne [l [ls' [-> Hall]]]].
  destruct (IH Hbs (adjacent_distinct_tail _ _ Hadj)) as [I1 [I2 I3]].
  destruct (one_name_block nm l ls' Hall) as [O1 O2].
  split; [|split].
  - cbn [map forallb]. unfold group_of at 1. cbn [snd].
    now rewrite O1, I1.
  - cbn [map groups_differ]. destruct bs as [|[nm2 ls2] bs'].
    + reflexivity.
    + cbn [map] in I2 |- *. rewrite I2, andb_true_r.
      cbn [forallb] in Hbs. apply andb_prop in Hbs.
      destruct Hbs as [Hb2 _].
      destruct (block_ok_inv _ _ Hb2) as [_ [l2 [ls2' [-> Hall2]]]].
      destruct (one_name_block nm2 l2 ls2' Hall2) as [_ O3].
      unfold group_of. cbn [snd]. rewrite O2, O3.
      cbn [fst adjacent_distinct] in Hadj.
      apply andb_prop in Hadj. tauto.
  - cbn [map List.concat snd]. rewrite map_app, I3. reflexivity.
Qed.

(** X11.  For every file of lines with names that are not empty, sorted
    by name or not, the driver receives the maximal runs of neighbouring
    lines with one name: the groups joined give the fields of all lines
    in the order of the file, every group has one name, and neighbouring
    groups differ in name.  A name that comes back later in the file
    gives a second group. *)
Theorem X11_groups_are_runs (lines : list string) (last_nl : bool) :
  forallb line_ok lines = true ->
  exists n, forall fuel, (n <= fuel)%nat ->
    exists gs,
      read_groups fuel (init (text_of last_nl lines)) = Some (Ok gs)
      /\ List.concat gs = map split_tab lines
      /\ forallb one_name gs = true
      /\ groups_differ gs = true.
Proof.
  intros H. destruct (group_lines_ok lines H) as [Hok Hadj].
  exists (S (List.length lines + List.length (group_lines lines))).
  intros fuel Hfuel. exists (map group_of (group_lines lines)).
  destruct (groups_of_blocks _ Hok Hadj) as [G1 [G2 G3]].
  rewrite group_lines_concat in G3.
  split; [|now repeat split].
  unfold init.
  apply (read_groups_blocks _ last_nl); rewrite ?group_lines_concat;
    [exact Hok | exact Hadj | reflexivity | lia].
Qed.

Lemma X11_witness :
  exists n, forall fuel, (n <= fuel)%nat ->
    exists gs,
      read_groups fuel (init (text_of false ["r1"; "r2"; "r2"; "r1"]))
      = Some (Ok gs)
      /\ List.concat gs = map split_tab ["r1"; "r2"; "r2"; "r1"]
      /\ forallb one_name gs = true
      /\ groups_differ gs = true.
Proof.
  apply (X11_groups_are_runs ["r1"; "r2"; "r2"; "r1"] false).
  reflexivity.
Defined.

End StreamMore.

(** ** Printing an alignment *)

Section Printing.

(** [__init__] sets the attributes from the columns it has converted. *)
Lemma init_cols (line : string) :
  match sam_entry.init line with
  | Ok e =>
      exists s1 s3 s4 s7 s8 more,
        split_tab (rstrip_nl line)
        = [qname e; s1; rname e; s3; s4; sam_entry.cigar e; rnext e; s7;
           s8; sam_entry.seq e; qual e] ++ more
        /\ int s1 = Ok (flag e) /\ int s3 = Ok (pos e)
        /\ int s4 = Ok (mapq e) /\ int s7 = Ok (pnext e)
        /\ int s8 = Ok (tlen e)
        /\ sam_entry_cols line = Ok (cols_of e more)
  | Raise x => sam_entry_cols line = Raise x
  end.
Proof.
  unfold sam_entry.init, sam_entry_cols.
  destruct (startswith "@" line); [reflexivity|].
  rewrite length_map.
  destruct (List.length (split_tab (rstrip_nl line)) <? 11)%nat eqn:E;
    [reflexivity|].
  apply Nat.ltb_ge in E.
  destruct (split_tab (rstrip_nl line))
    as [|c0 [|c1 [|c2 [|c3 [|c4 [|c5 [|c6 [|c7 [|c8 [|c9 [|c10 more]]]]]]]]]]];
    simpl in E; try lia.
  unfold getitem.
  cbn [map convert_cols getitem nth_error bind col_int setitem].
  unfold getitem. cbn [nth_error bind col_int].
  destruct (int c1) as [z1|x] eqn:E1; [|reflexivity]. cbn [bind setitem].
  destruct (int c3) as [z3|x] eqn:E3; [|reflexivity]. cbn [bind setitem].
  destruct (int c4) as [z4|x] eqn:E4; [|reflexivity]. cbn [bind setitem].
  destruct (int c7) as [z7|x] eqn:E7; [|reflexivity]. cbn [bind setitem].
  destruct (int c8) as [z8|x] eqn:E8; [|reflexivity]. cbn [bind setitem].
  exists c1, c3, c4, c7, c8, more.
  cbn [qname flag rname pos mapq sam_entry.cigar rnext pnext tlen
       sam_entry.seq qual].
  repeat (split; [first [reflexivity | assumption]|]). reflexivity.
Qed.

Lemma no_tab_fields (s : string) :
  Forall (fun f => no_char tab f = true) (split_tab s).
Proof.
  induction s as [|c s IH]; cbn [split_tab].
  - constructor; [reflexivity | constructor].
  - destruct (Ascii.eqb c tab) eqn:E.
    + constructor; [reflexivity | exact IH].
    + destruct (split_tab s) as [|f fs].
      * constructor; [|constructor]. cbn [no_char]. now rewrite E.
      * inversion IH as [|? ? Hf Hfs]; subst.
        constructor; [|exact Hfs]. cbn [no_char]. now rewrite E, Hf.
Qed.

Lemma split_tab_no_tab (x : string) :
  no_char tab x = true -> split_tab x = [x].
Proof.
  induction x as [|c x IH]; [reflexivity|].
  cbn [no_char split_tab]. intros H. apply andb_prop in H.
  destruct H as [Hc Hx]. apply negb_true_iff in Hc.
  now rewrite Hc, (IH Hx).
Qed.

Lemma split_tab_app (x r : string) :
  no_char tab x = true ->
  split_tab (x ++ String tab r) = x :: split_tab r.
Proof.
  induction x as [|c x IH]; cbn [no_char append split_tab].
  - intros _. now rewrite Ascii.eqb_refl.
  - intros H. apply andb_prop in H. destruct H as [Hc Hx].
    apply negb_true_iff in Hc. now rewrite Hc, (IH Hx).
Qed.

(** Splitting what was joined gives the fields back. *)
Lemma split_join (xs : list string) :
  xs <> [] -> Forall (fun f => no_char tab f = true) xs ->
  split_tab (join_tab xs) = xs.
Proof.
  induction xs as [|x r IH]; intros Hne H; [congruence|].
  inversion H as [|? ? Hx Hr]; subst. cbn [join_tab].
  destruct r as [|y r]; [exact (split_tab_no_tab x Hx)|].
  rewrite (split_tab_app x _ Hx), IH; [reflexivity | discriminate | exact Hr].
Qed.

(** Joining the fields of a text gives the text back. *)
Lemma join_split (s : string) : join_tab (split_tab s) = s.
Proof.
  induction s as [|c s IH]; [reflexivity|]. cbn [split_tab].
  destruct (Ascii.eqb c tab) eqn:E.
  - apply Ascii.eqb_eq in E. subst c. cbn [join_tab].
    pose proof (split_tab_not_nil s) as Hn.
    destruct (split_tab s) as [|f fs]; [congruence|].
    now rewrite IH.
  - pose proof (split_tab_not_nil s) as Hn.
    destruct (split_tab s) as [|f fs]; [congruence|].
    cbn [join_tab] in *. destruct fs as [|g fs].
    + now rewrite IH.
    + cbn [append]. now rewrite IH.
Qed.

Lemma rstrip_nl_idem (s : string) : rstrip_nl (rstrip_nl s) = rstrip_nl s.
Proof.
  unfold rstrip_nl. induction s as [|c s IH]; [reflexivity|].
  cbn [rstrip].
  destruct (rstrip (fun c0 => Ascii.eqb c0 newline) s) as [|d r] eqn:E.
  - destruct (Ascii.eqb c newline) eqn:Ec; [reflexivity|].
    cbn [rstrip]. now rewrite Ec.
  - change (rstrip (fun c0 => Ascii.eqb c0 newline) (String c (String d r)))
      with (match rstrip (fun c0 => Ascii.eqb c0 newline) (String d r) with
            | EmptyString =>
                if Ascii.eqb c newline then EmptyString
                else String c EmptyString
            | String x y => String c (String x y)
            end).
    now rewrite IH.
Qed.

Lemma startswith_rstrip (s : string) :
  startswith "@" (rstrip_nl s) = startswith "@" s.
Proof.
  unfold rstrip_nl. destruct s as [|c s]; [reflexivity|].
  cbn [rstrip startswith].
  destruct (rstrip (fun c0 => Ascii.eqb c0 newline) s).
  - destruct (Ascii.eqb c newline) eqn:E; [|reflexivity].
    apply Ascii.eqb_eq in E. now subst c.
  - reflexivity.
Qed.

(** Behind a tab, [rstrip] works on what follows the tab. *)
Lemma rstrip_nl_tab (x r : string) :
  rstrip_nl (x ++ String tab r) = (x ++ String tab (rstrip_nl r))%string.
Proof.
  unfold rstrip_nl. induction x as [|c x IH]; cbn [append].
  - cbn [rstrip].
    destruct (rstrip (fun c0 => Ascii.eqb c0 newline) r); reflexivity.
  - change (rstrip (fun c0 => Ascii.eqb c0 newline)
              (String c (x ++ String tab r)))
      with (match rstrip (fun c0 => Ascii.eqb c0 newline)
                    (x ++ String tab r) with
            | EmptyString =>
                if Ascii.eqb c newline then EmptyString
                else String c EmptyString
            | String a b => String c (String a b)
            end).
    rewrite IH. destruct x; reflexivity.
Qed.

(** Whether a joined text keeps its end under [rstrip] depends on its
    last field only. *)
Lemma rstrip_nl_join (xs : list string) :
  rstrip_nl (join_tab xs) = join_tab xs
  <-> rstrip_nl (last xs EmptyString) = last xs EmptyString.
Proof.
  induction xs as [|x r IH]; [tauto|].
  destruct r as [|y r]; [tauto|].
  change (join_tab (x :: y :: r))
    with (x ++ String tab (join_tab (y :: r)))%string.
  change (last (x :: y :: r) EmptyString) with (last (y :: r) EmptyString).
  rewrite rstrip_nl_tab, <- IH. split.
  - intros H. clear IH. induction x as [|c x IHx]; cbn [append] in H.
    + now injection H.
    + injection H as H. exact (IHx H).
  - intros H. now rewrite H.
Qed.

Lemma no_tab_str_int (z : Z) : no_char tab (str_int z) = true.
Proof.
  assert (D : forall s, all_digits s = true -> no_char tab s = true).
  { induction s as [|c s IH]; [reflexivity|].
    cbn [all_digits no_char]. intros H. apply andb_prop in H.
    destruct H as [Hc Hs]. rewrite (IH Hs), andb_true_r.
    apply negb_true_iff.
    destruct (Ascii.eqb c tab) eqn:E; [|reflexivity].
    apply Ascii.eqb_eq in E. subst c. discriminate Hc. }
  destruct (Z_lt_le_dec z 0) as [Hneg|Hpos].
  - destruct (str_int_digits (- z)) as [d [ds [E1 [E2 _]]]]; [lia|].
    unfold str_int in *.
    assert (En : (z <? 0) = true) by (apply Z.ltb_lt; lia).
    assert (Ep : (- z <? 0) = false) by (apply Z.ltb_ge; lia).
    rewrite Ep in E1. rewrite En.
    rewrite Z.abs_neq by lia. rewrite Z.abs_eq in E1 by lia.
    rewrite E1. pose proof (D _ E2) as HD.
    change (no_char tab (String "-" (String d ds)))
      with (negb (Ascii.eqb "-" tab) && no_char tab (String d ds)).
    rewrite HD. reflexivity.
  - destruct (str_int_digits z Hpos) as [d [ds [E1 [E2 _]]]].
    rewrite E1. exact (D _ E2).
Qed.

Lemma startswith_join (x : string) (r : list string) :
  r <> [] -> startswith "@" (join_tab (x :: r)) = startswith "@" x.
Proof.
  intros H. cbn [join_tab]. destruct r as [|y r]; [congruence|].
  destruct x; reflexivity.
Qed.

Lemma startswith_first_field (s x : string) (r : list string) :
  split_tab s = x :: r -> startswith "@" s = startswith "@" x.
Proof.
  destruct s as [|c s]; cbn [split_tab].
  - intros H. now injection H as <- _.
  - destruct (Ascii.eqb c tab) eqn:E.
    + intros H. injection H as <- _. apply Ascii.eqb_eq in E. now subst c.
    + destruct (split_tab s); intros H; injection H as <- _; reflexivity.
Qed.

Lemma last_app_right {A : Type} (xs ys : list A) (d : A) :
  ys <> [] -> last (xs ++ ys) d = last ys d.
Proof.
  intros H. induction xs as [|x xs IH]; [reflexivity|].
  cbn [app]. destruct (xs ++ ys) eqn:E; [|exact IH].
  apply app_eq_nil in E. tauto.
Qed.

(** X12.  What [__str__] prints for an alignment is read back by
    [__init__] as the same alignment, with the same columns: the numeric
    columns are printed as plain decimals, the other columns as they
    were. *)
Theorem X12_print_then_parse (line : string) (e : sam_entry.t)
  (cols : list col) :
  sam_entry.init line = Ok e ->
  sam_entry_cols line = Ok cols ->
  sam_entry.init (sam_entry_str cols) = Ok e
  /\ sam_entry_cols (sam_entry_str cols) = Ok cols
  /\ split_tab (sam_entry_str cols) = map col_str cols.
Proof.
  intros He Hc. pose proof (init_cols line) as H. rewrite He in H.
  destruct H as [s1 [s3 [s4 [s7 [s8 [more [Hs [I1 [I3 [I4 [I7 [I8 Hc']]]]]]]]]]]].
  assert (cols = cols_of e more) by congruence. subst cols. clear Hc'.
  assert (Hh : startswith "@" line = false).
  { unfold sam_entry.init in He.
    destruct (startswith "@" line); [discriminate | reflexivity]. }
  pose proof (no_tab_fields (rstrip_nl line)) as Hnt. rewrite Hs in Hnt.
  set (fs := map col_str (cols_of e more)).
  assert (Efs : fs = [qname e; str_int (flag e); rname e; str_int (pos e);
                      str_int (mapq e); sam_entry.cigar e; rnext e;
                      str_int (pnext e); str_int (tlen e);
                      sam_entry.seq e; qual e] ++ more).
  { unfold fs, cols_of. rewrite map_app, map_map. cbn [map col_str].
    now rewrite map_id. }
  assert (Hfs : Forall (fun f => no_char tab f = true) fs).
  { rewrite Efs.
    repeat match goal with
           | H : Forall _ (_ :: _) |- _ =>
               inversion H; subst; clear H
           | H : Forall _ ([_; _; _; _; _; _; _; _; _; _; _] ++ _) |- _ =>
               cbn [app] in H
           end.
    cbn [app]. repeat (constructor; [assumption || apply no_tab_str_int|]).
    assumption. }
  assert (Hsplit : split_tab (sam_entry_str (cols_of e more)) = fs).
  { unfold sam_entry_str. fold fs. apply split_join; [|exact Hfs].
    rewrite Efs. discriminate. }
  assert (Hstart : startswith "@" (sam_entry_str (cols_of e more)) = false).
  { unfold sam_entry_str. fold fs. rewrite Efs. cbn [app].
    rewrite startswith_join by discriminate.
    pose proof Hs as Hs'. cbn [app] in Hs'.
    rewrite <- (startswith_first_field _ _ _ Hs').
    now rewrite startswith_rstrip. }
  assert (Hkeep : rstrip_nl (sam_entry_str (cols_of e more))
                  = sam_entry_str (cols_of e more)).
  { unfold sam_entry_str. fold fs. apply rstrip_nl_join.
    assert (El : last fs EmptyString
                 = last (split_tab (rstrip_nl line)) EmptyString).
    { rewrite Efs, Hs. destruct more as [|m more]; [reflexivity|].
      rewrite !last_app_right by discriminate. reflexivity. }
    rewrite El. apply rstrip_nl_join.
    rewrite join_split. apply rstrip_nl_idem. }
  assert (Hcols : sam_entry_cols (sam_entry_str (cols_of e more))
                  = Ok (cols_of e more)).
  { unfold sam_entry_cols. rewrite Hstart, Hkeep, Hsplit, Efs.
    cbn [app map List.length Nat.ltb Nat.leb].
    unfold getitem.
    cbn [convert_cols getitem nth_error bind col_int setitem].
    unfold getitem. cbn [nth_error bind col_int].
    repeat (rewrite int_str_int
              by (eapply int_ok_bound; eassumption);
            cbn [bind setitem]).
    reflexivity. }
  split; [|split; [exact Hcols | exact Hsplit]].
  pose proof (init_cols (sam_entry_str (cols_of e more))) as H2.
  destruct (sam_entry.init (sam_entry_str (cols_of e more))) as [e2|x].
  - destruct H2 as [_ [_ [_ [_ [_ [more2 [_ [_ [_ [_ [_ [_ H2]]]]]]]]]]]].
    rewrite Hcols in H2.
    destruct e as [q f rn p mq cg rx pn tl sq ql].
    destruct e2 as [q2 f2 rn2 p2 mq2 cg2 rx2 pn2 tl2 sq2 ql2].
    unfold cols_of in H2. cbn in H2.
    injection H2; intros; subst; reflexivity.
  - rewrite Hcols in H2. discriminate.
Qed.

Lemma X12_witness :
  sam_entry.init (sam_entry_str (cols_of Examples.fwd_a []))
  = Ok Examples.fwd_a.
Proof.
  exact (proj1 (X12_print_then_parse Examples.fwd_a_line Examples.fwd_a _
                  eq_refl eq_refl)).
Defined.

(** X13.  The driver builds an alignment from the fields of a line,
    joined by tabs: this is the alignment of the line itself, and when
    the line cannot be parsed the same exception is raised. *)
Theorem X13_rejoined_fields (line : string) :
  sam_entry.init (join_tab (split_tab (rstrip_nl line)))
  = sam_entry.init line
  /\ sam_entry_cols (join_tab (split_tab (rstrip_nl line)))
     = sam_entry_cols line.
Proof.
  rewrite join_split. unfold sam_entry.init, sam_entry_cols.
  now rewrite startswith_rstrip, rstrip_nl_idem.
Qed.

End Printing.

(** ** The driver *)

Section Driver.

Lemma dict_set_sum (d : dict) (k : string) :
  dict_sum (dict_set d k (dict_get d k 0 + 1)) = dict_sum d + 1.
Proof.
  induction d as [|[k' v'] r IH]; cbn [dict_set dict_get dict_sum fold_right snd].
  - lia.
  - destruct (k =? k')%string; cbn [dict_sum fold_right snd].
    + lia.
    + unfold dict_sum in IH. rewrite IH. lia.
Qed.

Lemma dict_set_keys (d : dict) (k : string) (v : Z) (k' : string) :
  In k' (map fst (dict_set d k v)) <-> k' = k \/ In k' (map fst d).
Proof.
  induction d as [|[k0 v0] r IH]; cbn [dict_set map fst In].
  - split; [intros [H|[]]; now left | intros [H|[]]; now left].
  - destruct (k =? k0)%string eqn:E; cbn [map fst In].
    + apply String.eqb_eq in E. subst k0. intuition congruence.
    + rewrite IH. intuition congruence.
Qed.

Lemma dict_set_NoDup (d : dict) (k : string) (v : Z) :
  NoDup (map fst d) -> NoDup (map fst (dict_set d k v)).
Proof.
  induction d as [|[k0 v0] r IH]; cbn [dict_set map fst]; intros H.
  - constructor; [intros [] | constructor].
  - inversion H as [|? ? Hk Hr]; subst.
    destruct (k =? k0)%string eqn:E; cbn [map fst].
    + constructor; assumption.
    + constructor; [|apply IH; exact Hr].
      rewrite dict_set_keys. intros [->|Hin]; [|contradiction].
      now rewrite String.eqb_refl in E.
Qed.

Lemma dict_get_ge (d : dict) (k : string) :
  Forall (fun kv => 1 <= snd kv) d -> 0 <= dict_get d k 0.
Proof.
  induction 1 as [|[k' v'] r Hk Hr IH]; cbn [dict_get]; [lia|].
  destruct (k =? k')%string; [simpl in Hk; lia | exact IH].
Qed.

Lemma dict_set_ge (d : dict) (k : string) (v : Z) :
  1 <= v -> Forall (fun kv => 1 <= snd kv) d ->
  Forall (fun kv => 1 <= snd kv) (dict_set d k v).
Proof.
  intros Hv. induction 1 as [|[k' v'] r Hk Hr IH]; cbn [dict_set].
  - constructor; [exact Hv | constructor].
  - destruct (k =? k')%string; constructor; assumption.
Qed.

(** [singleReadSegmentBridges] raises nothing but the [TypeError] of a
    missing contig length and the [ValueError] of [int]. *)
Lemma single_raises (a b : sam_entry.t) (e : exn) :
  singleReadSegmentBridges a b = Raise e ->
  e = TypeError \/ e = ValueError.
Proof.
  intros H.
  destruct (sameReadForward a b) eqn:Hf.
  2:{ unfold singleReadSegmentBridges in H.
      rewrite sameReadReverse_never, Hf in H. discriminate. }
  destruct (rname a =? rname b)%string eqn:Hr.
  2:{ unfold singleReadSegmentBridges in H.
      rewrite Hf, Hr in H. discriminate. }
  apply String.eqb_eq in Hr.
  destruct (lenFromContigName (rname a)) as [T|e'] eqn:HT.
  2:{ rewrite (single_raises_early a b e' Hf Hr) in H by now left.
      injection H as <-. right. exact (lenFromContigName_raises _ _ HT). }
  destruct (cigar.init (sam_entry.cigar a)) as [ca|e'] eqn:Ea.
  2:{ rewrite (single_raises_early a b e' Hf Hr) in H
        by (right; left; eauto).
      injection H as <-. right. exact (cigar_init_raises _ _ Ea). }
  destruct (cigar.init (sam_entry.cigar b)) as [cb|e'] eqn:Eb.
  2:{ rewrite (single_raises_early a b e' Hf Hr) in H
        by (right; right; eauto).
      injection H as <-. right. exact (cigar_init_raises _ _ Eb). }
  pose proof (proj1 (cigar_init_ok _ _ Ea)) as Wa.
  pose proof (proj1 (cigar_init_ok _ _ Eb)) as Wb.
  destruct (readMatchStartStop_spec ca Wa) as [ra [Era Hra]].
  destruct (readMatchStartStop_spec cb Wb) as [rb [Erb Hrb]].
  destruct ra as [[a0 a1]|];
    [|rewrite (single_no_range a b T ca cb) in H by auto; discriminate].
  destruct rb as [[b0 b1]|];
    [|rewrite (single_no_range a b T ca cb) in H by auto; discriminate].
  destruct Hra as [La [HLa [_ [Ha _]]]].
  destruct Hrb as [Lb [HLb [_ [Hb _]]]].
  destruct (range_has_lengths ca _ Wa Era) as [rl [la [Hrla Hla]]].
  destruct (range_has_lengths cb _ Wb Erb) as [rl' [lb [Hrlb Hlb]]].
  rewrite (single_forward_eval a b T ca cb a0 a1 b0 b1 rl la lb) in H
    by assumption.
  destruct T as [t|]; cbn [as_int bind] in H.
  - destruct ((a1 <? b0) && (pos a >? pos b + lb)); [discriminate|].
    destruct ((b1 <? a0) && (pos b >? pos a + la)); discriminate.
  - left.
    destruct ((a1 <? b0) && (pos a >? pos b + lb)); [congruence|].
    destruct ((b1 <? a0) && (pos b >? pos a + la)); congruence.
Qed.

Lemma eval_pair_ok (ai aj : aln) (st st' : tally) (r : res unit) :
  tally_ok st -> eval_pair ai aj st = (r, st') ->
  tally_ok st' /\ total st' = total st
  /\ forall e, r = Raise e -> bridge_exn e.
Proof.
  intros Hok H. unfold eval_pair in H.
  destruct (singleReadSegmentBridges (fst ai) (fst aj)) as [s|e] eqn:Es.
  2:{ injection H as <- <-. split; [exact Hok|]. split; [reflexivity|].
      intros e' He. injection He as <-. unfold bridge_exn.
      destruct (single_raises _ _ _ Es) as [->| ->]; tauto. }
  set (st1 := if s then _ else st) in H.
  assert (H1 : tally_ok st1 /\ total st1 = total st).
  { unfold st1. destruct s; [|now split]. split; [|reflexivity].
    destruct Hok as [P1 [P2 [P3 [P4 [P5 P6]]]]].
    unfold tally_ok.
    cbn [pairedReadHits supportedByPairedRead singleReadHits
         supportedBySingleRead printed].
    repeat split; try assumption.
    - rewrite dict_set_sum. lia.
    - rewrite length_app. unfold evidence. cbn [List.length]. lia.
    - apply dict_set_NoDup. exact P5.
    - apply dict_set_ge; [|exact P6].
      pose proof (dict_get_ge (supportedBySingleRead st)
                    (rname (fst ai)) P6). lia. }
  destruct H1 as [H1 Ht].
  destruct (paired_values (fst ai) (fst aj) maxInsertSize)
    as [E|[E|[E|[E _]]]];
    rewrite E in H; injection H as <- <-;
    (split; [exact H1|]; split; [exact Ht|]); intros e He;
    [discriminate | injection He as <- | injection He as <-
    | injection He as <-]; unfold bridge_exn; tauto.
Qed.

Lemma eval_pairs_ok (alns : list aln) (pairs : list (nat * nat)) :
  Forall (fun ij => (fst ij < List.length alns)%nat
                    /\ (snd ij < List.length alns)%nat) pairs ->
  forall (st st' : tally) (r : res unit),
    tally_ok st -> eval_pairs alns pairs st = (r, st') ->
    tally_ok st' /\ total st' = total st
    /\ forall e, r = Raise e -> bridge_exn e.
Proof.
  induction 1 as [|[i j] ps [Hi Hj] Hps IH]; intros st st' r Hok H;
    cbn [eval_pairs] in H.
  - injection H as <- <-. split; [exact Hok|]. split; [reflexivity|].
    intros e He. discriminate.
  - cbn [fst snd] in Hi, Hj. unfold getitem in H.
    destruct (nth_error alns i) as [ai|] eqn:Ei;
      [|apply nth_error_None in Ei; lia].
    destruct (nth_error alns j) as [aj|] eqn:Ej;
      [|apply nth_error_None in Ej; lia].
    destruct (eval_pair ai aj st) as [[u|e] st1] eqn:Ep.
    + destruct (eval_pair_ok ai aj st st1 _ Hok Ep) as [H1 [H2 _]].
      destruct (IH st1 st' r H1 H) as [H3 [H4 H5]].
      split; [exact H3|]. split; [congruence | exact H5].
    + injection H as <- <-.
      exact (eval_pair_ok ai aj st st1 _ Hok Ep).
Qed.

Lemma driver_pairs_in (n i j : nat) :
  In (i, j) (driver_pairs n) <-> (i <= j < n /\ i + 1 < n)%nat.
Proof.
  unfold driver_pairs. rewrite in_flat_map. split.
  - intros [k [Hk Hi]]. apply in_seq in Hk. apply in_map_iff in Hi.
    destruct Hi as [x [E Hx]]. injection E as -> ->.
    apply in_seq in Hx. lia.
  - intros H. exists i. split; [apply in_seq; lia|].
    apply in_map_iff. exists j. split; [reflexivity|].
    apply in_seq. lia.
Qed.

Lemma driver_pairs_bound (n : nat) :
  Forall (fun ij => (fst ij < n)%nat /\ (snd ij < n)%nat) (driver_pairs n).
Proof.
  apply Forall_forall. intros [i j] H. apply driver_pairs_in in H.
  cbn [fst snd]. lia.
Qed.

(** [sam_entry.__init__] raises nothing but [ValueError] and
    [AssertionError]. *)
Lemma init_raises (line : string) (e : exn) :
  sam_entry.init line = Raise e -> e = ValueError \/ e = AssertionError.
Proof.
  unfold sam_entry.init.
  destruct (startswith "@" line); [intros H; injection H as <-; now left|].
  destruct (List.length (split_tab (rstrip_nl line)) <? 11)%nat eqn:E;
    [intros H; injection H as <-; now right|].
  apply Nat.ltb_ge in E.
  destruct (split_tab (rstrip_nl line))
    as [|c0 [|c1 [|c2 [|c3 [|c4 [|c5 [|c6 [|c7 [|c8 [|c9 [|c10 more]]]]]]]]]]];
    simpl in E; try lia.
  unfold getitem. cbn [nth_error bind].
  destruct (int c1) eqn:E1;
    [|intros H; injection H as <-; left; exact (int_raises _ _ E1)].
  destruct (int c3) eqn:E3;
    [|intros H; injection H as <-; left; exact (int_raises _ _ E3)].
  destruct (int c4) eqn:E4;
    [|intros H; injection H as <-; left; exact (int_raises _ _ E4)].
  destruct (int c7) eqn:E7;
    [|intros H; injection H as <-; left; exact (int_raises _ _ E7)].
  destruct (int c8) eqn:E8;
    [|intros H; injection H as <-; left; exact (int_raises _ _ E8)].
  cbn [bind]. discriminate.
Qed.

Lemma sam_entry_new_spec (line : string) :
  match sam_entry.init line with
  | Ok e => exists more, sam_entry_new line = Ok (e, cols_of e more)
  | Raise x => sam_entry_new line = Raise x
  end.
Proof.
  unfold sam_entry_new. pose proof (init_cols line) as H.
  destruct (sam_entry.init line) as [e|x]; [|reflexivity].
  destruct H as [_ [_ [_ [_ [_ [more [_ [_ [_ [_ [_ [_ H]]]]]]]]]]]].
  exists more. cbn [bind]. now rewrite H.
Qed.

Lemma parse_group_raises (g : list (list string)) (e : exn) :
  parse_group g = Raise e -> e = ValueError \/ e = AssertionError.
Proof.
  induction g as [|l g IH]; cbn [parse_group]; [discriminate|].
  pose proof (sam_entry_new_spec (join_tab l)) as H.
  destruct (sam_entry.init (join_tab l)) as [a|x] eqn:Ei.
  - destruct H as [more ->]. cbn [bind].
    destruct (parse_group g); [discriminate|].
    cbn [bind]. intros H. injection H as <-. now apply IH.
  - rewrite H. cbn [bind]. intros H'. injection H' as <-.
    exact (init_raises _ _ Ei).
Qed.

Lemma add_total_ok (st : tally) : tally_ok st -> tally_ok (add_total st).
Proof. intros H. exact H. Qed.

Lemma eval_group_ok (g : list (list string)) (st st' : tally)
  (r : res unit) :
  tally_ok st -> eval_group g st = (r, st') ->
  tally_ok st' /\ total st' = total st + 1
  /\ forall e, r = Raise e -> fatal e.
Proof.
  intros Hok H. unfold eval_group in H.
  destruct (parse_group g) as [alns|e] eqn:Ep.
  - destruct (eval_pairs_ok alns _ (driver_pairs_bound _) _ _ _
                (add_total_ok st Hok) H) as [H1 [H2 H3]].
    split; [exact H1|]. split; [exact H2|].
    intros e He. destruct (H3 e He) as [->|[->| ->]]; unfold fatal; tauto.
  - injection H as <- <-. split; [exact Hok|]. split; [reflexivity|].
    intros e' He. injection He as <-.
    destruct (parse_group_raises g e Ep) as [->| ->]; unfold fatal; tauto.
Qed.

Lemma fatal_not_stop (e : exn) : fatal e -> e <> StopIteration.
Proof. intros [->|[->|[->| ->]]]; discriminate. Qed.

Lemma next_raises (fuel : nat) (samh st : sam_per_read.t) (e : exn) :
  sam_per_read.next fuel samh = Some (Raise e, st) -> e = StopIteration.
Proof.
  unfold sam_per_read.next.
  destruct (sam_per_read.read_fields samh) as [fields s1].
  destruct (sam_per_read.fields_eqb fields [EmptyString]).
  - intros H. now injection H as <- _.
  - destruct (sam_per_read.next_loop fuel [fields] _) as [[c s3]|];
      discriminate.
Qed.

(** The loop of the driver keeps [tally_ok], counts the groups it was
    given, and ends with a fatal exception or none. *)
Lemma main_loop_ok (fuel : nat) :
  forall (samh : sam_per_read.t) (st st' : tally) (r : res unit),
    tally_ok st -> main_loop fuel samh st = Some (r, st') ->
    tally_ok st'
    /\ (forall e, r = Raise e -> fatal e)
    /\ exists gs,
         total st' = total st + Z.of_nat (List.length gs)
         /\ (r = Ok tt ->
             sam_per_read.read_groups fuel samh = Some (Ok gs)).
Proof.
  induction fuel as [|f IH]; intros samh st st' r Hok H; [discriminate|].
  cbn [main_loop sam_per_read.read_groups] in *.
  destruct (sam_per_read.next f samh) as [[[g|e] samh']|] eqn:En;
    [| |discriminate].
  - destruct (eval_group g st) as [[u|e] st1] eqn:Eg.
    + destruct (eval_group_ok g st st1 _ Hok Eg) as [H1 [H2 _]].
      destruct (IH samh' st1 st' r H1 H) as [H3 [H4 [gs [H5 H6]]]].
      split; [exact H3|]. split; [exact H4|].
      exists (g :: gs). split.
      * cbn [List.length]. lia.
      * intros Hr. now rewrite (H6 Hr).
    + destruct (eval_group_ok g st st1 _ Hok Eg) as [H1 [H2 H3]].
      pose proof (H3 e eq_refl) as Hf.
      assert (Hr : r = Raise e /\ st' = st1).
      { destruct Hf as [->|[->|[->| ->]]]; injection H as <- <-;
          now split. }
      destruct Hr as [-> ->].
      split; [exact H1|]. split.
      * intros e' He. now injection He as <-.
      * exists [g]. split; [cbn [List.length]; lia | discriminate].
  - pose proof (next_raises _ _ _ _ En) as ->.
    injection H as <- <-.
    split; [exact Hok|]. split; [discriminate|].
    exists []. split; [cbn [List.length]; lia | reflexivity].
Qed.



(** X15.  When the driver ends by its report, its total is the number
    of groups of the file. *)
Theorem X15_total_counts_groups (fuel : nat) (text : string) (st : tally) :
  main fuel text = Some (Ok tt, st) ->
  exists gs,
    sam_per_read.read_groups fuel (sam_per_read.init text) = Some (Ok gs)
    /\ total st = Z.of_nat (List.length gs).
Proof.
  unfold main. intros H.
  assert (H0 : tally_ok tally0).
  { unfold tally_ok, tally0. cbn. repeat split; constructor. }
  destruct (main_loop fuel (sam_per_read.init text) tally0)
    as [[[u|e] st1]|] eqn:E; [|discriminate|discriminate].
  destruct u.
  destruct (main_loop_ok fuel _ _ _ _ H0 E) as [_ [_ [gs [G1 G2]]]].
  injection H as <-. cbn [total]. exists gs.
  split; [exact (G2 eq_refl) | exact G1].
Qed.

Lemma X15_witness :
  exists st gs,
    main 20 (text_of true Files.bridged) = Some (Ok tt, st)
    /\ sam_per_read.read_groups 20
         (sam_per_read.init (text_of true Files.bridged)) = Some (Ok gs)
    /\ total st = Z.of_nat (List.length gs).
Proof.
  eexists.
  match goal with
  | |- exists gs, main ?f ?t = Some (Ok tt, ?s) /\ _ =>
      assert (E : main f t = Some (Ok tt, s)) by (vm_compute; reflexivity);
      destruct (X15_total_counts_groups f t s E) as [gs [G1 G2]];
      exists gs; split; [exact E | split; [exact G1 | exact G2]]
  end.
Defined.

(** A group of one alignment that can be parsed: no pair is evaluated. *)
Lemma eval_group_single (fields : list string) (st : tally) :
  parses (join_tab fields) = true ->
  eval_group [fields] st = (Ok tt, add_total st).
Proof.
  unfold parses, eval_group. cbn [parse_group]. intros H.
  pose proof (sam_entry_new_spec (join_tab fields)) as Hs.
  destruct (sam_entry.init (join_tab fields)) as [e|x]; [|discriminate].
  destruct Hs as [more ->]. reflexivity.
Qed.

(** The loop of the driver over groups that change nothing but the
    total. *)
Lemma main_loop_quiet (fuel : nat) :
  forall (samh : sam_per_read.t) (gs : list (list (list string)))
         (st : tally),
    sam_per_read.read_groups fuel samh = Some (Ok gs) ->
    Forall (fun g => forall s, eval_group g s = (Ok tt, add_total s)) gs ->
    main_loop fuel samh st
    = Some (Ok tt, add_totals (List.length gs) st).
Proof.
  induction fuel as [|f IH]; intros samh gs st H Hq; [discriminate|].
  cbn [main_loop sam_per_read.read_groups] in *.
  destruct (sam_per_read.next f samh) as [[[g|e] samh']|] eqn:En;
    [| |discriminate].
  - destruct (sam_per_read.read_groups f samh') as [[gs'|e]|] eqn:Er;
      [|discriminate|discriminate].
    injection H as <-. inversion Hq as [|? ? Hg Hgs]; subst.
    rewrite Hg. cbn [List.length add_totals]. exact (IH _ _ _ Er Hgs).
  - pose proof (next_raises _ _ _ _ En) as ->.
    injection H as <-. reflexivity.
Qed.

Lemma add_totals_total (n : nat) (st : tally) :
  add_totals n st
  = mk_tally (total st + Z.of_nat n) (singleReadHits st)
      (pairedReadHits st) (supportedBySingleRead st)
      (supportedByPairedRead st) (printed st).
Proof.
  revert st. induction n as [|n IH]; intros st.
  - destruct st. cbn. f_equal. lia.
  - cbn [add_totals]. rewrite IH. unfold add_total. cbn. f_equal. lia.
Qed.

Lemma single_blocks (lines : list string) :
  forallb line_ok lines = true ->
  adjacent_distinct (map name_of lines) = true ->
  let blocks := map (fun l => (name_of l, [l])) lines in
  forallb block_ok blocks = true
  /\ adjacent_distinct (map fst blocks) = true
  /\ List.concat (map snd blocks) = lines
  /\ map group_of blocks = map (fun l => [split_tab l]) lines.
Proof.
  intros Hok Hadj. cbv zeta. rewrite !map_map. cbn [fst snd].
  split; [|split; [exact Hadj|split]].
  - clear Hadj. induction lines as [|l r IH]; [reflexivity|].
    cbn [forallb map] in *. apply andb_prop in Hok.
    destruct Hok as [Hl Hr]. rewrite (IH Hr), andb_true_r.
    unfold line_ok in Hl. apply andb_prop in Hl. destruct Hl as [H1 H2].
    unfold block_ok, line_named, name_of. cbn [fst snd forallb].
    now rewrite H2, H1, String.eqb_refl.
  - clear. induction lines as [|l r IH]; [reflexivity|].
    cbn [map List.concat app]. now rewrite IH.
  - reflexivity.
Qed.

(** X16.  A file of lines whose names are not empty, in which no two
    neighbouring lines have the same name, and whose lines can all be
    parsed, is only counted: no pair is evaluated, so that an alignment
    without CIGAR does no harm; the driver ends by its report, with the
    number of lines as total and no hit. *)
Theorem X16_single_lines_only_counted (lines : list string)
  (last_nl : bool) :
  forallb line_ok lines = true ->
  adjacent_distinct (map name_of lines) = true ->
  forallb parses lines = true ->
  exists n, forall fuel, (n <= fuel)%nat ->
    main fuel (text_of last_nl lines)
    = Some (Ok tt,
            mk_tally (Z.of_nat (List.length lines)) 0 0 [] []
              (report
                 (mk_tally (Z.of_nat (List.length lines)) 0 0 [] [] []))).
Proof.
  intros Hok Hadj Hp.
  destruct (single_blocks lines Hok Hadj) as [B1 [B2 [B3 B4]]].
  set (blocks := map (fun l => (name_of l, [l])) lines) in *.
  exists (S (List.length lines + List.length blocks)).
  intros fuel Hfuel. unfold main.
  assert (Hr : sam_per_read.read_groups fuel
                 (sam_per_read.init (text_of last_nl lines))
               = Some (Ok (map (fun l => [split_tab l]) lines))).
  { rewrite <- B4. unfold sam_per_read.init.
    apply (read_groups_blocks _ last_nl); rewrite ?B3;
      [exact B1 | exact B2 | reflexivity | lia]. }
  rewrite (main_loop_quiet fuel _ _ tally0 Hr).
  - rewrite add_totals_total, length_map. reflexivity.
  - apply Forall_forall. intros g Hg s. apply in_map_iff in Hg.
    destruct Hg as [l [<- Hl]]. apply eval_group_single.
    rewrite join_split.
    exact (proj1 (forallb_forall _ _) Hp l Hl).
Qed.

Lemma X16_witness :
  exists n, forall fuel, (n <= fuel)%nat ->
    main fuel (text_of true Files.singles)
    = Some (Ok tt,
            mk_tally 3 0 0 [] [] (report (mk_tally 3 0 0 [] [] []))).
Proof.
  apply (X16_single_lines_only_counted Files.singles true);
    vm_compute; reflexivity.
Defined.

(** On one reference, a record without matched range makes
    [pairedReadBridge] raise: the [TypeError] of the missing range, or
    before it the [ValueError] of [int]. *)
Lemma paired_no_range (a b : sam_entry.t) (m : Z) :
  rname a = rname b ->
  (exists c, cigar.init (sam_entry.cigar a) = Ok c
             /\ cigar.readMatchStartStop c = Ok None)
  \/ (exists c, cigar.init (sam_entry.cigar b) = Ok c
                /\ cigar.readMatchStartStop c = Ok None) ->
  pairedReadBridge a b m = Raise TypeError
  \/ pairedReadBridge a b m = Raise ValueError.
Proof.
  intros Hr H. unfold pairedReadBridge.
  rewrite Hr, String.eqb_refl. cbn [negb]. rewrite <- Hr.
  destruct (lenFromContigName (rname a)) as [T|e] eqn:HT; cbn [bind].
  2:{ rewrite (lenFromContigName_raises _ _ HT). now right. }
  destruct (cigar.init (sam_entry.cigar a)) as [ca|e] eqn:Ea; cbn [bind].
  2:{ rewrite (cigar_init_raises _ _ Ea). now right. }
  destruct (cigar.init (sam_entry.cigar b)) as [cb|e] eqn:Eb; cbn [bind].
  2:{ rewrite (cigar_init_raises _ _ Eb). now right. }
  left. unfold match_span.
  destruct (readMatchStartStop_spec ca (proj1 (cigar_init_ok _ _ Ea)))
    as [ra [Era _]].
  destruct (readMatchStartStop_spec cb (proj1 (cigar_init_ok _ _ Eb)))
    as [rb [Erb _]].
  rewrite Era. cbn [bind].
  destruct ra as [[a0 a1]|]; [|reflexivity]. cbn [bind].
  rewrite Erb. cbn [bind].
  destruct rb as [[b0 b1]|]; [|reflexivity].
  destruct H as [[c [Ec Hc]]|[c [Ec Hc]]]; congruence.
Qed.

Lemma eval_pair_kind (ai aj : aln) (st st' : tally) (e : exn) :
  eval_pair ai aj st = (Raise e, st') -> bridge_exn e.
Proof.
  unfold eval_pair, bridge_exn.
  destruct (singleReadSegmentBridges (fst ai) (fst aj)) as [s|x] eqn:Es.
  - destruct (paired_values (fst ai) (fst aj) maxInsertSize)
      as [E|[E|[E|[E _]]]]; rewrite E; intros H;
      [discriminate | injection H as <- _ | injection H as <- _
      | injection H as <- _]; tauto.
  - intros H. injection H as <- _.
    destruct (single_raises _ _ _ Es) as [->| ->]; tauto.
Qed.

Lemma eval_pairs_aborts (alns : list aln) (i j : nat) (ai aj : aln) :
  nth_error alns i = Some ai -> nth_error alns j = Some aj ->
  (forall st, exists e st', eval_pair ai aj st = (Raise e, st')) ->
  forall pairs,
    Forall (fun ij => (fst ij < List.length alns)%nat
                      /\ (snd ij < List.length alns)%nat) pairs ->
    In (i, j) pairs ->
    forall st, exists e st',
      eval_pairs alns pairs st = (Raise e, st') /\ bridge_exn e.
Proof.
  intros Hi Hj Hab pairs Hb. induction Hb as [|[i0 j0] ps [B1 B2] Hps IH];
    intros Hin st; [destruct Hin|].
  cbn [eval_pairs]. cbn [fst snd] in B1, B2. unfold getitem.
  destruct (nth_error alns i0) as [a0|] eqn:E0;
    [|apply nth_error_None in E0; lia].
  destruct (nth_error alns j0) as [a1|] eqn:E1;
    [|apply nth_error_None in E1; lia].
  destruct (eval_pair a0 a1 st) as [[u|e] st1] eqn:Ep.
  - destruct Hin as [Heq|Hin]; [|exact (IH Hin st1)].
    injection Heq as -> ->.
    assert (a0 = ai) by congruence. assert (a1 = aj) by congruence.
    subst a0 a1. destruct (Hab st) as [e [st' He]]. congruence.
  - exists e, st1. split; [reflexivity|].
    exact (eval_pair_kind _ _ _ _ _ Ep).
Qed.

(** X17.  In a group that can be parsed, when the driver comes to a
    pair of alignments on one reference of which one has no matched
    range (its CIGAR is [*], or the read is clipped entirely), the
    program ends with an exception of a bridge function, at that pair or
    before: a [TypeError], an [AttributeError], or the [ValueError] of
    [int] for a number of more digits than the interpreter converts.
    The pairs are those of two indices [i <= j] of the group with [i]
    not the last one. *)
Theorem X17_missing_range_ends_program (g : list (list string))
  (alns : list aln) (i j : nat) (ai aj : aln) (st : tally) :
  parse_group g = Ok alns ->
  (i <= j < List.length alns)%nat -> (i + 1 < List.length alns)%nat ->
  nth_error alns i = Some ai -> nth_error alns j = Some aj ->
  rname (fst ai) = rname (fst aj) ->
  no_range ai \/ no_range aj ->
  exists e st', eval_group g st = (Raise e, st') /\ bridge_exn e.
Proof.
  intros Hp Hij Hi1 Hi Hj Hr Hn. unfold eval_group. rewrite Hp.
  apply (eval_pairs_aborts alns i j ai aj Hi Hj).
  - intros s. unfold eval_pair.
    destruct (singleReadSegmentBridges (fst ai) (fst aj)) as [b|x];
      [|eauto].
    destruct (paired_no_range (fst ai) (fst aj) maxInsertSize Hr Hn)
      as [-> | ->]; eauto.
  - apply driver_pairs_bound.
  - apply driver_pairs_in. lia.
Qed.

Lemma X17_witness :
  exists e st',
    eval_group Files.half_mapped tally0 = (Raise e, st') /\ bridge_exn e.
Proof.
  destruct (parse_group Files.half_mapped) as [alns|] eqn:Ep;
    [|vm_compute in Ep; discriminate].
  vm_compute in Ep. injection Ep as <-.
  eapply (X17_missing_range_ends_program Files.half_mapped _ 0 1 _ _
            tally0).
  - vm_compute. reflexivity.
  - cbn [List.length]. lia.
  - cbn [List.length]. lia.
  - reflexivity.
  - reflexivity.
  - reflexivity.
  - right. eexists. split; vm_compute; reflexivity.
Defined.

Lemma NoDup_app_disjoint {A : Type} (xs ys : list A) :
  NoDup xs -> NoDup ys -> (forall a, In a xs -> ~ In a ys) ->
  NoDup (xs ++ ys).
Proof.
  induction 1 as [|x xs Hx Hxs IH]; intros Hys Hd; [exact Hys|].
  cbn [app]. constructor.
  - rewrite in_app_iff. intros [H|H]; [contradiction|].
    exact (Hd x (or_introl eq_refl) H).
  - apply IH; [exact Hys|]. intros a Ha. apply Hd. now right.
Qed.

(** X18.  For a group of [n] alignments the driver evaluates the pairs
    of indices [(i, j)] with [i <= j < n] and [i] not the last index,
    each once: every pair of two different alignments once, in the order
    of the file, and every alignment but the last with itself.  A group
    of one alignment is not evaluated at all. *)
Theorem X18_pairs_of_the_driver (n : nat) :
  NoDup (driver_pairs n)
  /\ forall i j,
       In (i, j) (driver_pairs n) <-> (i <= j < n /\ i + 1 < n)%nat.
Proof.
  split; [|intros i j; apply driver_pairs_in].
  unfold driver_pairs. generalize (List.seq 0 (n - 1)) (seq_NoDup (n - 1) 0).
  induction 1 as [|i l Hi Hl IH]; cbn [flat_map]; [constructor|].
  apply NoDup_app_disjoint.
  - apply map_NoDup; [intros a b H; now injection H | apply seq_NoDup].
  - exact IH.
  - intros [a b] Ha Hb. apply in_map_iff in Ha.
    destruct Ha as [x [E _]]. injection E as <- <-.
    apply in_flat_map in Hb. destruct Hb as [k [Hk Hin]].
    apply in_map_iff in Hin. destruct Hin as [y [E _]].
    injection E as -> _. contradiction.
Qed.

End Driver.

(** ** The strand tests [isR1] and [isR2] *)

Section Strand.

(** A flag masked by one bit is 0 exactly when the bit is clear. *)
Lemma land_bit_0 (f : Z) (n : Z) :
  0 <= n -> (Z.land f (2 ^ n) = 0 <-> Z.testbit f n = false).
Proof.
  intros Hn. split.
  - intros H. pose proof (Z.land_spec f (2 ^ n) n) as E.
    rewrite H, Z.bits_0, Z.pow2_bits_true in E by exact Hn.
    now rewrite andb_true_r in E.
  - intros H. apply Z.bits_inj'. intros m Hm.
    rewrite Z.land_spec, Z.bits_0, Z.pow2_bits_eqb by exact Hn.
    destruct (Z.eqb_spec n m) as [<-|_];
      [rewrite H; reflexivity | apply andb_false_r].
Qed.

(** X19.  [isR2] answers [False] for every alignment: it compares the
    masked flag, 0 or 16, with 1.  [isR1] answers [True] exactly when
    the bits 0x4 (unmapped) and 0x10 (reverse strand) are both clear, so
    that a mapped alignment on the reverse strand is neither. *)
Theorem X19_isR2_never_true (e : sam_entry.t) :
  isR2 e = false
  /\ (isR1 e = true
      <-> Z.testbit (flag e) 2 = false /\ Z.testbit (flag e) 4 = false).
Proof.
  split.
  - unfold isR2. rewrite land_16_ne_1. apply andb_false_r.
  - unfold isR1. rewrite andb_true_iff, !Z.eqb_eq.
    change 0x4 with (2 ^ 2). change 0x10 with (2 ^ 4).
    rewrite !land_bit_0 by lia. reflexivity.
Qed.

End Strand.
